(** * Sales analytics platform: the cleaning and metrics pipeline

    A shallow embedding of [src/analyzer.py] (class [SalesAnalyzer]) and
    proofs of the properties its specification states.

    Modelling choices, all of them visible in the definitions below:
    - a pandas [DataFrame] is a list of rows; a row is a [record] with the
      nine columns of the input file.  A frame may carry the extra [month]
      column that [analyze_seasonal_trends] adds;
    - a float64 value is either [NaN] or the rational it stands for ([Qc],
      the canonical rationals, so that equal numbers are equal terms); the
      infinities are left out;
    - what pandas and numpy decide, and this code does not, is a parameter
      of the model, the record [pandas]: the number a sum or a mean comes
      to once every addition is rounded (or wraps around, in an int64
      column), and the order [sort_values] leaves equal values in.  The
      theorems hold for every behaviour that satisfies the laws of
      [lawful]; [binary64] and [binary64_reversed] are two of them;
    - the text columns hold [option string], [None] being the missing value
      pandas reads from an empty cell;
    - frames live in a store and the analyzer object holds references into
      it, because the source copies, filters and updates frames in place;
    - a Python exception is a [Raise] outcome;
    - what the methods print is left out. *)

From Stdlib Require Import QArith Qcanon Lqa.
From stdpp Require Import base list strings sorting gmap.
From Equations Require Import Equations.

Local Open Scope Z_scope.

(** ** Cells *)

Inductive float : Type :=
  | NaN
  | Fl (q : Qc).

(** A cell of a numeric column: a float, or text still to be coerced (the
    column then has dtype object). *)
Inductive num_cell : Type :=
  | Float (x : float)
  | Text (s : string).

Record timestamp : Type := Timestamp { ts_year : Z; ts_month : Z; ts_day : Z }.

Inductive date_cell : Type :=
  | NaT
  | Stamp (d : timestamp)
  | DText (s : string).

(** A monthly period, [Timestamp.to_period('M')]: year and month. *)
Definition period : Type := (Z * Z)%type.

Record record : Type := Row {
  order_id : option string;
  customer_id : option string;
  order_date : date_cell;
  product_category : option string;
  product_name : option string;
  quantity : num_cell;
  unit_price : num_cell;
  order_amount : num_cell;
  status : option string
}.

Record frame : Type := Frame {
  rows : list record;
  month : option (list (option period))
}.

Global Instance Qc_eq_dec' : EqDecision Qc := Qc_eq_dec.
Global Instance float_eq_dec : EqDecision float.
Proof. solve_decision. Defined.
Global Instance num_cell_eq_dec : EqDecision num_cell.
Proof. solve_decision. Defined.
Global Instance timestamp_eq_dec : EqDecision timestamp.
Proof. solve_decision. Defined.
Global Instance date_cell_eq_dec : EqDecision date_cell.
Proof. solve_decision. Defined.
Global Instance record_eq_dec : EqDecision record.
Proof. solve_decision. Defined.

(** ** Outcomes *)

Inductive exn : Type :=
  | FileNotFoundError      (* [pd.read_csv] on a missing or unreadable file *)
  | TypeError
  | ZeroDivisionError
  | IndexError
  | AttributeError
  | Fault.                 (* a reference that is not in the store *)

Inductive result (A : Type) : Type :=
  | Ok (a : A)
  | Raise (e : exn).
Arguments Ok {A} a.
Arguments Raise {A} e.

(** ** Python numbers *)

Definition Qc_of (z : Z) : Qc := Q2Qc (inject_Z z).

Definition Qc_ltb (x y : Qc) : bool := negb (Qle_bool (this y) (this x)).
Definition Qc_leb (x y : Qc) : bool := Qle_bool (this x) (this y).

(** [a / b] on Python ints: true division. *)
Definition py_div (a b : Z) : result Qc :=
  if decide (b = 0) then Raise ZeroDivisionError
  else Ok (Qc_of a / Qc_of b)%Qc.

Definition len {A} (l : list A) : Z := Z.of_nat (length l).

(** ** Series operations *)

(** [s.fillna(v)] *)
Definition fillna (v : string) (c : option string) : option string :=
  match c with
  | None => Some v
  | Some s => Some s
  end.

(** [df[mask]]: the rows whose mask entry is [True]. *)
Fixpoint select {A} (mask : list bool) (xs : list A) : list A :=
  match mask, xs with
  | b :: mask', x :: xs' => if b then x :: select mask' xs' else select mask' xs'
  | _, _ => []
  end.

Definition is_text (c : num_cell) : bool :=
  match c with
  | Text _ => true
  | Float _ => false
  end.

(** The float behind a cell of a float64 column. *)
Definition to_float (c : num_cell) : float :=
  match c with
  | Float x => x
  | Text _ => NaN
  end.

(** [x > 0] on a float: false on NaN. *)
Definition float_gt0 (x : float) : bool :=
  match x with
  | NaN => false
  | Fl q => Qc_ltb 0%Qc q
  end.

(** [col > 0].  On a float64 column the comparison is element-wise and NaN
    compares false; a text cell cannot be compared with an int. *)
Definition gt_zero (col : list num_cell) : result (list bool) :=
  if existsb is_text col then Raise TypeError
  else Ok (map (λ c, float_gt0 (to_float c)) col).

(** [col == v] *)
Definition eq_str (v : string) (col : list (option string)) : list bool :=
  map (λ c, bool_decide (c = Some v)) col.

(** [s.count()]: the values that are not NaN. *)
Fixpoint count_valid (xs : list float) : Z :=
  match xs with
  | [] => 0
  | NaN :: xs' => count_valid xs'
  | Fl _ :: xs' => 1 + count_valid xs'
  end.

(** ** What pandas and numpy decide

    [s.sum()], [GroupBy.sum()] and [s.mean()] add the values of a float64
    column (or of an int64 one, when every cell of the file is an integer)
    in an order of numpy's or pandas' choosing, and every addition is
    rounded, or wraps around; [s.sort_values()] sorts with numpy's default
    kind, quicksort, which leaves equal values in no particular order.
    None of this is written in [src/], so the model takes it as a
    parameter. *)
Record pandas : Type := Pandas {
  (* [s.sum()] of a column, NaN skipped *)
  sum_skipna : list float → Qc;
  (* the sum [GroupBy.sum()] takes of the values of one group *)
  sum_group : list float → Qc;
  (* what [s.mean()] returns when a value is left: the sum of the values
     that are not NaN, divided by their number *)
  mean_valid : list float → Qc;
  (* [s.sort_values(ascending=False)] of a series of sums *)
  sort_values_desc : list (string * Qc) → list (string * Qc)
}.

(** [s.mean()], NaN skipped; NaN when nothing is left. *)
Definition mean_skipna (P : pandas) (xs : list float) : float :=
  if decide (count_valid xs = 0) then NaN else Fl (mean_valid P xs).

(** A whole number as a float. *)
Definition whole (z : Z) : float := Fl (Qc_of z).

Definition sum_Z (zs : list Z) : Z := foldr Z.add 0 zs.

Definition sum_abs (zs : list Z) : Z := foldr (λ z s, Z.abs z + s) 0 zs.

(** What every such behaviour has in common, whatever the order of the
    additions and the dtype of the column: the sum of no value is 0; whole
    numbers whose absolute values add up to less than 2^53 are added
    exactly (no partial sum needs rounding, none wraps around); the sorted
    series has the entries it was given, a larger value before a smaller
    one.  Nothing is said of the order of equal values. *)
Record lawful (P : pandas) : Prop := Lawful {
  sum_skipna_nothing : ∀ xs, count_valid xs = 0 → sum_skipna P xs = 0%Qc;
  sum_skipna_whole :
    ∀ zs, sum_abs zs < 2 ^ 53 → sum_skipna P (map whole zs) = Qc_of (sum_Z zs);
  sum_group_whole :
    ∀ zs, sum_abs zs < 2 ^ 53 → sum_group P (map whole zs) = Qc_of (sum_Z zs);
  sort_values_desc_perm : ∀ s, sort_values_desc P s ≡ₚ s;
  sort_values_desc_sorted :
    ∀ s, StronglySorted (λ a b, (b.2 ≤ a.2)%Qc) (sort_values_desc P s)
}.

(** A numeric reduction needs a float64 column. *)
Definition floats (col : list num_cell) : result (list float) :=
  if existsb is_text col then Raise TypeError else Ok (map to_float col).

(** [col.duplicated(keep='first')]: whether the value was met before;
    missing values are equal to each other. *)
Fixpoint duplicated {K} `{EqDecision K} (seen : list K) (col : list K) : list bool :=
  match col with
  | [] => []
  | k :: col' =>
      if decide (k ∈ seen) then true :: duplicated seen col'
      else false :: duplicated (k :: seen) col'
  end.

(** The mask of [drop_duplicates(keep='first')]. *)
Definition first_mask {K} `{EqDecision K} (col : list K) : list bool :=
  map negb (duplicated [] col).

(** The rows kept by [drop_duplicates] while the keys in [seen] count as
    met. *)
Definition keep {A K} `{EqDecision K} (key : A → K) (seen : list K) (l : list A) : list A :=
  select (map negb (duplicated seen (map key l))) l.

(** The values of a column that are not missing. *)
Definition dropna (col : list (option string)) : list string := omap id col.

(** [s.unique()] without the missing value: order of first appearance. *)
Definition unique (col : list (option string)) : list string :=
  select (first_mask (dropna col)) (dropna col).

(** [s.nunique()] *)
Definition nunique (col : list (option string)) : Z := len (unique col).

(** ** Sorting

    An insertion sort: the element met later goes after its equals. *)
Fixpoint insert_by {A} (leb : A → A → bool) (x : A) (l : list A) : list A :=
  match l with
  | [] => [x]
  | y :: l' => if leb x y then x :: l else y :: insert_by leb x l'
  end.

Fixpoint sort_by {A} (leb : A → A → bool) (l : list A) : list A :=
  match l with
  | [] => []
  | x :: l' => insert_by leb x (sort_by leb l')
  end.

(** The order [sort_by] leaves its outcome in: ascending, and among equals
    the order [K] the elements came in. *)
Definition sorted_then {A} (leb : A → A → bool) (K : A → A → Prop) (a b : A) : Prop :=
  leb a b = true ∧ (leb b a = true → K a b).

(** A stable descending sort: the larger value first, equal values in the
    order they come in.  It is the order the specification asks of the
    rankings, and one of the orders [sort_values] may leave. *)
Definition sort_stable_desc {K V} (leb : V → V → bool) (s : list (K * V)) : list (K * V) :=
  rev (sort_by (λ a b, leb a.2 b.2) (rev s)).

(** A descending sort that leaves equal values in the reverse of the order
    they come in: another of the orders [sort_values] may leave. *)
Definition sort_reversing_desc {K V} (leb : V → V → bool) (s : list (K * V)) : list (K * V) :=
  rev (sort_by (λ a b, leb a.2 b.2) s).

(** [s.head(n)] *)
Definition head {A} (n : Z) (l : list A) : list A :=
  if decide (0 ≤ n) then take (Z.to_nat n) l
  else take (length l - Z.to_nat (- n)) l.

(** Group keys come out sorted ([sort=True]). *)
Definition sorted_keys (col : list (option string)) : list string :=
  sort_by String.leb (unique col).

(** The rows of one group. *)
Definition group_rows (key : record → option string) (k : string) (rs : list record)
  : list record :=
  filter (λ r, key r = Some k) rs.

(** The sum of the amounts of the rows of one group. *)
Definition group_sum (P : pandas) (key : record → option string) (k : string)
    (rs : list record) : Qc :=
  sum_group P (map (λ r, to_float (order_amount r)) (group_rows key k rs)).

(** [df.groupby(k)['order_amount'].sum()]: one entry per key that is not
    missing, keys ascending, each with the sum of its rows. *)
Definition groupby_sum (P : pandas) (key : record → option string) (rs : list record)
  : result (list (string * Qc)) :=
  if existsb is_text (map order_amount rs) then Raise TypeError
  else Ok (map (λ k, (k, group_sum P key k rs)) (sorted_keys (map key rs))).

(** [s.sum()] of a series of sums. *)
Definition series_sum (P : pandas) (s : list (string * Qc)) : Qc :=
  sum_skipna P (map (λ kv, Fl kv.2) s).

(** [s.value_counts()]: the count of each value that is not missing, the
    largest count first.  [_calculate_repeat_rate] takes the number of
    entries and the number of entries above 1, neither of which depends on
    the order of equal counts; the model leaves them in the order the
    values are first met. *)
Definition value_counts (col : list (option string)) : list (string * Z) :=
  sort_stable_desc Z.leb
    (map (λ k, (k, len (filter (λ c, c = Some k) col))) (unique col)).

(** ** The store and the analyzer object *)

(** [self]: the two frame attributes of a [SalesAnalyzer]. *)
Record analyzer : Type := Analyzer {
  raw_df : option nat;
  clean_df : option nat
}.

(** The world a method runs in: the frames allocated so far, the analyzer,
    and what [pd.read_csv(self.data_path)] would return. *)
Record world : Type := World {
  heap : list frame;
  self : analyzer;
  source : result (list record)
}.

Definition M (A : Type) : Type := world → result A * world.

Definition ret {A} (a : A) : M A := λ w, (Ok a, w).

Definition bind {A B} (m : M A) (k : A → M B) : M B :=
  λ w, match m w with
       | (Ok a, w') => k a w'
       | (Raise e, w') => (Raise e, w')
       end.

Notation "'let*' x ':=' m 'in' k" := (bind m (λ x, k))
  (at level 10, x name, m at level 100, k at level 200).
Notation "m ;;; k" := (bind m (λ _, k))
  (at level 100, right associativity).

Definition lift {A} (r : result A) : M A := λ w, (r, w).

Definition get_self : M analyzer := λ w, (Ok (self w), w).

Definition set_raw_df (l : nat) : M unit :=
  λ w, (Ok tt, World (heap w) (Analyzer (Some l) (clean_df (self w))) (source w)).

Definition set_clean_df (l : nat) : M unit :=
  λ w, (Ok tt, World (heap w) (Analyzer (raw_df (self w)) (Some l)) (source w)).

(** A new frame object. *)
Definition alloc (f : frame) : M nat :=
  λ w, (Ok (length (heap w)), World (heap w ++ [f]) (self w) (source w)).

Definition read (l : nat) : M frame :=
  λ w, match heap w !! l with
       | Some f => (Ok f, w)
       | None => (Raise Fault, w)
       end.

(** An update of the frame object itself. *)
Definition modify (l : nat) (g : frame → frame) : M unit :=
  λ w, match heap w !! l with
       | Some f => (Ok tt, World (<[l := g f]> (heap w)) (self w) (source w))
       | None => (Raise Fault, w)
       end.

(** [df.copy()] *)
Definition copy (l : nat) : M nat := let* f := read l in alloc f.

(** [df[mask]]: a new frame with the selected rows. *)
Definition getitem (l : nat) (mask : list bool) : M nat :=
  let* f := read l in
  alloc (Frame (select mask (rows f)) (select mask <$> month f)).

(** [df[col]] of a frame. *)
Definition column {A} (col : record → A) (l : nat) : M (list A) :=
  let* f := read l in ret (map col (rows f)).

(** [df[col] = f(df[col])], element by element. *)
Definition map_rows (g : record → record) (l : nat) : M unit :=
  modify l (λ f, Frame (map g (rows f)) (month f)).

(** [self.clean_df] where the source subscripts it; [None[...]] is a
    TypeError. *)
Definition the_clean_df : M nat :=
  let* s := get_self in
  match clean_df s with
  | Some l => ret l
  | None => lift (Raise TypeError)
  end.

Definition is_dtext (c : date_cell) : bool :=
  match c with
  | DText _ => true
  | _ => false
  end.

(** ** Clean tables *)

(** A row as the Cleaner leaves it: amount and quantity positive floats,
    unit price and date coerced, status present. *)
Definition clean_row (r : record) : bool :=
  float_gt0 (to_float (order_amount r)) && float_gt0 (to_float (quantity r))
  && negb (is_text (unit_price r)) && negb (is_dtext (order_date r))
  && bool_decide (status r ≠ None).

(** A clean table: clean rows, no two with the same [order_id]. *)
Definition is_clean (rs : list record) : Prop :=
  (∀ r, r ∈ rs → clean_row r = true) ∧ NoDup (map order_id rs).

(** [self.raw_df = self.clean_df]: the Cleaner is to run on its own
    output. *)
Definition feed_back (w : world) : world :=
  World (heap w) (Analyzer (clean_df (self w)) (clean_df (self w))) (source w).

(** The clean table of a world: the rows of the frame [self.clean_df]. *)
Definition clean_table (w : world) : option (list record) :=
  match clean_df (self w) with
  | Some l => rows <$> heap w !! l
  | None => None
  end.

(** ** [SalesAnalyzer] *)

Section Analyzer.

(** What [pd.to_numeric] and [pd.to_datetime] make of a text cell; [None]
    when the text does not parse. *)
Variable parse_float : string → option Qc.
Variable parse_datetime : string → option timestamp.

(** [pd.to_numeric(col, errors='coerce')] *)
Definition to_numeric (c : num_cell) : num_cell :=
  match c with
  | Float x => Float x
  | Text s =>
      match parse_float s with
      | Some q => Float (Fl q)
      | None => Float NaN
      end
  end.

(** [pd.to_datetime(col, errors='coerce')] *)
Definition to_datetime (c : date_cell) : date_cell :=
  match c with
  | NaT => NaT
  | Stamp d => Stamp d
  | DText s =>
      match parse_datetime s with
      | Some d => Stamp d
      | None => NaT
      end
  end.

Definition set_status (v : option string) (r : record) : record :=
  Row (order_id r) (customer_id r) (order_date r) (product_category r)
      (product_name r) (quantity r) (unit_price r) (order_amount r) v.

Definition set_order_date (v : date_cell) (r : record) : record :=
  Row (order_id r) (customer_id r) v (product_category r)
      (product_name r) (quantity r) (unit_price r) (order_amount r) (status r).

Definition set_order_amount (v : num_cell) (r : record) : record :=
  Row (order_id r) (customer_id r) (order_date r) (product_category r)
      (product_name r) (quantity r) (unit_price r) v (status r).

Definition set_unit_price (v : num_cell) (r : record) : record :=
  Row (order_id r) (customer_id r) (order_date r) (product_category r)
      (product_name r) (quantity r) v (order_amount r) (status r).

(** [load_data]: [self.raw_df = pd.read_csv(self.data_path)]. *)
Definition load_data : M nat :=
  λ w, match source w with
       | Ok rs => (let* l := alloc (Frame rs None) in set_raw_df l ;;; ret l) w
       | Raise e => (Raise e, w)
       end.

(** [clean_data] *)
Definition clean_data : M nat :=
  let* s := get_self in
  let* raw := match raw_df s with
              | None => load_data
              | Some l => ret l
              end in
  let* df := copy raw in
  (* 1. missing values *)
  map_rows (λ r, set_status (fillna "pending" (status r)) r) df ;;;
  (* 2. data types *)
  map_rows (λ r, set_order_date (to_datetime (order_date r)) r) df ;;;
  map_rows (λ r, set_order_amount (to_numeric (order_amount r)) r) df ;;;
  map_rows (λ r, set_unit_price (to_numeric (unit_price r)) r) df ;;;
  (* 3. invalid entries *)
  let* amounts := column order_amount df in
  let* m1 := lift (gt_zero amounts) in
  let* df1 := getitem df m1 in
  let* quantities := column quantity df1 in
  let* m2 := lift (gt_zero quantities) in
  let* df2 := getitem df1 m2 in
  (* 4. duplicates *)
  let* ids := column order_id df2 in
  let* df3 := getitem df2 (first_mask ids) in
  set_clean_df df3 ;;;
  ret df3.

(** Steps 1 and 2 of [clean_data] on one row. *)
Definition coerce (r : record) : record :=
  Row (order_id r) (customer_id r) (to_datetime (order_date r))
      (product_category r) (product_name r) (quantity r)
      (to_numeric (unit_price r)) (to_numeric (order_amount r))
      (fillna "pending" (status r)).

Definition filter_frame (mask : list bool) (f : frame) : frame :=
  Frame (select mask (rows f)) (select mask <$> month f).

(** The frames [clean_data] allocates, oldest first: the coerced copy, the
    rows of positive amount, those of positive quantity, and the table
    without duplicates.  The comparison of the quantities may raise; two
    frames exist by then. *)
Definition stage_coerced (f : frame) : frame := Frame (map coerce (rows f)) (month f).

Definition stage_amount (f : frame) : frame :=
  filter_frame (map (λ c, float_gt0 (to_float c)) (map order_amount (map coerce (rows f))))
               (stage_coerced f).

Definition stage_quantity (m : list bool) (f : frame) : frame :=
  filter_frame m (stage_amount f).

Definition stage_unique (m : list bool) (f : frame) : frame :=
  filter_frame (first_mask (map order_id (rows (stage_quantity m f)))) (stage_quantity m f).

(** The frame [clean_data] starts from: [self.raw_df], loaded from the
    source first when it is [None]. *)
Definition raw_frame (w : world) : option frame :=
  match raw_df (self w) with
  | Some l => heap w !! l
  | None =>
      match source w with
      | Ok rs => Some (Frame rs None)
      | Raise _ => None
      end
  end.

(** The rows of the table [clean_data] stores, when it returns. *)
Definition cleaned_rows (rs : list record) : list record :=
  keep order_id []
    (List.filter (λ r, float_gt0 (to_float (quantity r)))
       (List.filter (λ r, float_gt0 (to_float (order_amount r))) (map coerce rs))).

(** *** The Cleaner as the specification words it (section 4.2) *)

(** 1. Fill null/missing status with "pending". *)
Definition spec_fill_status (r : record) : record :=
  match status r with
  | None => set_status (Some "pending") r
  | Some _ => r
  end.

(** 2. Coerce order_date to a date; unparsable values become a null-date
    marker. *)
Definition spec_date (c : date_cell) : date_cell :=
  match c with
  | DText s =>
      match parse_datetime s with
      | Some d => Stamp d
      | None => NaT          (* the null-date marker *)
      end
  | dated => dated
  end.

Definition spec_coerce_date (r : record) : record :=
  set_order_date (spec_date (order_date r)) r.

(** 3. Coerce order_amount and unit_price to numbers; unparsable values
    become a null-numeric marker. *)
Definition spec_number (c : num_cell) : num_cell :=
  match c with
  | Text s =>
      match parse_float s with
      | Some q => Float (Fl q)
      | None => Float NaN    (* the null-numeric marker *)
      end
  | number => number
  end.

Definition spec_coerce_numeric (r : record) : record :=
  set_unit_price (spec_number (unit_price r))
    (set_order_amount (spec_number (order_amount r)) r).

(** What steps 1 to 3 turn a raw record into: nothing is left as text in
    the three coerced columns, text that does not parse has become the
    null marker, text that parses its value, the status "pending" where
    there was none; the other cells are as they were. *)
Definition spec_coerced_from (raw r : record) : Prop :=
  order_id r = order_id raw ∧ customer_id r = customer_id raw ∧
  product_category r = product_category raw ∧ product_name r = product_name raw ∧
  quantity r = quantity raw ∧
  status r = Some (default "pending" (status raw)) ∧
  match order_date raw with
  | DText s => order_date r = from_option Stamp NaT (parse_datetime s)
  | dated => order_date r = dated
  end ∧
  match order_amount raw with
  | Text s => order_amount r = Float (from_option Fl NaN (parse_float s))
  | number => order_amount r = number
  end ∧
  match unit_price raw with
  | Text s => unit_price r = Float (from_option Fl NaN (parse_float s))
  | number => unit_price r = number
  end.

(** [c <= 0], a null-numeric (or anything that is not a number) failing
    the test as well. *)
Definition spec_not_positive (c : num_cell) : bool :=
  match c with
  | Float (Fl q) => Qc_leb q 0%Qc
  | _ => true
  end.

(** 4. Drop records where order_amount <= 0 or quantity <= 0. *)
Definition spec_drop_invalid (rs : list record) : list record :=
  List.filter (λ r, negb (spec_not_positive (order_amount r) || spec_not_positive (quantity r))) rs.

(** 5. Drop duplicate order_id, keeping first occurrence in original
    order. *)
Fixpoint spec_drop_duplicates (rs : list record) : list record :=
  match rs with
  | [] => []
  | r :: rs' =>
      r :: List.filter (λ r', bool_decide (order_id r' ≠ order_id r)) (spec_drop_duplicates rs')
  end.

Definition spec_cleaner (rs : list record) : list record :=
  spec_drop_duplicates
    (spec_drop_invalid
       (map spec_coerce_numeric (map spec_coerce_date (map spec_fill_status rs)))).

End Analyzer.

(** The result of [calculate_metrics]. *)
Record metrics : Type := Metrics {
  total_revenue : Qc;
  total_orders : Z;
  customer_count : Z;
  avg_order_value : float;
  repeat_customer_rate : Qc;
  cancellation_rate : Qc
}.

(** The result of [answer_business_questions]; the f-strings are kept as
    the numbers they render. *)
Record answers : Type := Answers {
  q1_total_revenue : Qc;
  q2_average_order_value : float;
  q3_customer_count : Z;
  q4_most_profitable_category : string;
  q5_top_10_customers : list (string * Qc);
  q6_repeat_customer_rate : Qc;
  q7_monthly_sales_trends : list (period * Qc);
  q8_cancellation_rate : Qc
}.

(** [ts.to_period('M')] *)
Definition to_period (c : date_cell) : option period :=
  match c with
  | Stamp d => Some (ts_year d, ts_month d)
  | _ => None
  end.

(** [col.dt.to_period('M')]; the [.dt] accessor needs a datetime column. *)
Definition dt_to_period (col : list date_cell) : result (list (option period)) :=
  if existsb is_dtext col then Raise AttributeError
  else Ok (map to_period col).

Definition period_leb (a b : period) : bool :=
  (a.1 <? b.1) || ((a.1 =? b.1) && (a.2 <=? b.2)).

(** [df.groupby('month')['order_amount'].sum()] over the rows paired with
    their month; rows without a month form no group. *)
Definition groupby_month_sum (P : pandas) (ms : list (option period)) (rs : list record)
  : result (list (period * Qc)) :=
  if existsb is_text (map order_amount rs) then Raise TypeError
  else
    let keyed := zip ms rs in
    let present := omap id ms in
    let keys := sort_by period_leb (select (first_mask present) present) in
    Ok (map (λ k, (k, sum_group P (map (λ p, to_float (order_amount p.2))
                                     (filter (λ p, p.1 = Some k) keyed))))
            keys).

Section Metrics.

Variable P : pandas.
Variable parse_float : string → option Qc.
Variable parse_datetime : string → option timestamp.

(** [if self.clean_df is None: self.clean_data()] *)
Definition ensure_clean : M unit :=
  let* s := get_self in
  match clean_df s with
  | None => clean_data parse_float parse_datetime ;;; ret tt
  | Some _ => ret tt
  end.

(** [self.clean_df[self.clean_df['status'] == v]] *)
Definition with_status (v : string) : M nat :=
  let* df := the_clean_df in
  let* st := column status df in
  getitem df (eq_str v st).

(** [_calculate_repeat_rate] *)
Definition _calculate_repeat_rate : M Qc :=
  let* df := the_clean_df in
  let* ids := column customer_id df in
  let order_counts := value_counts ids in
  let repeat_customers := len (filter (λ kc, 1 < kc.2) order_counts) in
  let total_customers := len order_counts in
  if decide (0 < total_customers) then
    let* r := lift (py_div repeat_customers total_customers) in
    ret (r * Qc_of 100)%Qc
  else ret 0%Qc.

(** [calculate_metrics]; the entries of the dict are evaluated in the order
    they are written. *)
Definition calculate_metrics : M metrics :=
  ensure_clean ;;;
  let* completed_orders := with_status "completed" in
  let* amounts := column order_amount completed_orders in
  let* xs := lift (floats amounts) in
  let revenue := sum_skipna P xs in
  let* fco := read completed_orders in
  let orders := len (rows fco) in
  let* df := the_clean_df in
  let* ids := column customer_id df in
  let customers := nunique ids in
  let avg := mean_skipna P xs in
  let* repeat := _calculate_repeat_rate in
  let* cancelled := with_status "cancelled" in
  let* fc := read cancelled in
  let* df' := the_clean_df in
  let* f := read df' in
  let* c := lift (py_div (len (rows fc)) (len (rows f))) in
  ret (Metrics revenue orders customers avg repeat (c * Qc_of 100)%Qc).

(** [get_top_categories] *)
Definition get_top_categories (n : Z) : M (list (string * Qc)) :=
  let* completed := with_status "completed" in
  let* f := read completed in
  let* category_revenue := lift (groupby_sum P product_category (rows f)) in
  ret (head n (sort_values_desc P category_revenue)).

(** [get_top_customers] *)
Definition get_top_customers (n : Z) : M (list (string * Qc)) :=
  let* completed := with_status "completed" in
  let* f := read completed in
  let* customer_spending := lift (groupby_sum P customer_id (rows f)) in
  ret (head n (sort_values_desc P customer_spending)).

(** [analyze_seasonal_trends]; the month column is set on [completed]. *)
Definition analyze_seasonal_trends : M (list (period * Qc)) :=
  let* completed := with_status "completed" in
  let* dates := column order_date completed in
  let* months := lift (dt_to_period dates) in
  modify completed (λ f, Frame (rows f) (Some months)) ;;;
  let* f := read completed in
  lift (groupby_month_sum P (default [] (month f)) (rows f)).

(** [s.index[0]] *)
Definition index0 {V} (s : list (string * V)) : result string :=
  match s with
  | [] => Raise IndexError
  | kv :: _ => Ok kv.1
  end.

(** [answer_business_questions] *)
Definition answer_business_questions : M answers :=
  let* m := calculate_metrics in
  let* top := get_top_categories 1 in
  let* best := lift (index0 top) in
  let* customers := get_top_customers 10 in
  let* trends := analyze_seasonal_trends in
  ret (Answers (total_revenue m) (avg_order_value m) (customer_count m) best
               customers (repeat_customer_rate m) trends (cancellation_rate m)).

End Metrics.

(** ** Frame conditions

    [preserves n w w']: the analyzer and the source are the same and the
    first [n] frames of the store are untouched; the store may have grown. *)
Definition preserves (n : nat) (w w' : world) : Prop :=
  self w' = self w ∧ source w' = source w ∧
  (length (heap w) ≤ length (heap w'))%nat ∧
  ∀ i, (i < n)%nat → heap w' !! i = heap w !! i.

(** A computation that, run in a store of at least [n] frames and with a
    clean table in place, preserves the first [n] frames and returns a
    value satisfying [Q]. *)
Definition framed {A} (n : nat) (m : M A) (Q : A → Prop) : Prop :=
  ∀ w, (n ≤ length (heap w))%nat → is_Some (clean_df (self w)) →
    preserves n w (m w).2 ∧
    match (m w).1 with
    | Ok a => Q a
    | Raise _ => True
    end.

(** The rows with a given status. *)
Definition rows_with_status (v : string) (rs : list record) : list record :=
  List.filter (λ r, bool_decide (status r = Some v)) rs.

(** ** The Metrics Engine as the specification words it (section 4.4) *)

(** [top_categories(n)], [top_customers(n)]: the sums per group over the
    completed records, descending, the first [n]; groups of equal revenue in
    the order their key is first met in the clean table: the groups are
    taken in that order and sorted by a sort that keeps equal values in the
    order it is given them. *)
Definition spec_top (P : pandas) (key : record → option string) (n : nat) (t : list record)
  : list (string * Qc) :=
  let completed := rows_with_status "completed" t in
  let keys := List.filter (λ k, bool_decide (Some k ∈ map key completed)) (unique (map key t)) in
  take n (sort_stable_desc Qc_leb (map (λ k, (k, group_sum P key k completed)) keys)).

(** What the code ranks: one entry per key of a completed record, with the
    sum of that group, no revenue before a larger one.  Where two groups
    have the same revenue either may come first. *)
Definition ranked (P : pandas) (key : record → option string) (t : list record)
    (L : list (string * Qc)) : Prop :=
  let completed := rows_with_status "completed" t in
  NoDup (map fst L) ∧
  (∀ k v, (k, v) ∈ L ↔ Some k ∈ map key completed ∧ v = group_sum P key k completed) ∧
  StronglySorted (λ a b, (b.2 ≤ a.2)%Qc) L.

(** The amount of a record in whole units, and the tables whose amounts
    are whole numbers. *)
Definition units (r : record) : Z :=
  match order_amount r with
  | Float (Fl q) => Qnum q
  | _ => 0
  end.

Definition whole_amounts (rs : list record) : Prop :=
  ∀ r, r ∈ rs → order_amount r = Float (whole (units r)).

(** The distinct customers of the clean table. *)
Definition spec_customers (t : list record) : gset string :=
  list_to_set (dropna (map customer_id t)).

(** The records of a customer, whatever their status. *)
Definition orders_of (c : string) (t : list record) : nat :=
  length (filter (λ r, customer_id r = Some c) t).

(** [repeat_customer_rate]: customers with more than one order over
    distinct customers, times 100; 0 if there is no customer. *)
Definition spec_repeat_rate (t : list record) : Qc :=
  let customers := spec_customers t in
  let repeaters := filter (λ c, (1 < orders_of c t)%nat) customers in
  if decide (size customers = 0%nat) then 0%Qc
  else (Qc_of (Z.of_nat (size repeaters)) / Qc_of (Z.of_nat (size customers)) * Qc_of 100)%Qc.

(** ** Two libraries

    Binary64 arithmetic: a rational is rounded to the nearest number
    m * 2^e with m below 2^53 and e at least -1074, ties to the even m.
    The exponent is not bounded above, as the model has no infinity. *)

(** The [l] with 2^l <= n/d < 2^(l+1), for positive [n] and [d]. *)
Definition floor_log2_ratio (n d : Z) : Z :=
  let l := Z.log2 n - Z.log2 d in
  if (if 0 <=? l then d * 2 ^ l <=? n else d <=? n * 2 ^ (- l)) then l else l - 1.

(** [num / den] rounded to the nearest integer, ties to the even one. *)
Definition round_half_even (num den : Z) : Z :=
  let q := num `div` den in
  let r := num `mod` den in
  if 2 * r <? den then q
  else if den <? 2 * r then q + 1
  else if Z.even q then q else q + 1.

Definition round64_pos (n d : Z) : Q :=
  let e := Z.max (floor_log2_ratio n d - 52) (-1074) in
  if 0 <=? e then inject_Z (round_half_even n (d * 2 ^ e) * 2 ^ e)
  else Qmake (round_half_even (n * 2 ^ (- e)) d) (Z.to_pos (2 ^ (- e))).

Definition round64 (q : Qc) : Qc :=
  let n := Qnum q in
  let d := Zpos (Qden q) in
  if n =? 0 then 0%Qc
  else if 0 <? n then Q2Qc (round64_pos n d)
  else (- Q2Qc (round64_pos (- n) d))%Qc.

(** The binary64 sum of the values that are not NaN, added to [acc] one
    after the other from the left. *)
Fixpoint sum64 (acc : Qc) (xs : list float) : Qc :=
  match xs with
  | [] => acc
  | NaN :: xs' => sum64 acc xs'
  | Fl q :: xs' => sum64 (round64 (acc + q)) xs'
  end.

Definition mean64 (xs : list float) : Qc :=
  round64 (sum64 0 xs / Qc_of (count_valid xs)).

(** A library that adds from left to right in binary64 and sorts stably,
    and one that differs from it in the order of equal values only. *)
Definition binary64 : pandas :=
  Pandas (sum64 0) (sum64 0) mean64 (sort_stable_desc Qc_leb).

Definition binary64_reversed : pandas :=
  Pandas (sum64 0) (sum64 0) mean64 (sort_reversing_desc Qc_leb).

(** * [algorithms.py]

    The lists hold Python ints. *)

(** [arr[i]] on a Python list: a negative index counts from the end. *)
Definition py_index (arr : list Z) (i : Z) : result Z :=
  if decide (0 ≤ i < len arr) then
    match arr !! Z.to_nat i with Some v => Ok v | None => Raise IndexError end
  else if decide (- len arr ≤ i < 0) then
    match arr !! Z.to_nat (len arr + i) with Some v => Ok v | None => Raise IndexError end
  else Raise IndexError.

(** [arr[len(arr) // 2]]; the index is in range once the list has two
    elements. *)
Definition pivot_of (arr : list Z) : Z := nth (length arr / 2) arr 0.

(** [quicksort] *)
Equations? quicksort (arr : list Z) : list Z by wf (length arr) lt :=
quicksort arr with decide (length arr ≤ 1)%nat := {
  | left _ => arr
  | right _ =>
      quicksort (List.filter (λ x, x <? pivot_of arr) arr)
      ++ List.filter (λ x, x =? pivot_of arr) arr
      ++ quicksort (List.filter (λ x, pivot_of arr <? x) arr) }.
Proof.
  all: assert (In (pivot_of arr) arr) as Hin
    by (unfold pivot_of; apply nth_In, Nat.div_lt; lia).
  all: revert Hin; generalize (pivot_of arr); intros p Hin;
    clear n quicksort; induction arr as [| y l IH]; simpl in *; [tauto |].
  - destruct Hin as [-> | Hin].
    + rewrite Z.ltb_irrefl. pose proof (List.filter_length_le (λ x, x <? p) l). lia.
    + destruct (y <? p); simpl; [apply IH in Hin; lia |].
      pose proof (List.filter_length_le (λ x, x <? p) l). lia.
  - destruct Hin as [-> | Hin].
    + rewrite Z.ltb_irrefl. pose proof (List.filter_length_le (λ x, p <? x) l). lia.
    + destruct (p <? y); simpl; [apply IH in Hin; lia |].
      pose proof (List.filter_length_le (λ x, p <? x) l). lia.
Qed.

(** The loop of [binary_search], from the bounds [left] and [right]. *)
Equations? binary_search_loop (arr : list Z) (target left_ right_ : Z) : result Z
  by wf (Z.to_nat (right_ - left_ + 1)) lt :=
binary_search_loop arr target left_ right_ with decide (left_ ≤ right_) := {
  | right _ => Ok (-1)
  | left _ with py_index arr ((left_ + right_) `div` 2) := {
      | Raise e => Raise e
      | Ok v =>
          if decide (v = target) then Ok ((left_ + right_) `div` 2)
          else if decide (v < target)
               then binary_search_loop arr target ((left_ + right_) `div` 2 + 1) right_
               else binary_search_loop arr target left_ ((left_ + right_) `div` 2 - 1) } }.
Proof.
  - assert (left_ ≤ (left_ + right_) `div` 2) by (apply Z.div_le_lower_bound; lia). lia.
  - assert ((left_ + right_) `div` 2 ≤ right_) by (apply Z.div_le_upper_bound; lia). lia.
Qed.

(** [binary_search] *)
Definition binary_search (arr : list Z) (target : Z) : result Z :=
  binary_search_loop arr target 0 (len arr - 1).

(** The loop of [linear_search] from index [i] on. *)
Fixpoint linear_search_from (i : Z) (arr : list Z) (target : Z) : Z :=
  match arr with
  | [] => -1
  | x :: arr' => if decide (x = target) then i else linear_search_from (i + 1) arr' target
  end.

(** [linear_search] *)
Definition linear_search (arr : list Z) (target : Z) : Z := linear_search_from 0 arr target.

(** * [models.py]

    The entity classes and their factory.  A method that changes its object
    returns the object after the call together with its outcome, since a
    Python method that raises has still done what came before. *)

Module Models.

(** What a caller hands over where the source expects text: text, or a
    float (a missing cell of a row is the float NaN). *)
Inductive pyval : Type :=
  | PStr (s : string)
  | PFloat (x : float).

(** A constructor or method returns, or raises ValueError. *)
Inductive outcome (A : Type) : Type :=
  | Built (a : A)
  | ValueError (msg : string).
Arguments Built {A} a.
Arguments ValueError {A} msg.

(** [bool(v)] *)
Definition truthy (v : pyval) : bool :=
  match v with
  | PStr s => negb (String.eqb s EmptyString)
  | PFloat NaN => true
  | PFloat (Fl q) => negb (Qc_leb q 0 && Qc_leb 0 q)
  end.

(** [isinstance(v, str)] *)
Definition is_str (v : pyval) : option string :=
  match v with
  | PStr s => Some s
  | PFloat _ => None
  end.

(** [needle in s] on strings. *)
Fixpoint contains (needle s : string) : bool :=
  String.prefix needle s ||
  match s with
  | EmptyString => false
  | String _ s' => contains needle s'
  end.

(** [x < 0] on a float: false on NaN. *)
Definition float_lt0 (x : float) : bool :=
  match x with
  | NaN => false
  | Fl q => Qc_ltb q 0%Qc
  end.

(** [x + y] on floats. *)
Definition float_add (x y : float) : float :=
  match x, y with
  | Fl a, Fl b => Fl (a + b)
  | _, _ => NaN
  end.

(** [class Entity]: the part every entity inherits. *)
Record Entity : Type := MkEntity { id : string; name : string }.

Definition _validate_id (entity_id : pyval) : outcome string :=
  match is_str entity_id with
  | Some s => if truthy entity_id then Built s else ValueError "ID must be a non-empty string"
  | None => ValueError "ID must be a non-empty string"
  end.

Definition _validate_name (name : pyval) : outcome string :=
  match is_str name with
  | Some s => if truthy name then Built s else ValueError "Name must be a non-empty string"
  | None => ValueError "Name must be a non-empty string"
  end.

(** [Entity.__init__]: the id is checked before the name. *)
Definition new_Entity (entity_id name : pyval) : outcome Entity :=
  match _validate_id entity_id with
  | ValueError m => ValueError m
  | Built i =>
      match _validate_name name with
      | ValueError m => ValueError m
      | Built n => Built (MkEntity i n)
      end
  end.

(** [class Product(Entity)] *)
Record Product : Type := MkProduct {
  product_entity : Entity;
  category : pyval;
  base_price : float
}.

(** [Product.__init__] *)
Definition new_Product (product_id name category : pyval) (base_price : float)
  : outcome Product :=
  match new_Entity product_id name with
  | ValueError m => ValueError m
  | Built e =>
      if float_lt0 base_price then ValueError "Price cannot be negative"
      else Built (MkProduct e category base_price)
  end.

Definition VALID_STATUSES : list string := ["pending"; "completed"; "cancelled"].

Section Orders.

(** The reference an order keeps to its customer object. *)
Variable customer_ref : Type.

(** [class Order] *)
Record Order : Type := MkOrder {
  order_id : string;
  date : string;
  customer : customer_ref;
  items : list string;
  amount : float;
  status : string
}.

(** [Order.__init__]: only the status is checked. *)
Definition new_Order (order_id date : string) (customer : customer_ref)
    (items : list string) (amount : float) (status : string) : outcome Order :=
  if bool_decide (status ∈ VALID_STATUSES)
  then Built (MkOrder order_id date customer items amount status)
  else ValueError "Status must be one of: ['pending', 'completed', 'cancelled']".

(** [class Customer(Entity)] *)
Record Customer : Type := MkCustomer {
  customer_entity : Entity;
  email : string;
  lifetime_value : float;
  orders : list Order
}.

(** [Customer.__init__] *)
Definition new_Customer (customer_id name : pyval) (email : string) (lifetime_value : float)
  : outcome Customer :=
  match new_Entity customer_id name with
  | ValueError m => ValueError m
  | Built e =>
      if contains "@" email then Built (MkCustomer e email lifetime_value [])
      else ValueError "Invalid email format"
  end.

(** [update_lifetime_value]: the customer after the call, and whether it
    raised. *)
Definition update_lifetime_value (c : Customer) (amount : float) : outcome unit * Customer :=
  if float_lt0 amount then (ValueError "Amount cannot be negative", c)
  else (Built tt,
        MkCustomer (customer_entity c) (email c) (float_add (lifetime_value c) amount)
                   (orders c)).

(** [add_order]: the order is appended before the lifetime value is
    updated. *)
Definition add_order (c : Customer) (order : Order) : outcome unit * Customer :=
  let c' := MkCustomer (customer_entity c) (email c) (lifetime_value c) (orders c ++ [order]) in
  if String.eqb (status order) "completed" then update_lifetime_value c' (amount order)
  else (Built tt, c').



End Orders.

Section Factory.

(** [str(x)] and [float(s)] on a float and on text; [None] where [float]
    raises ValueError. *)
Variable str_float : float → string.
Variable float_of_string : string → option float.
Variable customer_ref : Type.

(** [row.get(key, default)] *)
Definition get (row : gmap string pyval) (key : string) (default : pyval) : pyval :=
  match row !! key with
  | Some v => v
  | None => default
  end.

(** [str(v)], as an f-string renders it. *)
Definition str (v : pyval) : string :=
  match v with
  | PStr s => s
  | PFloat x => str_float x
  end.

(** [float(v)]; Python's message goes on to quote the text. *)
Definition to_float_value (v : pyval) : outcome float :=
  match v with
  | PFloat x => Built x
  | PStr s =>
      match float_of_string s with
      | Some x => Built x
      | None => ValueError "could not convert string to float"
      end
  end.

(** [EntityFactory.create_product_from_row]; the arguments are evaluated
    before [Product] is called. *)
Definition create_product_from_row (row : gmap string pyval) : outcome Product :=
  match to_float_value (get row "unit_price" (PFloat (Fl 0%Qc))) with
  | ValueError m => ValueError m
  | Built price =>
      new_Product (get row "product_name" (PStr EmptyString)) (get row "product_name" (PStr "Unknown"))
                  (get row "product_category" (PStr "Uncategorized")) price
  end.

(** [EntityFactory.create_customer_from_row] *)
Definition create_customer_from_row (row : gmap string pyval) : outcome (Customer customer_ref) :=
  new_Customer customer_ref
    (get row "customer_id" (PStr EmptyString))
    (PStr ("Customer_" ++ str (get row "customer_id" (PStr "Unknown"))))
    ("customer_" ++ str (get row "customer_id" (PStr "unknown")) ++ "@example.com")
    (Fl 0%Qc).

End Factory.

(** A row, a customer and two orders to try the classes on. *)
Definition sample_row : gmap string pyval :=
  {[ "customer_id" := PStr "CUST7"; "product_name" := PStr "Lamp";
     "unit_price" := PFloat (Fl (Qc_of 10)) ]}.

Definition sample_customer : Customer unit :=
  MkCustomer unit (MkEntity "CUST7" "Customer_CUST7") "customer_CUST7@example.com"
             (Fl (Qc_of 0)) [].


End Models.

(** ** Sample data

    Rows as [pd.read_csv] delivers them: the numeric columns already hold
    floats, the dates are still text. *)

Definition sample_parse_float (s : string) : option Qc :=
  if decide (s = "12.5") then Some (Qc_of 25 / Qc_of 2)%Qc else None.

Definition sample_parse_datetime (s : string) : option timestamp :=
  if decide (s = "2023-01-15") then Some (Timestamp 2023 1 15)
  else if decide (s = "2023-02-03") then Some (Timestamp 2023 2 3)
  else None.

Definition order (oid cid date cat : string) (amount : Z) (st : option string) : record :=
  Row (Some oid) (Some cid) (DText date) (Some cat) (Some "Lamp")
      (Float (Fl (Qc_of 1))) (Text "12.5") (Float (Fl (Qc_of amount))) st.

(** Five rows: two share an [order_id], one has the amount -5. *)
Definition sample_rows : list record :=
  [ order "ORD1" "CUST1" "2023-01-15" "Books" 100 (Some "completed");
    order "ORD2" "CUST2" "2023-01-15" "Sports" (-5) (Some "completed");
    order "ORD1" "CUST1" "2023-02-03" "Books" 300 (Some "cancelled");
    order "ORD3" "CUST1" "not a date" "Sports" 200 None;
    order "ORD4" "CUST1" "2023-02-03" "Sports" 300 (Some "completed") ].

(** An analyzer that has loaded [sample_rows]. *)
Definition sample_world : world :=
  World [Frame sample_rows None] (Analyzer (Some 0%nat) None) (Ok sample_rows).

(** The world [main] is in after [load_data] and [clean_data] on a file
    with the given rows. *)
Definition cleaned_world (rs : list record) : world :=
  (clean_data sample_parse_float sample_parse_datetime
     (World [] (Analyzer None None) (Ok rs))).2.

(** A file with a header and no row. *)
Definition empty_world : world := cleaned_world [].


(** A completed order whose category cell is empty in the file. *)
Definition uncategorised_rows : list record :=
  [ Row (Some "ORD1") (Some "CUST1") (DText "2023-01-15") None (Some "Lamp")
        (Float (Fl (Qc_of 1))) (Text "12.5") (Float (Fl (Qc_of 100))) (Some "completed") ].

(** Two categories with the same revenue; "Sports" is met first. *)
Definition tie_rows : list record :=
  [ order "ORD1" "CUST2" "2023-01-15" "Sports" 100 (Some "completed");
    order "ORD2" "CUST1" "2023-02-03" "Books" 100 (Some "completed") ].

(** Three completed orders of 0.1, 0.2 and 0.3, each in a category of its
    own; the amounts are the binary64 numbers nearest to the decimals. *)
Definition tenths (n : Z) : num_cell := Float (Fl (round64 (Qc_of n / Qc_of 10))).

Definition tenth_rows : list record :=
  [ Row (Some "ORD1") (Some "CUST1") (DText "2023-01-15") (Some "Books") (Some "Lamp")
        (Float (Fl (Qc_of 1))) (Text "12.5") (tenths 1) (Some "completed");
    Row (Some "ORD2") (Some "CUST1") (DText "2023-01-15") (Some "Garden") (Some "Lamp")
        (Float (Fl (Qc_of 1))) (Text "12.5") (tenths 2) (Some "completed");
    Row (Some "ORD3") (Some "CUST2") (DText "2023-02-03") (Some "Sports") (Some "Lamp")
        (Float (Fl (Qc_of 1))) (Text "12.5") (tenths 3) (Some "completed") ].

(** A file whose quantity column holds text: the column stays text. *)
Definition text_quantity_rows : list record :=
  [ Row (Some "ORD1") (Some "CUST1") (DText "2023-01-15") (Some "Books") (Some "Lamp")
        (Text "two") (Text "12.5") (Float (Fl (Qc_of 25))) (Some "completed") ].

(** A new [SalesAnalyzer]: nothing loaded, nothing cleaned. *)
Definition fresh_world (rs : list record) : world :=
  World [] (Analyzer None None) (Ok rs).

(** * Properties *)

(** ** Numbers *)

Lemma Qc_ltb_lt (x y : Qc) : Qc_ltb x y = true ↔ (x < y)%Qc.
Proof.
  unfold Qc_ltb, Qclt. rewrite negb_true_iff.
  destruct (Qle_bool y x) eqn:E.
  - apply Qle_bool_iff in E. split; [discriminate | intros H; exfalso].
    exact (Qle_not_lt _ _ E H).
  - split; [intros _ | reflexivity].
    destruct (Qlt_le_dec x y) as [H | H]; [exact H |].
    apply Qle_bool_iff in H. congruence.
Qed.

Lemma Qc_leb_le (x y : Qc) : Qc_leb x y = true ↔ (x ≤ y)%Qc.
Proof. unfold Qc_leb, Qcle. apply Qle_bool_iff. Qed.

Lemma Qc_leb_total (x y : Qc) : Qc_leb x y = true ∨ Qc_leb y x = true.
Proof.
  rewrite !Qc_leb_le. destruct (Qclt_le_dec x y) as [H | H]; [left | right]; [| exact H].
  apply Qclt_le_weak, H.
Qed.

Lemma Qc_leb_trans (x y z : Qc) :
  Qc_leb x y = true → Qc_leb y z = true → Qc_leb x z = true.
Proof. rewrite !Qc_leb_le. apply Qcle_trans. Qed.

(** ** Masks *)

Lemma select_map {A} (p : A → bool) (l : list A) :
  select (map p l) l = List.filter p l.
Proof. induction l as [| x l IH]; simpl; [reflexivity |]. rewrite IH. reflexivity. Qed.

Lemma select_map_col {A B} (col : A → B) (p : B → bool) (l : list A) :
  select (map p (map col l)) l = List.filter (λ x, p (col x)) l.
Proof. rewrite map_map. apply select_map. Qed.

Lemma elem_of_list_filter {A} (p : A → bool) (l : list A) x :
  x ∈ List.filter p l ↔ x ∈ l ∧ p x = true.
Proof. rewrite !list_elem_of_In. apply filter_In. Qed.

Lemma list_filter_all {A} (p : A → bool) (l : list A) :
  (∀ x, x ∈ l → p x = true) → List.filter p l = l.
Proof.
  induction l as [| x l IH]; intros H; simpl; [reflexivity |].
  rewrite (H x) by left. f_equal. apply IH. intros y Hy. apply H. by right.
Qed.

Lemma existsb_false_iff {A} (p : A → bool) (l : list A) :
  existsb p l = false ↔ ∀ x, x ∈ l → p x = false.
Proof.
  induction l as [| x l IH]; simpl.
  - split; [intros _ y Hy; inversion Hy | reflexivity].
  - rewrite orb_false_iff, IH. split.
    + intros [Hx Hl] y Hy. apply elem_of_cons in Hy as [-> | Hy]; auto.
    + intros H. split; [apply H; left | intros y Hy; apply H; by right].
Qed.

(** ** Duplicates *)

Section Duplicates.
Context {A K : Type} `{EqDecision K} (key : A → K).

Lemma keep_nil seen : keep key seen [] = [].
Proof. reflexivity. Qed.

Lemma keep_cons seen x l :
  keep key seen (x :: l) =
  if decide (key x ∈ seen) then keep key seen l else x :: keep key (key x :: seen) l.
Proof. unfold keep. simpl. destruct (decide (key x ∈ seen)); reflexivity. Qed.

Lemma keep_ext s1 s2 l : (∀ k, k ∈ s1 ↔ k ∈ s2) → keep key s1 l = keep key s2 l.
Proof.
  revert s1 s2. induction l as [| x l IH]; intros s1 s2 Hs; [reflexivity |].
  rewrite !keep_cons.
  destruct (decide (key x ∈ s1)) as [H1 | H1], (decide (key x ∈ s2)) as [H2 | H2].
  - apply IH, Hs.
  - apply Hs in H1. contradiction.
  - apply Hs in H2. contradiction.
  - f_equal. apply IH. intros k. rewrite !elem_of_cons, Hs. reflexivity.
Qed.

Lemma keep_elem seen l x : x ∈ keep key seen l → x ∈ l ∧ key x ∉ seen.
Proof.
  revert seen. induction l as [| y l IH]; intros seen; [intros H; inversion H |].
  rewrite keep_cons. destruct (decide (key y ∈ seen)) as [Hy | Hy].
  - intros H. apply IH in H as [H1 H2]. split; [by right | exact H2].
  - intros H. apply elem_of_cons in H as [-> | H].
    + split; [left | exact Hy].
    + apply IH in H as [H1 H2]. split; [by right |].
      intros Hin. apply H2. by right.
Qed.

Lemma keep_NoDup seen l : NoDup (map key (keep key seen l)).
Proof.
  revert seen. induction l as [| y l IH]; intros seen; [constructor |].
  rewrite keep_cons. destruct (decide (key y ∈ seen)); [apply IH |].
  simpl. constructor; [| apply IH].
  intros Hin. apply list_elem_of_fmap in Hin as (z & Hz & Hin).
  apply keep_elem in Hin as [_ Hin]. apply Hin. rewrite Hz. left.
Qed.

Lemma keep_covers seen l x :
  x ∈ l → key x ∉ seen → key x ∈ map key (keep key seen l).
Proof.
  revert seen. induction l as [| y l IH]; intros seen Hx Hs; [inversion Hx |].
  rewrite keep_cons. destruct (decide (key y ∈ seen)) as [Hy | Hy].
  - apply elem_of_cons in Hx as [-> | Hx]; [contradiction | by apply IH].
  - simpl. destruct (decide (key x = key y)) as [E | E]; [rewrite E; left |].
    apply elem_of_cons in Hx as [-> | Hx]; [contradiction |].
    right. apply IH; [exact Hx |]. intros Hin.
    apply elem_of_cons in Hin as [? | ?]; contradiction.
Qed.

(** A table without duplicates is kept whole. *)
Lemma keep_id seen l :
  NoDup (map key l) → (∀ x, x ∈ l → key x ∉ seen) → keep key seen l = l.
Proof.
  revert seen. induction l as [| y l IH]; intros seen Hnd Hs; [reflexivity |].
  rewrite keep_cons. simpl in Hnd. apply NoDup_cons in Hnd as [Hy Hnd].
  destruct (decide (key y ∈ seen)) as [H | H]; [exfalso; eapply Hs; [left | exact H] |].
  f_equal. apply IH; [exact Hnd |].
  intros x Hx Hin. apply elem_of_cons in Hin as [E | Hin].
  - apply Hy. rewrite <- E. apply list_elem_of_fmap. eauto.
  - eapply Hs; [right; exact Hx | exact Hin].
Qed.

(** Meeting one more key beforehand removes exactly the rows with it. *)
Lemma keep_seen_cons k seen l :
  keep key (k :: seen) l = List.filter (λ x, bool_decide (key x ≠ k)) (keep key seen l).
Proof.
  revert seen. induction l as [| y l IH]; intros seen; [reflexivity |].
  rewrite !keep_cons.
  destruct (decide (key y ∈ k :: seen)) as [H1 | H1], (decide (key y ∈ seen)) as [H2 | H2].
  - apply IH.
  - apply elem_of_cons in H1 as [E | ?]; [| contradiction].
    simpl. rewrite bool_decide_eq_false_2 by (intros H; apply H, E).
    rewrite <- IH. rewrite E. apply keep_ext. intros z. rewrite !elem_of_cons. tauto.
  - exfalso. apply H1. by right.
  - simpl. rewrite bool_decide_eq_true_2.
    + f_equal. rewrite <- IH. apply keep_ext. intros z. rewrite !elem_of_cons. tauto.
    + intros E. apply H1. rewrite E. left.
Qed.

End Duplicates.

Lemma first_mask_keep {A K} `{EqDecision K} (key : A → K) (l : list A) :
  select (first_mask (map key l)) l = keep key [] l.
Proof. reflexivity. Qed.

Lemma unique_keep (col : list (option string)) :
  unique col = keep id [] (dropna col).
Proof. unfold unique, keep, first_mask. rewrite map_id. reflexivity. Qed.

Lemma elem_of_dropna (col : list (option string)) k :
  k ∈ dropna col ↔ Some k ∈ col.
Proof.
  unfold dropna. rewrite list_elem_of_omap. split.
  - intros (x & Hx & E). simpl in E. by subst.
  - intros H. exists (Some k). split; [exact H | reflexivity].
Qed.

Lemma unique_NoDup col : NoDup (unique col).
Proof.
  rewrite unique_keep. rewrite <- (map_id (keep id [] (dropna col))). apply keep_NoDup.
Qed.

Lemma elem_of_unique col k : k ∈ unique col ↔ Some k ∈ col.
Proof.
  rewrite unique_keep, <- elem_of_dropna. split.
  - intros H. apply keep_elem in H as [H _]. exact H.
  - intros H. pose proof (keep_covers id [] _ _ H) as Hc.
    rewrite map_id in Hc. apply Hc. apply not_elem_of_nil.
Qed.

(** ** The store *)

Lemma lookup_fresh (h : list frame) f ext : (h ++ f :: ext) !! length h = Some f.
Proof. by apply list_lookup_middle. Qed.

Lemma lookup_old (h ext : list frame) l f : h !! l = Some f → (h ++ ext) !! l = Some f.
Proof. intros H. rewrite lookup_app_l; [exact H | eapply lookup_lt_Some, H]. Qed.

Lemma insert_fresh (h : list frame) f g ext :
  <[length h := g]> (h ++ f :: ext) = h ++ g :: ext.
Proof.
  rewrite insert_app_r_alt by lia. rewrite Nat.sub_diag. reflexivity.
Qed.

Lemma bind_ok {A B} (m : M A) (k : A → M B) w a w' :
  m w = (Ok a, w') → bind m k w = k a w'.
Proof. unfold bind. intros ->. reflexivity. Qed.

Lemma bind_raise {A B} (m : M A) (k : A → M B) w e w' :
  m w = (Raise e, w') → bind m k w = (Raise e, w').
Proof. unfold bind. intros ->. reflexivity. Qed.

Lemma read_ok l w f : heap w !! l = Some f → read l w = (Ok f, w).
Proof. unfold read. intros ->. reflexivity. Qed.

Lemma column_ok {A} (col : record → A) l w f :
  heap w !! l = Some f → column col l w = (Ok (map col (rows f)), w).
Proof. intros H. unfold column. erewrite bind_ok by (apply read_ok, H). reflexivity. Qed.

Lemma getitem_ok l mask w f :
  heap w !! l = Some f →
  getitem l mask w =
  (Ok (length (heap w)),
   World (heap w ++ [Frame (select mask (rows f)) (select mask <$> month f)])
         (self w) (source w)).
Proof. intros H. unfold getitem. erewrite bind_ok by (apply read_ok, H). reflexivity. Qed.

Lemma modify_ok l g w f :
  heap w !! l = Some f →
  modify l g w = (Ok tt, World (<[l := g f]> (heap w)) (self w) (source w)).
Proof. unfold modify. intros ->. reflexivity. Qed.

Lemma the_clean_df_ok w l : clean_df (self w) = Some l → the_clean_df w = (Ok l, w).
Proof. unfold the_clean_df, bind, get_self. intros ->. reflexivity. Qed.

Lemma the_clean_df_none w :
  clean_df (self w) = None → the_clean_df w = (Raise TypeError, w).
Proof. unfold the_clean_df, bind, get_self. intros ->. reflexivity. Qed.

(** ** The cleaner *)

Section Cleaner.

Variable parse_float : string → option Qc.
Variable parse_datetime : string → option timestamp.

Local Abbreviation to_numeric := (to_numeric parse_float).
Local Abbreviation clean_data := (clean_data parse_float parse_datetime).
Local Abbreviation coerce := (coerce parse_float parse_datetime).
Local Abbreviation stage_coerced := (stage_coerced parse_float parse_datetime).
Local Abbreviation stage_amount := (stage_amount parse_float parse_datetime).
Local Abbreviation stage_quantity := (stage_quantity parse_float parse_datetime).
Local Abbreviation stage_unique := (stage_unique parse_float parse_datetime).

Lemma to_numeric_float c : is_text (to_numeric c) = false.
Proof. destruct c as [x | s]; simpl; [reflexivity |]. destruct (parse_float s); reflexivity. Qed.

Lemma gt_zero_amounts (rs : list record) :
  gt_zero (map order_amount (map coerce rs)) =
  Ok (map (λ c, float_gt0 (to_float c)) (map order_amount (map coerce rs))).
Proof.
  unfold gt_zero.
  replace (existsb is_text (map order_amount (map coerce rs))) with false; [reflexivity |].
  symmetry. apply existsb_false_iff. intros c Hc.
  apply list_elem_of_fmap in Hc as (r & -> & Hr).
  apply list_elem_of_fmap in Hr as (r0 & -> & _). apply to_numeric_float.
Qed.

Lemma coerce_maps (rs : list record) :
  map (λ r, set_unit_price (to_numeric (unit_price r)) r)
    (map (λ r, set_order_amount (to_numeric (order_amount r)) r)
       (map (λ r, set_order_date (to_datetime parse_datetime (order_date r)) r)
          (map (λ r, set_status (fillna "pending" (status r)) r) rs))) =
  map coerce rs.
Proof. rewrite !map_map. apply map_ext. reflexivity. Qed.

Lemma clean_data_run w l f :
  raw_df (self w) = Some l → heap w !! l = Some f →
  clean_data w =
  match gt_zero (map quantity (rows (stage_amount f))) with
  | Raise e =>
      (Raise e, World (heap w ++ [stage_coerced f; stage_amount f]) (self w) (source w))
  | Ok m =>
      (Ok (length (heap w) + 3)%nat,
       World (heap w ++ [stage_coerced f; stage_amount f; stage_quantity m f; stage_unique m f])
             (Analyzer (raw_df (self w)) (Some (length (heap w) + 3)%nat)) (source w))
  end.
Proof.
  intros Hraw Hf. unfold clean_data.
  unfold bind at 1. unfold get_self. rewrite Hraw.
  unfold bind at 1. unfold ret at 1.
  erewrite bind_ok by (unfold copy; erewrite bind_ok by (apply read_ok, Hf); reflexivity).
  unfold map_rows.
  do 4 (erewrite bind_ok by (apply modify_ok; simpl; apply lookup_fresh);
        cbn [heap self source]; rewrite insert_fresh; cbn [rows month]).
  rewrite coerce_maps.
  erewrite bind_ok by (apply column_ok; simpl; apply lookup_fresh).
  cbn [rows]. rewrite gt_zero_amounts.
  erewrite bind_ok by reflexivity.
  erewrite bind_ok by (apply getitem_ok; simpl; apply lookup_fresh).
  cbn [heap self source rows month].
  erewrite bind_ok by (apply column_ok; simpl; apply lookup_fresh).
  fold (stage_coerced f).
  change (Frame (select _ (map coerce (rows f))) _) with (stage_amount f).
  destruct (gt_zero (map quantity (rows (stage_amount f)))) as [m | e].
  - erewrite bind_ok by reflexivity.
    erewrite bind_ok by (apply getitem_ok; simpl; apply lookup_fresh).
    cbn [heap self source].
    erewrite bind_ok by (apply column_ok; simpl; apply lookup_fresh).
    erewrite bind_ok by (apply getitem_ok; simpl; apply lookup_fresh).
    cbn [heap self source]. unfold set_clean_df, ret, bind. cbn [heap self source].
    rewrite !length_app. cbn [length]. rewrite <- !app_assoc. cbn [app].
    rewrite Hraw.
    replace (length (heap w) + 1 + 1 + 1)%nat with (length (heap w) + 3)%nat by lia.
    reflexivity.
  - erewrite bind_raise by reflexivity. rewrite <- app_assoc. reflexivity.
Qed.

Lemma clean_data_load w rs :
  raw_df (self w) = None → source w = Ok rs →
  clean_data w =
  clean_data (World (heap w ++ [Frame rs None])
                    (Analyzer (Some (length (heap w))) (clean_df (self w))) (source w)).
Proof.
  intros Hraw Hsrc. unfold clean_data.
  erewrite bind_ok by reflexivity. cbv beta. rewrite Hraw.
  erewrite bind_ok by (unfold load_data; rewrite Hsrc; reflexivity).
  symmetry. erewrite bind_ok by reflexivity. cbv beta. cbn [self raw_df].
  erewrite bind_ok by reflexivity. reflexivity.
Qed.

(** [clean_data] in full: where it starts from, what it allocates, what it
    returns. *)
Lemma clean_data_spec w f :
  raw_frame w = Some f →
  ∃ h, (h = heap w ∨ h = heap w ++ [f]) ∧
       ∃ raw, clean_data w =
       match gt_zero (map quantity (rows (stage_amount f))) with
       | Raise e =>
           (Raise e, World (h ++ [stage_coerced f; stage_amount f])
                           (Analyzer (Some raw) (clean_df (self w))) (source w))
       | Ok m =>
           (Ok (length h + 3)%nat,
            World (h ++ [stage_coerced f; stage_amount f; stage_quantity m f; stage_unique m f])
                  (Analyzer (Some raw) (Some (length h + 3)%nat)) (source w))
       end.
Proof.
  unfold raw_frame. intros H.
  destruct (raw_df (self w)) as [l |] eqn:Hraw.
  - exists (heap w). split; [by left |]. exists l.
    rewrite (clean_data_run w l f Hraw H).
    destruct (gt_zero _); rewrite ?Hraw; [reflexivity |].
    destruct w as [h [r c] src]. simpl in *. by subst.
  - destruct (source w) as [rs | e] eqn:Hsrc; [| discriminate].
    injection H as <-. exists (heap w ++ [Frame rs None]). split; [by right |].
    exists (length (heap w)).
    rewrite (clean_data_load w rs Hraw Hsrc).
    erewrite clean_data_run; [| reflexivity | simpl; apply lookup_fresh].
    cbn [heap self source raw_df clean_df]. rewrite ?Hsrc. reflexivity.
Qed.

Lemma clean_data_none w :
  raw_frame w = None → ∃ e, clean_data w = (Raise e, w).
Proof.
  unfold raw_frame. intros H. unfold clean_data.
  unfold bind at 1. unfold get_self.
  destruct (raw_df (self w)) as [l |] eqn:Hraw.
  - exists Fault. unfold bind at 1. unfold ret at 1.
    apply bind_raise. unfold copy. apply bind_raise. unfold read. by rewrite H.
  - destruct (source w) as [rs | e] eqn:Hsrc; [discriminate |].
    exists e. apply bind_raise. unfold load_data. by rewrite Hsrc.
Qed.

Lemma gt_zero_ok col m :
  gt_zero col = Ok m →
  m = map (λ c, float_gt0 (to_float c)) col ∧ ∀ c, c ∈ col → is_text c = false.
Proof.
  unfold gt_zero. destruct (existsb is_text col) eqn:E; [discriminate |].
  intros [= <-]. split; [reflexivity |]. by apply existsb_false_iff.
Qed.

Lemma gt_zero_no_text col :
  (∀ c, c ∈ col → is_text c = false) →
  gt_zero col = Ok (map (λ c, float_gt0 (to_float c)) col).
Proof.
  intros H. unfold gt_zero. apply existsb_false_iff in H. by rewrite H.
Qed.

Lemma gt_zero_raise col e : gt_zero col = Raise e → e = TypeError.
Proof. unfold gt_zero. destruct (existsb is_text col); congruence. Qed.

Lemma rows_stage_amount f :
  rows (stage_amount f) =
  List.filter (λ r, float_gt0 (to_float (order_amount r))) (map coerce (rows f)).
Proof.
  unfold stage_amount, filter_frame. simpl.
  apply (select_map_col order_amount (λ c, float_gt0 (to_float c))).
Qed.

Lemma rows_stage_quantity f m :
  gt_zero (map quantity (rows (stage_amount f))) = Ok m →
  rows (stage_quantity m f) =
  List.filter (λ r, float_gt0 (to_float (quantity r))) (rows (stage_amount f)).
Proof.
  intros H. apply gt_zero_ok in H as [-> _].
  unfold stage_quantity, filter_frame. cbn [rows].
  apply (select_map_col quantity (λ c, float_gt0 (to_float c))).
Qed.

Lemma rows_stage_unique f m :
  gt_zero (map quantity (rows (stage_amount f))) = Ok m →
  rows (stage_unique m f) = cleaned_rows parse_float parse_datetime (rows f).
Proof.
  intros H. unfold stage_unique, filter_frame. cbn [rows].
  rewrite first_mask_keep, (rows_stage_quantity f m H), rows_stage_amount. reflexivity.
Qed.

(** What [clean_data] hands back when it returns. *)
Lemma clean_data_returns w l' w' :
  clean_data w = (Ok l', w') →
  ∃ f f', raw_frame w = Some f ∧ heap w' !! l' = Some f' ∧
          clean_df (self w') = Some l' ∧
          rows f' = cleaned_rows parse_float parse_datetime (rows f).
Proof.
  intros H. destruct (raw_frame w) as [f |] eqn:Hf.
  - destruct (clean_data_spec w f Hf) as (h & _ & raw & Hrun).
    rewrite Hrun in H.
    destruct (gt_zero (map quantity (rows (stage_amount f)))) as [m | e] eqn:Hm; [| discriminate].
    injection H as <- <-. exists f, (stage_unique m f).
    split; [reflexivity |]. split; [| split; [reflexivity | by apply rows_stage_unique]].
    cbn [heap].
    change (h ++ [stage_coerced f; stage_amount f; stage_quantity m f; stage_unique m f])
      with (h ++ [stage_coerced f; stage_amount f; stage_quantity m f] ++ [stage_unique m f]).
    rewrite app_assoc.
    replace (length h + 3)%nat with (length (h ++ [stage_coerced f; stage_amount f; stage_quantity m f])).
    + apply lookup_fresh.
    + rewrite length_app. reflexivity.
  - destruct (clean_data_none w Hf) as [e He]. congruence.
Qed.

End Cleaner.

Section CleanerFacts.

Variable parse_float : string → option Qc.
Variable parse_datetime : string → option timestamp.

Local Abbreviation coerce := (coerce parse_float parse_datetime).

(** *** The cleaned rows *)

Lemma float_gt0_inv c :
  float_gt0 (to_float c) = true ↔ ∃ q, c = Float (Fl q) ∧ (0 < q)%Qc.
Proof.
  split.
  - destruct c as [[| q] | s]; simpl; try discriminate.
    intros H. exists q. split; [reflexivity | by apply Qc_ltb_lt].
  - intros (q & -> & Hq). simpl. by apply Qc_ltb_lt.
Qed.

Lemma float_gt0_not_text c : float_gt0 (to_float c) = true → is_text c = false.
Proof. intros H. apply float_gt0_inv in H as (q & -> & _). reflexivity. Qed.

Lemma clean_row_inv r :
  clean_row r = true ↔
  float_gt0 (to_float (order_amount r)) = true ∧
  float_gt0 (to_float (quantity r)) = true ∧
  is_text (unit_price r) = false ∧ is_dtext (order_date r) = false ∧
  status r ≠ None.
Proof.
  unfold clean_row. rewrite !andb_true_iff, !negb_true_iff, bool_decide_eq_true. tauto.
Qed.

Lemma elem_of_cleaned_rows rs r :
  r ∈ cleaned_rows parse_float parse_datetime rs →
  (∃ r0, r0 ∈ rs ∧ r = coerce r0) ∧
  float_gt0 (to_float (order_amount r)) = true ∧
  float_gt0 (to_float (quantity r)) = true.
Proof.
  unfold cleaned_rows. intros H. apply keep_elem in H as [H _].
  apply elem_of_list_filter in H as [H Hq].
  apply elem_of_list_filter in H as [H Ha].
  apply list_elem_of_fmap in H as (r0 & -> & H). eauto.
Qed.

Lemma coerce_clean_row r : clean_row (coerce r) = true ↔
  float_gt0 (to_float (order_amount (coerce r))) = true ∧
  float_gt0 (to_float (quantity (coerce r))) = true.
Proof.
  rewrite clean_row_inv. split; [tauto |]. intros [Ha Hq].
  split; [exact Ha |]. split; [exact Hq |]. simpl. split; [apply to_numeric_float |].
  split.
  - destruct (order_date r) as [| d | s]; simpl; try reflexivity.
    destruct (parse_datetime s); reflexivity.
  - destruct (status r); discriminate.
Qed.

Lemma cleaned_rows_clean rs : is_clean (cleaned_rows parse_float parse_datetime rs).
Proof.
  split.
  - intros r Hr. apply elem_of_cleaned_rows in Hr as ((r0 & _ & ->) & Ha & Hq).
    by apply coerce_clean_row.
  - apply keep_NoDup.
Qed.

Lemma coerce_id r : clean_row r = true → coerce r = r.
Proof.
  intros H. apply clean_row_inv in H as (Ha & _ & Hu & Hd & Hs).
  apply float_gt0_not_text in Ha.
  destruct r as [oid cid d cat name qty up amt st]. unfold coerce. simpl in *.
  f_equal.
  - destruct d; simpl in *; [reflexivity | reflexivity | discriminate].
  - destruct up; simpl in *; [reflexivity | discriminate].
  - destruct amt; simpl in *; [reflexivity | discriminate].
  - destruct st; simpl; [reflexivity | contradiction].
Qed.

Lemma cleaned_rows_id rs :
  is_clean rs → cleaned_rows parse_float parse_datetime rs = rs.
Proof.
  intros [Hrows Hnd]. unfold cleaned_rows.
  assert (map coerce rs = rs) as ->.
  { rewrite <- (map_id rs) at 2. apply map_ext_in. intros r Hr.
    apply coerce_id, Hrows, list_elem_of_In, Hr. }
  rewrite (list_filter_all (λ r, float_gt0 (to_float (order_amount r))) rs).
  2: { intros r Hr. apply Hrows in Hr. apply clean_row_inv in Hr. tauto. }
  rewrite list_filter_all.
  2: { intros r Hr. apply Hrows in Hr. apply clean_row_inv in Hr. tauto. }
  apply keep_id; [exact Hnd | intros x _; apply not_elem_of_nil].
Qed.

Lemma spec_steps_coerce rs :
  map (spec_coerce_numeric parse_float)
    (map (spec_coerce_date parse_datetime) (map spec_fill_status rs)) =
  map coerce rs.
Proof.
  rewrite !map_map. apply map_ext. intros r.
  unfold spec_fill_status, spec_coerce_date, spec_coerce_numeric, coerce.
  destruct r as [oid cid [| d | s] cat name qty [x | u] [y | a] [st |]]; reflexivity.
Qed.

(** Steps 1 to 3 leave a record as the specification says they do. *)
Lemma coerce_coerced_from r : spec_coerced_from parse_float parse_datetime r (coerce r).
Proof.
  unfold spec_coerced_from, coerce. cbn [order_id customer_id product_category product_name
    quantity status order_date order_amount unit_price].
  repeat split.
  - by destruct (status r).
  - destruct (order_date r) as [| d | s]; simpl; [reflexivity | reflexivity |].
    by destruct (parse_datetime s).
  - destruct (order_amount r) as [x | s]; simpl; [reflexivity |].
    by destruct (parse_float s).
  - destruct (unit_price r) as [x | s]; simpl; [reflexivity |].
    by destruct (parse_float s).
Qed.

Lemma spec_not_positive_gt0 c : negb (spec_not_positive c) = float_gt0 (to_float c).
Proof. destruct c as [[| q] | s]; reflexivity. Qed.

Lemma spec_drop_invalid_filters rs :
  spec_drop_invalid rs =
  List.filter (λ r, float_gt0 (to_float (quantity r)))
    (List.filter (λ r, float_gt0 (to_float (order_amount r))) rs).
Proof.
  unfold spec_drop_invalid. induction rs as [| r rs IH]; [reflexivity |].
  simpl. rewrite negb_orb, !spec_not_positive_gt0.
  destruct (float_gt0 (to_float (order_amount r))); simpl.
  - destruct (float_gt0 (to_float (quantity r))); by rewrite IH.
  - exact IH.
Qed.

Lemma spec_drop_duplicates_keep rs :
  spec_drop_duplicates rs = keep order_id [] rs.
Proof.
  induction rs as [| r rs IH]; [reflexivity |].
  rewrite keep_cons. destruct (decide (order_id r ∈ [])) as [H | _].
  - by apply not_elem_of_nil in H.
  - simpl. rewrite IH, keep_seen_cons. reflexivity.
Qed.

Lemma cleaned_rows_spec rs :
  cleaned_rows parse_float parse_datetime rs = spec_cleaner parse_float parse_datetime rs.
Proof.
  unfold cleaned_rows, spec_cleaner.
  by rewrite spec_steps_coerce, spec_drop_invalid_filters, spec_drop_duplicates_keep.
Qed.

End CleanerFacts.

(** *** The claims about the Cleaner *)

Section CleanerClaims.

Variable parse_float : string → option Qc.
Variable parse_datetime : string → option timestamp.

Local Abbreviation clean_data := (clean_data parse_float parse_datetime).

(** C1. For every input table, the table [clean_data] produces has no two
    records with the same [order_id], has [order_amount > 0] and
    [quantity > 0] in every record, and has no null [status]. *)
Theorem clean_data_invariants w l w' :
  clean_data w = (Ok l, w') →
  ∃ t, clean_table w' = Some t ∧
       NoDup (map order_id t) ∧
       ∀ r, r ∈ t →
         (∃ q, order_amount r = Float (Fl q) ∧ (0 < q)%Qc) ∧
         (∃ q, quantity r = Float (Fl q) ∧ (0 < q)%Qc) ∧
         status r ≠ None.
Proof.
  intros H. apply clean_data_returns in H as (f & f' & _ & Hl & Hc & Hrows).
  exists (rows f'). unfold clean_table. rewrite Hc, Hl. split; [reflexivity |].
  rewrite Hrows. destruct (cleaned_rows_clean parse_float parse_datetime (rows f)) as [Hr Hnd].
  split; [exact Hnd |]. intros r Hin. apply Hr in Hin.
  apply clean_row_inv in Hin as (Ha & Hq & _ & _ & Hs).
  apply float_gt0_inv in Ha, Hq. auto.
Qed.

(** [clean_data] returns whenever the quantities it compares are numbers. *)
Lemma clean_data_total w f :
  raw_frame w = Some f →
  (∀ r, r ∈ rows (stage_amount parse_float parse_datetime f) → is_text (quantity r) = false) →
  ∃ l w', clean_data w = (Ok l, w').
Proof.
  intros Hf Hq. destruct (clean_data_spec parse_float parse_datetime w f Hf) as (h & _ & raw & Hrun).
  rewrite gt_zero_no_text in Hrun; [eauto |].
  intros c Hc. apply list_elem_of_fmap in Hc as (r & -> & Hr). by apply Hq.
Qed.

(** C4. The Cleaner applies its five transformations in the order the
    specification lists: the stored table is [spec_cleaner] of the raw
    one, and the frames allocated on the way show the steps.  The first is
    the copy with the status filled and the three columns coerced: text
    that does not parse has become the null marker (NaT, NaN), every other
    cell is as the raw record has it.  Then come the rows of positive
    amount, then those of positive quantity, a null amount failing the
    test; the duplicates are dropped from the latter only, so a record of
    non-positive amount never reaches the deduplication.  No date and no
    amount of the stored table is text. *)
Theorem clean_data_order w l w' :
  clean_data w = (Ok l, w') →
  ∃ f f0 f1 f2 t,
    raw_frame w = Some f ∧
    heap w' !! (l - 3)%nat = Some f0 ∧ heap w' !! (l - 2)%nat = Some f1 ∧
    heap w' !! (l - 1)%nat = Some f2 ∧ clean_table w' = Some t ∧
    rows f0 = map (spec_coerce_numeric parse_float)
                (map (spec_coerce_date parse_datetime) (map spec_fill_status (rows f))) ∧
    Forall2 (spec_coerced_from parse_float parse_datetime) (rows f) (rows f0) ∧
    rows f1 = List.filter (λ r, negb (spec_not_positive (order_amount r))) (rows f0) ∧
    rows f2 = List.filter (λ r, negb (spec_not_positive (quantity r))) (rows f1) ∧
    t = spec_drop_duplicates (rows f2) ∧
    t = spec_cleaner parse_float parse_datetime (rows f) ∧
    (∀ r, r ∈ rows f2 → ∃ q, order_amount r = Float (Fl q) ∧ (0 < q)%Qc) ∧
    (∀ r, r ∈ t → (order_date r = NaT ∨ ∃ d, order_date r = Stamp d) ∧
                  (∃ x, order_amount r = Float x) ∧ (∃ x, unit_price r = Float x)).
Proof.
  intros H. destruct (raw_frame w) as [f |] eqn:Hf.
  2: { destruct (clean_data_none parse_float parse_datetime w Hf) as [e He]. congruence. }
  destruct (clean_data_spec parse_float parse_datetime w f Hf) as (h & _ & raw & Hrun).
  rewrite Hrun in H.
  destruct (gt_zero (map quantity (rows (stage_amount parse_float parse_datetime f))))
    as [m | e] eqn:Hm; [| discriminate].
  injection H as <- <-.
  exists f, (stage_coerced parse_float parse_datetime f),
    (stage_amount parse_float parse_datetime f),
    (stage_quantity parse_float parse_datetime m f),
    (rows (stage_unique parse_float parse_datetime m f)).
  split; [reflexivity |]. cbn [heap self clean_df].
  replace (length h + 3 - 3)%nat with (length h) by lia.
  replace (length h + 3 - 2)%nat with (length h + 1)%nat by lia.
  replace (length h + 3 - 1)%nat with (length h + 2)%nat by lia.
  split; [apply lookup_fresh |].
  split; [rewrite lookup_app_r by lia; by replace (length h + 1 - length h)%nat with 1%nat by lia |].
  split; [rewrite lookup_app_r by lia; by replace (length h + 2 - length h)%nat with 2%nat by lia |].
  split.
  { unfold clean_table. cbn [heap self clean_df].
    rewrite lookup_app_r by lia. by replace (length h + 3 - length h)%nat with 3%nat by lia. }
  split; [symmetry; apply spec_steps_coerce |].
  split.
  { cbn [rows stage_coerced]. apply Forall2_fmap_r, Forall_Forall2_diag, Forall_forall.
    intros r _. apply coerce_coerced_from. }
  split.
  { rewrite rows_stage_amount. apply filter_ext. intros r. by rewrite spec_not_positive_gt0. }
  split.
  { rewrite (rows_stage_quantity _ _ f m Hm). apply filter_ext. intros r.
    by rewrite spec_not_positive_gt0. }
  split.
  { rewrite spec_drop_duplicates_keep.
    unfold stage_unique, filter_frame. cbn [rows]. apply first_mask_keep. }
  split.
  { rewrite (rows_stage_unique _ _ f m Hm). apply cleaned_rows_spec. }
  split.
  { intros r Hr. rewrite (rows_stage_quantity _ _ f m Hm), rows_stage_amount in Hr.
    apply elem_of_list_filter in Hr as [Hr _]. apply elem_of_list_filter in Hr as [_ Hr].
    by apply float_gt0_inv. }
  intros r Hr. rewrite (rows_stage_unique _ _ f m Hm) in Hr.
  destruct (cleaned_rows_clean parse_float parse_datetime (rows f)) as [Hrow _].
  apply Hrow, clean_row_inv in Hr as (Ha & _ & Hu & Hd & _).
  split; [destruct (order_date r); [by left | right; eauto | discriminate] |].
  split; [destruct (order_amount r); [eauto | discriminate] |].
  destruct (unit_price r); [eauto | discriminate].
Qed.

(** C6. The Cleaner is idempotent: run on a table it has produced, it
    produces a table with the same records, none dropped and none
    altered. *)
Theorem clean_data_idempotent w l w' :
  clean_data w = (Ok l, w') →
  ∃ t l2 w2,
    clean_table w' = Some t ∧
    clean_data (feed_back w') = (Ok l2, w2) ∧
    clean_table w2 = Some t.
Proof.
  intros H. apply clean_data_returns in H as (f & f' & _ & Hl & Hc & Hrows).
  pose proof (cleaned_rows_clean parse_float parse_datetime (rows f)) as Hclean.
  rewrite <- Hrows in Hclean.
  assert (raw_frame (feed_back w') = Some f') as Hraw.
  { unfold raw_frame, feed_back. cbn [self raw_df heap]. by rewrite Hc. }
  destruct (clean_data_total (feed_back w') f' Hraw) as (l2 & w2 & Hrun).
  { intros r Hr. rewrite rows_stage_amount in Hr.
    apply elem_of_list_filter in Hr as [Hr _].
    apply list_elem_of_fmap in Hr as (r0 & -> & Hr). simpl.
    destruct Hclean as [Hrow _]. apply Hrow in Hr. apply clean_row_inv in Hr.
    apply float_gt0_not_text. tauto. }
  exists (rows f'), l2, w2. split.
  { unfold clean_table. by rewrite Hc, Hl. }
  split; [exact Hrun |].
  apply clean_data_returns in Hrun as (g & g' & Hg & Hl2 & Hc2 & Hrows2).
  rewrite Hraw in Hg. injection Hg as <-.
  unfold clean_table. rewrite Hc2, Hl2. simpl. f_equal.
  rewrite Hrows2. by apply cleaned_rows_id.
Qed.

End CleanerClaims.

Lemma clean_data_invariants_witness :
  ∃ t, clean_table (clean_data sample_parse_float sample_parse_datetime sample_world).2 = Some t ∧
       NoDup (map order_id t) ∧
       ∀ r, r ∈ t →
         (∃ q, order_amount r = Float (Fl q) ∧ (0 < q)%Qc) ∧
         (∃ q, quantity r = Float (Fl q) ∧ (0 < q)%Qc) ∧
         status r ≠ None.
Proof.
  apply (clean_data_invariants sample_parse_float sample_parse_datetime sample_world 4%nat).
  vm_compute. reflexivity.
Defined.

Lemma clean_data_order_witness :
  let w := World [] (Analyzer None None) (Ok sample_rows) in
  let w' := cleaned_world sample_rows in
  ∃ f f0 f1 f2 t,
    raw_frame w = Some f ∧
    heap w' !! 1%nat = Some f0 ∧ heap w' !! 2%nat = Some f1 ∧
    heap w' !! 3%nat = Some f2 ∧ clean_table w' = Some t ∧
    rows f0 = map (spec_coerce_numeric sample_parse_float)
                (map (spec_coerce_date sample_parse_datetime) (map spec_fill_status (rows f))) ∧
    Forall2 (spec_coerced_from sample_parse_float sample_parse_datetime) (rows f) (rows f0) ∧
    rows f1 = List.filter (λ r, negb (spec_not_positive (order_amount r))) (rows f0) ∧
    rows f2 = List.filter (λ r, negb (spec_not_positive (quantity r))) (rows f1) ∧
    t = spec_drop_duplicates (rows f2) ∧
    t = spec_cleaner sample_parse_float sample_parse_datetime (rows f) ∧
    (∀ r, r ∈ rows f2 → ∃ q, order_amount r = Float (Fl q) ∧ (0 < q)%Qc) ∧
    (∀ r, r ∈ t → (order_date r = NaT ∨ ∃ d, order_date r = Stamp d) ∧
                  (∃ x, order_amount r = Float x) ∧ (∃ x, unit_price r = Float x)).
Proof.
  intros w w'.
  apply (clean_data_order sample_parse_float sample_parse_datetime w 4%nat w').
  vm_compute. reflexivity.
Defined.

Lemma clean_data_idempotent_witness :
  ∃ t l2 w2,
    clean_table (cleaned_world sample_rows) = Some t ∧
    clean_data sample_parse_float sample_parse_datetime (feed_back (cleaned_world sample_rows))
    = (Ok l2, w2) ∧
    clean_table w2 = Some t.
Proof.
  apply (clean_data_idempotent sample_parse_float sample_parse_datetime
           (World [] (Analyzer None None) (Ok sample_rows)) 4%nat).
  vm_compute. reflexivity.
Defined.

(** ** Frame conditions of the Metrics Engine *)

Local Open Scope nat_scope.

Lemma preserves_refl n w : preserves n w w.
Proof. unfold preserves. auto. Qed.

Lemma preserves_trans n w1 w2 w3 :
  preserves n w1 w2 → preserves n w2 w3 → preserves n w1 w3.
Proof.
  intros (Hs1 & Hc1 & Hl1 & Hh1) (Hs2 & Hc2 & Hl2 & Hh2).
  split; [congruence |]. split; [congruence |]. split; [lia |].
  intros i Hi. rewrite Hh2, Hh1 by exact Hi. reflexivity.
Qed.

Lemma framed_ret {A} n (a : A) (Q : A → Prop) : Q a → framed n (ret a) Q.
Proof. intros Ha w _ _. split; [apply preserves_refl | exact Ha]. Qed.

Lemma framed_lift {A} n (r : result A) : framed n (lift r) (λ _, True).
Proof. intros w _ _. split; [apply preserves_refl |]. simpl. by destruct r. Qed.

Lemma framed_bind {A B} n (m : M A) (k : A → M B) (Q : A → Prop) (R : B → Prop) :
  framed n m Q → (∀ a, Q a → framed n (k a) R) → framed n (bind m k) R.
Proof.
  intros Hm Hk w Hn Hc. destruct (Hm w Hn Hc) as [Hp HQ].
  unfold bind. destruct (m w) as [[a | e] w1]; simpl in *; [| by split].
  destruct Hp as (Hs & Hsrc & Hl & Hh).
  destruct (Hk a HQ w1) as [Hp2 HR]; [lia | by rewrite Hs |].
  split; [| exact HR].
  eapply preserves_trans; [| exact Hp2]. by repeat split.
Qed.

Lemma framed_weaken {A} n (m : M A) (Q R : A → Prop) :
  framed n m Q → (∀ a, Q a → R a) → framed n m R.
Proof.
  intros Hm HQR w Hn Hc. destruct (Hm w Hn Hc) as [Hp HQ]. split; [exact Hp |].
  destruct (m w).1; auto.
Qed.

Lemma framed_get_self n : framed n get_self (λ _, True).
Proof. intros w _ _. split; [apply preserves_refl | exact I]. Qed.

Lemma framed_read n l : framed n (read l) (λ _, True).
Proof.
  intros w _ _. unfold read. destruct (heap w !! l); (split; [apply preserves_refl | exact I]).
Qed.

Lemma framed_alloc n f : framed n (alloc f) (λ l, n ≤ l).
Proof.
  intros w Hn _. unfold alloc, preserves. cbn [fst snd heap self source].
  split; [| exact Hn].
  split; [reflexivity |]. split; [reflexivity |]. split; [rewrite length_app; lia |].
  intros i Hi. apply lookup_app_l. lia.
Qed.

Lemma framed_modify n l g : n ≤ l → framed n (modify l g) (λ _, True).
Proof.
  intros Hl w Hn _. unfold modify, preserves.
  destruct (heap w !! l) as [f |]; cbn [fst snd heap self source].
  - split; [| exact I]. split; [reflexivity |]. split; [reflexivity |].
    split; [by rewrite length_insert |].
    intros i Hi. apply list_lookup_insert_ne. lia.
  - split; [apply (preserves_refl n w) | exact I].
Qed.

Lemma framed_the_clean_df n : framed n the_clean_df (λ _, True).
Proof.
  unfold the_clean_df. eapply framed_bind; [apply framed_get_self |].
  intros s _. destruct (clean_df s); [by apply framed_ret | apply framed_lift].
Qed.

Lemma framed_column {A} n (col : record → A) l : framed n (column col l) (λ _, True).
Proof.
  unfold column. eapply framed_bind; [apply framed_read |].
  intros f _. by apply framed_ret.
Qed.

Lemma framed_getitem n l mask : framed n (getitem l mask) (λ l', n ≤ l').
Proof.
  unfold getitem. eapply framed_bind; [apply framed_read |].
  intros f _. apply framed_alloc.
Qed.

Lemma framed_with_status n v : framed n (with_status v) (λ l, n ≤ l).
Proof.
  unfold with_status. eapply framed_bind; [apply framed_the_clean_df |].
  intros df _. eapply framed_bind; [apply framed_column |].
  intros st _. apply framed_getitem.
Qed.

Lemma framed_repeat_rate n : framed n _calculate_repeat_rate (λ _, True).
Proof.
  unfold _calculate_repeat_rate. eapply framed_bind; [apply framed_the_clean_df |].
  intros df _. eapply framed_bind; [apply framed_column |].
  intros ids _. cbv zeta. case_decide; [| by apply framed_ret].
  eapply framed_bind; [apply framed_lift |]. intros r _. by apply framed_ret.
Qed.

Lemma framed_top (P : pandas) n (key : record → option string) k :
  framed n (let* completed := with_status "completed" in
            let* f := read completed in
            let* g := lift (groupby_sum P key (rows f)) in
            ret (head k (sort_values_desc P g))) (λ _, True).
Proof.
  eapply framed_bind; [apply framed_with_status |].
  intros c _. eapply framed_bind; [apply framed_read |].
  intros f _. eapply framed_bind; [apply framed_lift |].
  intros g _. by apply framed_ret.
Qed.

Lemma framed_get_top_categories P n k : framed n (get_top_categories P k) (λ _, True).
Proof. apply framed_top. Qed.

Lemma framed_get_top_customers P n k : framed n (get_top_customers P k) (λ _, True).
Proof. apply framed_top. Qed.

Lemma framed_analyze_seasonal_trends P n : framed n (analyze_seasonal_trends P) (λ _, True).
Proof.
  unfold analyze_seasonal_trends. eapply framed_bind; [apply framed_with_status |].
  intros c Hc. eapply framed_bind; [apply framed_column |].
  intros dates _. eapply framed_bind; [apply framed_lift |].
  intros months _. eapply framed_bind; [by apply framed_modify |].
  intros _ _. eapply framed_bind; [apply framed_read |].
  intros f _. apply framed_lift.
Qed.

Section MetricsFrame.

Variable P : pandas.
Variable parse_float : string → option Qc.
Variable parse_datetime : string → option timestamp.

Lemma framed_ensure_clean n :
  framed n (ensure_clean parse_float parse_datetime) (λ _, True).
Proof.
  intros w Hn [l Hl]. unfold ensure_clean, bind, get_self. rewrite Hl. simpl.
  split; [apply preserves_refl | exact I].
Qed.

Lemma framed_calculate_metrics n :
  framed n (calculate_metrics P parse_float parse_datetime) (λ _, True).
Proof.
  unfold calculate_metrics. eapply framed_bind; [apply framed_ensure_clean |].
  intros _ _. eapply framed_bind; [apply framed_with_status |].
  intros c _. eapply framed_bind; [apply framed_column |].
  intros amounts _. eapply framed_bind; [apply framed_lift |].
  intros xs _. cbv zeta. eapply framed_bind; [apply framed_read |].
  intros fco _. eapply framed_bind; [apply framed_the_clean_df |].
  intros df _. eapply framed_bind; [apply framed_column |].
  intros ids _. eapply framed_bind; [apply framed_repeat_rate |].
  intros r _. eapply framed_bind; [apply framed_with_status |].
  intros x _. eapply framed_bind; [apply framed_read |].
  intros fc _. eapply framed_bind; [apply framed_the_clean_df |].
  intros df' _. eapply framed_bind; [apply framed_read |].
  intros f _. eapply framed_bind; [apply framed_lift |].
  intros q _. by apply framed_ret.
Qed.

Lemma framed_answer_business_questions n :
  framed n (answer_business_questions P parse_float parse_datetime) (λ _, True).
Proof.
  unfold answer_business_questions.
  eapply framed_bind; [apply framed_calculate_metrics |].
  intros m _. eapply framed_bind; [apply framed_get_top_categories |].
  intros top _. eapply framed_bind; [apply framed_lift |].
  intros best _. eapply framed_bind; [apply framed_get_top_customers |].
  intros cs _. eapply framed_bind; [apply framed_analyze_seasonal_trends |].
  intros tr _. by apply framed_ret.
Qed.

End MetricsFrame.

(** A framed computation keeps the clean table. *)
Lemma framed_clean_table {A} (m : M A) w l f :
  (∀ n, framed n m (λ _, True)) →
  clean_df (self w) = Some l → heap w !! l = Some f →
  clean_df (self (m w).2) = Some l ∧ heap (m w).2 !! l = Some f.
Proof.
  intros Hm Hl Hf. destruct (Hm (S l) w) as [(Hs & _ & _ & Hh) _].
  - apply lookup_lt_Some in Hf. lia.
  - by rewrite Hl.
  - rewrite Hs, Hh by lia. auto.
Qed.

Local Close Scope nat_scope.

(** ** Sorting *)

Section Sorting.
Context {A : Type} (leb : A → A → bool).
Hypothesis leb_total : ∀ x y, leb x y = true ∨ leb y x = true.
Hypothesis leb_trans : ∀ x y z, leb x y = true → leb y z = true → leb x z = true.

Lemma insert_by_perm x l : insert_by leb x l ≡ₚ x :: l.
Proof.
  induction l as [| y l IH]; simpl; [reflexivity |].
  destruct (leb x y); [reflexivity |]. rewrite IH. apply perm_swap.
Qed.

Lemma sort_by_perm l : sort_by leb l ≡ₚ l.
Proof.
  induction l as [| x l IH]; simpl; [reflexivity |].
  rewrite insert_by_perm. by rewrite IH.
Qed.

Lemma insert_by_sorted K x l :
  StronglySorted (sorted_then leb K) l → Forall (K x) l →
  StronglySorted (sorted_then leb K) (insert_by leb x l).
Proof.
  induction l as [| y l IH]; intros Hs HK; simpl.
  - repeat constructor.
  - apply StronglySorted_cons in Hs as [Hy Hs].
    apply Forall_cons in HK as [HKy HK].
    destruct (leb x y) eqn:E.
    + apply StronglySorted_cons. split; [| by apply StronglySorted_cons].
      apply Forall_cons. split; [by split |].
      rewrite Forall_forall in Hy, HK |- *. intros z Hz.
      split; [| intros _; by apply HK].
      destruct (Hy z Hz) as [Hyz _]. by apply (leb_trans x y z).
    + apply StronglySorted_cons. split; [| by apply IH].
      rewrite insert_by_perm. apply Forall_cons. split; [| exact Hy].
      split; [| congruence]. destruct (leb_total x y); congruence.
Qed.

Lemma sort_by_sorted K l :
  StronglySorted K l → StronglySorted (sorted_then leb K) (sort_by leb l).
Proof.
  induction l as [| x l IH]; intros Hs; simpl; [constructor |].
  apply StronglySorted_cons in Hs as [Hx Hs].
  apply insert_by_sorted; [by apply IH |]. by rewrite sort_by_perm.
Qed.

End Sorting.

Lemma StronglySorted_rev {A} (R : A → A → Prop) l :
  StronglySorted R l → StronglySorted (flip R) (rev l).
Proof.
  induction 1 as [| x l Hs IH Hx]; simpl; [constructor |].
  apply StronglySorted_app. split; [| split; [exact IH | repeat constructor]].
  intros a b Ha Hb. apply list_elem_of_singleton in Hb as ->.
  rewrite Forall_forall in Hx. apply Hx. apply list_elem_of_In.
  apply in_rev. by apply list_elem_of_In.
Qed.

Lemma StronglySorted_weaken {A} (R S : A → A → Prop) l :
  (∀ a b, a ∈ l → b ∈ l → R a b → S a b) → StronglySorted R l → StronglySorted S l.
Proof.
  intros H Hs. induction Hs as [| x l Hs IH Hx]; [constructor |].
  constructor.
  - apply IH. intros a b Ha Hb. apply H; by right.
  - rewrite Forall_forall in Hx |- *. intros y Hy. apply H; [left | by right | by apply Hx].
Qed.

Lemma StronglySorted_NoDup {A} (R : A → A → Prop) l :
  StronglySorted R l → NoDup l → StronglySorted (λ a b, R a b ∧ a ≠ b) l.
Proof.
  induction 1 as [| x l Hs IH Hx]; intros Hnd; [constructor |].
  apply NoDup_cons in Hnd as [Hnin Hnd]. constructor; [by apply IH |].
  rewrite Forall_forall in Hx |- *. intros y Hy. split; [by apply Hx |].
  intros ->. contradiction.
Qed.

Lemma StronglySorted_fmap {A B} (R : B → B → Prop) (g : A → B) l :
  StronglySorted (λ a b, R (g a) (g b)) l ↔ StronglySorted R (map g l).
Proof.
  induction l as [| x l IH]; simpl; [split; constructor |].
  rewrite !StronglySorted_cons, IH, Forall_fmap. reflexivity.
Qed.

Lemma sort_stable_desc_perm {K V} (leb : V → V → bool) (s : list (K * V)) :
  sort_stable_desc leb s ≡ₚ s.
Proof.
  unfold sort_stable_desc. rewrite <- Permutation_rev.
  rewrite sort_by_perm. by rewrite <- Permutation_rev.
Qed.

(** The stable sort: descending values; equal values keep the order they
    had. *)
Lemma sort_stable_desc_sorted {K V} (leb : V → V → bool) (before : K * V → K * V → Prop)
    (s : list (K * V)) :
  (∀ x y, leb x y = true ∨ leb y x = true) →
  (∀ x y z, leb x y = true → leb y z = true → leb x z = true) →
  StronglySorted before s →
  StronglySorted (λ a b, leb b.2 a.2 = true ∧ (leb a.2 b.2 = true → before a b))
                 (sort_stable_desc leb s).
Proof.
  intros Htot Htrans Hs. unfold sort_stable_desc.
  apply StronglySorted_rev in Hs.
  apply (sort_by_sorted (λ a b, leb a.2 b.2)) in Hs; [| by auto | by eauto].
  apply StronglySorted_rev in Hs. exact Hs.
Qed.

(** ** Values of the Metrics Engine *)

Lemma with_status_run v w l f :
  clean_df (self w) = Some l → heap w !! l = Some f →
  with_status v w =
  (Ok (length (heap w)),
   World (heap w ++ [filter_frame (eq_str v (map status (rows f))) f]) (self w) (source w)).
Proof.
  intros Hl Hf. unfold with_status.
  erewrite bind_ok by (apply the_clean_df_ok, Hl).
  erewrite bind_ok by (apply column_ok, Hf).
  by apply getitem_ok.
Qed.

Lemma rows_with_status_frame v f :
  rows (filter_frame (eq_str v (map status (rows f))) f) = rows_with_status v (rows f).
Proof.
  unfold filter_frame, eq_str, rows_with_status. cbn [rows].
  apply (select_map_col status (λ c, bool_decide (c = Some v))).
Qed.

Lemma elem_of_rows_with_status v rs r :
  r ∈ rows_with_status v rs ↔ r ∈ rs ∧ status r = Some v.
Proof.
  unfold rows_with_status. rewrite elem_of_list_filter, bool_decide_eq_true. reflexivity.
Qed.

Lemma floats_ok col :
  (∀ c, c ∈ col → is_text c = false) → floats col = Ok (map to_float col).
Proof. intros H. unfold floats. apply existsb_false_iff in H. by rewrite H. Qed.

Lemma groupby_sum_ok P key rs :
  (∀ r, r ∈ rs → is_text (order_amount r) = false) →
  groupby_sum P key rs = Ok (map (λ k, (k, group_sum P key k rs)) (sorted_keys (map key rs))).
Proof.
  intros H. unfold groupby_sum.
  replace (existsb is_text (map order_amount rs)) with false; [reflexivity |].
  symmetry. apply existsb_false_iff. intros c Hc.
  apply list_elem_of_fmap in Hc as (r & -> & Hr). by apply H.
Qed.

Lemma clean_amounts_float v rs r :
  is_clean rs → r ∈ rows_with_status v rs → is_text (order_amount r) = false.
Proof.
  intros [Hrow _] Hr. apply elem_of_rows_with_status in Hr as [Hr _].
  apply Hrow in Hr. apply clean_row_inv in Hr as [Ha _].
  by apply float_gt0_not_text.
Qed.

(** The two ranking methods run the same code on different keys. *)
Lemma top_run P key k w l f :
  clean_df (self w) = Some l → heap w !! l = Some f →
  ((let* completed := with_status "completed" in
    let* f := read completed in
    let* g := lift (groupby_sum P key (rows f)) in
    ret (head k (sort_values_desc P g))) w).1 =
  match groupby_sum P key (rows_with_status "completed" (rows f)) with
  | Ok g => Ok (head k (sort_values_desc P g))
  | Raise e => Raise e
  end.
Proof.
  intros Hl Hf.
  erewrite bind_ok by (apply (with_status_run _ _ l f Hl Hf)).
  erewrite bind_ok by (apply read_ok; cbn [heap]; apply lookup_fresh).
  rewrite rows_with_status_frame.
  destruct (groupby_sum P key (rows_with_status "completed" (rows f))) as [g | e].
  - erewrite bind_ok by reflexivity. reflexivity.
  - erewrite bind_raise by reflexivity. reflexivity.
Qed.

Lemma get_top_categories_value P k w l f :
  clean_df (self w) = Some l → heap w !! l = Some f →
  (get_top_categories P k w).1 =
  match groupby_sum P product_category (rows_with_status "completed" (rows f)) with
  | Ok g => Ok (head k (sort_values_desc P g))
  | Raise e => Raise e
  end.
Proof. apply top_run. Qed.

Lemma get_top_customers_value P k w l f :
  clean_df (self w) = Some l → heap w !! l = Some f →
  (get_top_customers P k w).1 =
  match groupby_sum P customer_id (rows_with_status "completed" (rows f)) with
  | Ok g => Ok (head k (sort_values_desc P g))
  | Raise e => Raise e
  end.
Proof. apply top_run. Qed.

Lemma clean_table_inv w t :
  clean_table w = Some t →
  ∃ l f, clean_df (self w) = Some l ∧ heap w !! l = Some f ∧ rows f = t.
Proof.
  unfold clean_table. destruct (clean_df (self w)) as [l |]; [| discriminate].
  destruct (heap w !! l) as [f |] eqn:Hf; [| discriminate].
  intros [= <-]. eauto.
Qed.

(** *** Sums of whole numbers *)

Lemma sum_Z_app l1 l2 : sum_Z (l1 ++ l2) = sum_Z l1 + sum_Z l2.
Proof. induction l1 as [| z l1 IH]; simpl; [reflexivity |]. rewrite IH. lia. Qed.

Lemma sum_Z_perm l1 l2 : l1 ≡ₚ l2 → sum_Z l1 = sum_Z l2.
Proof. induction 1; simpl; lia. Qed.

Lemma sum_Z_concat (ls : list (list Z)) : sum_Z (concat ls) = sum_Z (map sum_Z ls).
Proof. induction ls as [| l ls IH]; simpl; [reflexivity |]. by rewrite sum_Z_app, IH. Qed.

Lemma sum_abs_nonneg zs : (∀ z, z ∈ zs → 0 ≤ z) → sum_abs zs = sum_Z zs ∧ 0 ≤ sum_Z zs.
Proof.
  induction zs as [| z zs IH]; intros H; simpl; [lia |].
  destruct IH as [IH1 IH2]; [intros y Hy; apply H; by right |].
  assert (0 ≤ z) by (apply H; left). lia.
Qed.

Lemma sum_Z_filter_le {A} (g : A → Z) (Q : A → Prop) `{!∀ x, Decision (Q x)} (l : list A) :
  (∀ x, x ∈ l → 0 ≤ g x) → sum_Z (map g (filter Q l)) ≤ sum_Z (map g l).
Proof.
  induction l as [| x l IH]; intros Hpos; [reflexivity |].
  assert (0 ≤ g x) as Hx by (apply Hpos; left).
  assert (sum_Z (map g (filter Q l)) ≤ sum_Z (map g l)) as Hl
    by (apply IH; intros y Hy; apply Hpos; by right).
  rewrite filter_cons. case_decide; simpl; lia.
Qed.

(** *** Groups are a partition *)

Lemma concat_fmap_perm {A B} (g : A → list B) (l1 l2 : list A) :
  l1 ≡ₚ l2 → concat (map g l1) ≡ₚ concat (map g l2).
Proof.
  induction 1 as [| x l1 l2 _ IH | x y l | l1 l2 l3 _ IH1 _ IH2]; simpl.
  - reflexivity.
  - by rewrite IH.
  - rewrite !app_assoc. f_equiv. apply Permutation_app_comm.
  - by rewrite IH1.
Qed.

(** The rows that have a key are the rows of the groups: every one of them
    is in the group of its key and in no other. *)
Lemma partition_by_keys {A K} `{EqDecision K} (key : A → option K) (ks : list K) (l : list A) :
  NoDup ks → (∀ x k, x ∈ l → key x = Some k → k ∈ ks) →
  filter (λ x, is_Some (key x)) l ≡ₚ concat (map (λ k, filter (λ x, key x = Some k) l) ks).
Proof.
  revert l. induction ks as [| k ks IH]; intros l Hnd Hkey.
  - simpl. induction l as [| x l IHl]; [reflexivity |].
    rewrite filter_cons. destruct (decide (is_Some (key x))) as [[k Hk] | _].
    + exfalso. eapply not_elem_of_nil, Hkey; [left | exact Hk].
    + apply IHl. intros y k Hy. apply Hkey. by right.
  - apply NoDup_cons in Hnd as [Hk Hnd]. simpl.
    rewrite <- (filter_app_complement (λ x, key x = Some k) (filter (λ x, is_Some (key x)) l)).
    assert (filter (λ x, key x = Some k) (filter (λ x, is_Some (key x)) l) =
            filter (λ x, key x = Some k) l) as ->.
    { rewrite list_filter_filter. apply list_filter_iff.
      intros x. split; [tauto |]. intros E. split; [exact E | by rewrite E]. }
    assert (filter (λ x, key x ≠ Some k) (filter (λ x, is_Some (key x)) l) =
            filter (λ x, is_Some (key x)) (filter (λ x, key x ≠ Some k) l)) as ->.
    { rewrite !list_filter_filter. apply list_filter_iff. intros x. tauto. }
    rewrite (IH _ Hnd).
    + apply Permutation_app_head, reflexive_eq. f_equal. apply map_ext_in. intros k' Hk'.
      rewrite list_filter_filter. apply list_filter_iff. intros x. split; [tauto |].
      intros E. split; [exact E |]. intros E'. rewrite E in E'. injection E' as ->.
      apply Hk. by apply list_elem_of_In.
    + intros x k' Hx E. apply list_elem_of_filter in Hx as [Hne Hx].
      specialize (Hkey x k' Hx E). apply elem_of_cons in Hkey as [-> | Hkey];
        [contradiction | exact Hkey].
Qed.

(** *** The two libraries are lawful *)

Lemma Qc_of_canon z : this (Qc_of z) = inject_Z z.
Proof. unfold Qc_of. simpl. apply Qred_identity. simpl. apply Z.gcd_1_r. Qed.

Lemma Qc_of_plus a b : (Qc_of a + Qc_of b)%Qc = Qc_of (a + b).
Proof.
  apply Qc_is_canon.
  transitivity (this (Qc_of a) + this (Qc_of b))%Q; [apply Qred_correct |].
  rewrite !Qc_of_canon. by rewrite inject_Z_plus.
Qed.

Lemma Qc_of_pos z : (0 < Qc_of z)%Qc ↔ 0 < z.
Proof. unfold Qclt. rewrite Qc_of_canon. change (this 0%Qc) with (inject_Z 0). by rewrite <- Zlt_Qlt. Qed.

Lemma round_half_even_1 n : round_half_even n 1 = n.
Proof. unfold round_half_even. by rewrite Z.mod_1_r, Z.div_1_r. Qed.

(** A whole number below 2^53 is a binary64 number: rounding leaves it as
    it is. *)
Lemma round64_pos_whole z : 0 < z < 2 ^ 53 → (round64_pos z 1 == inject_Z z)%Q.
Proof.
  intros [Hpos Hlt]. unfold round64_pos, floor_log2_ratio.
  change (Z.log2 1) with 0. rewrite Z.sub_0_r. cbv zeta.
  pose proof (Z.log2_nonneg z) as Hl0.
  assert (Z.log2 z < 53) as Hl by (apply Z.log2_lt_pow2; lia).
  destruct (Z.log2_spec z Hpos) as [Hlo _].
  rewrite (proj2 (Z.leb_le 0 (Z.log2 z))) by lia.
  rewrite (proj2 (Z.leb_le (1 * 2 ^ Z.log2 z) z)) by lia.
  rewrite Z.max_l by lia.
  destruct (Z.leb_spec 0 (Z.log2 z - 52)) as [He | He].
  - replace (Z.log2 z - 52) with 0 by lia. simpl (2 ^ 0). rewrite !Z.mul_1_r.
    by rewrite round_half_even_1.
  - rewrite round_half_even_1. unfold Qeq. simpl.
    rewrite Z2Pos.id by (apply Z.pow_pos_nonneg; lia). lia.
Qed.

Lemma round64_whole z : Z.abs z < 2 ^ 53 → round64 (Qc_of z) = Qc_of z.
Proof.
  intros Hz. unfold round64. rewrite Qc_of_canon. simpl.
  destruct (Z.eqb_spec z 0) as [-> | Hne]; [by apply Qc_is_canon |].
  destruct (Z.ltb_spec 0 z) as [Hpos | Hneg].
  - apply Qc_is_canon. simpl. rewrite Qred_correct.
    rewrite round64_pos_whole by lia. symmetry. apply Qred_correct.
  - apply Qc_is_canon. simpl. rewrite !Qred_correct.
    rewrite round64_pos_whole by lia. unfold Qeq. simpl. lia.
Qed.

Lemma count_valid_nonneg xs : 0 ≤ count_valid xs.
Proof. induction xs as [| [| q] xs IH]; simpl; lia. Qed.

Lemma sum64_nothing acc xs : count_valid xs = 0 → sum64 acc xs = acc.
Proof.
  induction xs as [| [| q] xs IH]; simpl; intros H; [reflexivity | by apply IH |].
  pose proof (count_valid_nonneg xs). lia.
Qed.

Lemma sum_abs_ge0 zs : 0 ≤ sum_abs zs.
Proof. induction zs as [| z zs IH]; simpl; lia. Qed.

Lemma sum64_whole a zs :
  Z.abs a + sum_abs zs < 2 ^ 53 → sum64 (Qc_of a) (map whole zs) = Qc_of (a + sum_Z zs).
Proof.
  revert a. induction zs as [| z zs IH]; intros a H; simpl in *.
  - by rewrite Z.add_0_r.
  - pose proof (sum_abs_ge0 zs).
    rewrite Qc_of_plus, round64_whole by lia. rewrite IH by lia. f_equal. lia.
Qed.

Lemma sort_reversing_desc_perm {K V} (leb : V → V → bool) (s : list (K * V)) :
  sort_reversing_desc leb s ≡ₚ s.
Proof. unfold sort_reversing_desc. by rewrite <- Permutation_rev, sort_by_perm. Qed.

Lemma always_sorted {A} (l : list A) : StronglySorted (λ _ _, True) l.
Proof. induction l; constructor; [assumption | by apply Forall_forall]. Qed.

Lemma binary64_sums zs :
  sum_abs zs < 2 ^ 53 → sum64 0 (map whole zs) = Qc_of (sum_Z zs).
Proof.
  intros H. change 0%Qc with (Qc_of 0). rewrite sum64_whole by (simpl; lia). f_equal.
Qed.

Lemma binary64_lawful : lawful binary64.
Proof.
  split; cbn [binary64 sum_skipna sum_group sort_values_desc].
  - intros xs. apply sum64_nothing.
  - apply binary64_sums.
  - apply binary64_sums.
  - intros s. apply sort_stable_desc_perm.
  - intros s.
    eapply StronglySorted_weaken;
      [| apply (sort_stable_desc_sorted Qc_leb (λ _ _, True));
         [apply Qc_leb_total | apply Qc_leb_trans | apply always_sorted]].
    intros a b _ _ [H _]. by apply Qc_leb_le.
Qed.

Lemma binary64_reversed_lawful : lawful binary64_reversed.
Proof.
  split; cbn [binary64_reversed sum_skipna sum_group sort_values_desc].
  - intros xs. apply sum64_nothing.
  - apply binary64_sums.
  - apply binary64_sums.
  - intros s. apply sort_reversing_desc_perm.
  - intros s. unfold sort_reversing_desc.
    apply (StronglySorted_rev (λ a b : string * Qc, (a.2 ≤ b.2)%Qc)).
    eapply StronglySorted_weaken;
      [| apply (sort_by_sorted (λ a b : string * Qc, Qc_leb a.2 b.2));
         [intros; apply Qc_leb_total | intros ???; apply Qc_leb_trans
         | apply (always_sorted s)]].
    intros a b _ _ [H _]. by apply Qc_leb_le.
Qed.

(** *** The repeat rate *)

Lemma size_of_list (X : gset string) (U : list string) :
  NoDup U → (∀ x, x ∈ X ↔ x ∈ U) → size X = length U.
Proof.
  intros Hnd H. rewrite <- (size_list_to_set (C:=gset string) U Hnd). f_equal.
  apply set_eq. intros x. rewrite elem_of_list_to_set. apply H.
Qed.

Lemma filter_fmap_length {A B} (g : A → B) (P : B → Prop)
    `{!∀ y, Decision (P y)} `{!∀ x, Decision (P (g x))} (l : list A) :
  length (filter P (map g l)) = length (filter (λ x, P (g x)) l).
Proof.
  induction l as [| x l IH]; [reflexivity |]. simpl. rewrite !filter_cons.
  repeat case_decide; simpl; try contradiction; by rewrite IH.
Qed.

Lemma orders_of_count c (t : list record) :
  len (filter (λ i, i = Some c) (map customer_id t)) = Z.of_nat (orders_of c t).
Proof.
  unfold len, orders_of. f_equal.
  apply (filter_fmap_length customer_id (λ i, i = Some c)).
Qed.

Lemma value_counts_length ids : length (value_counts ids) = length (unique ids).
Proof.
  unfold value_counts. rewrite sort_stable_desc_perm. apply length_map.
Qed.

Lemma value_counts_repeat (t : list record) :
  length (filter (λ kc, 1 < kc.2) (value_counts (map customer_id t))) =
  length (filter (λ c, (1 < orders_of c t)%nat) (unique (map customer_id t))).
Proof.
  unfold value_counts. rewrite sort_stable_desc_perm.
  rewrite (filter_fmap_length _ (λ kc : string * Z, 1 < kc.2)). cbn [snd].
  f_equal. apply list_filter_iff. intros c. rewrite orders_of_count. lia.
Qed.

Lemma spec_customers_size t :
  size (spec_customers t) = length (unique (map customer_id t)).
Proof.
  apply size_of_list; [apply unique_NoDup |].
  intros c. unfold spec_customers.
  by rewrite elem_of_list_to_set, elem_of_dropna, elem_of_unique.
Qed.

Lemma spec_repeaters_size t :
  size (filter (λ c, (1 < orders_of c t)%nat) (spec_customers t)) =
  length (filter (λ c, (1 < orders_of c t)%nat) (unique (map customer_id t))).
Proof.
  apply size_of_list; [apply NoDup_filter, unique_NoDup |].
  intros c. unfold spec_customers.
  by rewrite elem_of_filter, list_elem_of_filter, elem_of_list_to_set, elem_of_dropna, elem_of_unique.
Qed.

(** [_calculate_repeat_rate] computes the rate the specification defines,
    and leaves the world as it is. *)
Lemma repeat_rate_run w l f :
  clean_df (self w) = Some l → heap w !! l = Some f →
  _calculate_repeat_rate w = (Ok (spec_repeat_rate (rows f)), w).
Proof.
  intros Hl Hf. unfold _calculate_repeat_rate.
  erewrite bind_ok by (apply the_clean_df_ok, Hl).
  erewrite bind_ok by (apply column_ok, Hf).
  cbv zeta. unfold spec_repeat_rate, len.
  rewrite value_counts_length, value_counts_repeat, spec_customers_size, spec_repeaters_size.
  destruct (decide (length (unique (map customer_id (rows f))) = 0%nat)) as [E | E].
  - rewrite E. simpl. reflexivity.
  - rewrite decide_True by lia. unfold py_div. rewrite decide_False by lia.
    erewrite bind_ok by reflexivity. reflexivity.
Qed.

(** *** [calculate_metrics] *)

Section MetricsValues.

Variable P : pandas.
Variable parse_float : string → option Qc.
Variable parse_datetime : string → option timestamp.

Lemma calculate_metrics_value w l f :
  clean_df (self w) = Some l → heap w !! l = Some f →
  (∀ r, r ∈ rows_with_status "completed" (rows f) → is_text (order_amount r) = false) →
  let xs := map to_float (map order_amount (rows_with_status "completed" (rows f))) in
  (calculate_metrics P parse_float parse_datetime w).1 =
  match py_div (len (rows_with_status "cancelled" (rows f))) (len (rows f)) with
  | Ok c =>
      Ok (Metrics (sum_skipna P xs) (len (rows_with_status "completed" (rows f)))
                  (nunique (map customer_id (rows f)))
                  (mean_skipna P xs) (spec_repeat_rate (rows f)) (c * Qc_of 100)%Qc)
  | Raise e => Raise e
  end.
Proof.
  intros Hl Hf Htext xs. unfold calculate_metrics.
  erewrite bind_ok by (unfold ensure_clean, bind, get_self; rewrite Hl; reflexivity).
  erewrite bind_ok by (apply (with_status_run _ _ l f Hl Hf)).
  erewrite bind_ok by (apply column_ok; cbn [heap]; apply lookup_fresh).
  rewrite rows_with_status_frame.
  rewrite floats_ok.
  2: { intros c Hc. apply list_elem_of_fmap in Hc as (r & -> & Hr). by apply Htext. }
  erewrite bind_ok by reflexivity. cbv zeta.
  erewrite bind_ok by (apply read_ok; cbn [heap]; apply lookup_fresh).
  rewrite rows_with_status_frame.
  erewrite bind_ok by (apply the_clean_df_ok; exact Hl).
  erewrite bind_ok by (apply column_ok; cbn [heap]; apply lookup_old, Hf).
  erewrite bind_ok by (apply (repeat_rate_run _ l f); [exact Hl | cbn [heap]; apply lookup_old, Hf]).
  erewrite bind_ok
    by (apply (with_status_run _ _ l f); [exact Hl | cbn [heap]; apply lookup_old, Hf]).
  erewrite bind_ok by (apply read_ok; cbn [heap]; apply lookup_fresh).
  erewrite bind_ok by (apply the_clean_df_ok; exact Hl).
  erewrite bind_ok by (apply read_ok; cbn [heap]; do 2 apply lookup_old; exact Hf).
  rewrite rows_with_status_frame.
  destruct (py_div _ _) as [c | e].
  - erewrite bind_ok by reflexivity. reflexivity.
  - erewrite bind_raise by reflexivity. reflexivity.
Qed.

End MetricsValues.

(** *** Rates *)

Lemma this_Qc_of z : (this (Qc_of z) == inject_Z z)%Q.
Proof. unfold Qc_of. simpl. apply Qred_correct. Qed.

Lemma rate_bounds (a b : Z) :
  0 ≤ a ≤ b → 0 < b →
  (0 ≤ Qc_of a / Qc_of b * Qc_of 100)%Qc ∧ (Qc_of a / Qc_of b * Qc_of 100 ≤ Qc_of 100)%Qc.
Proof.
  intros [Ha Hab] Hb. unfold Qcle.
  assert (this (Qc_of a / Qc_of b * Qc_of 100)%Qc == inject_Z a / inject_Z b * inject_Z 100)%Q as E.
  { unfold Qcdiv, Qcmult, Qcinv. simpl. rewrite !Qred_correct. reflexivity. }
  rewrite E. rewrite this_Qc_of.
  assert (0 < inject_Z b)%Q as Hb' by (rewrite (Zlt_Qlt 0 b) in Hb; exact Hb).
  assert (0 <= inject_Z a)%Q as Ha' by (rewrite (Zle_Qle 0 a) in Ha; exact Ha).
  assert (inject_Z a <= inject_Z b)%Q as Hab' by (by rewrite <- Zle_Qle).
  generalize dependent (inject_Z b). generalize dependent (inject_Z a).
  intros qa Ha' qb E Hb' Hab'. clear E.
  assert (0 <= qa / qb)%Q as H0.
  { apply Qle_shift_div_l; [exact Hb' |]. lra. }
  assert (qa / qb <= 1)%Q as H1.
  { apply Qle_shift_div_r; [exact Hb' |]. lra. }
  change (inject_Z 100) with 100%Q. change (this 0%Qc) with 0%Q.
  split; nra.
Qed.

Lemma rows_with_status_length v rs : (length (rows_with_status v rs) ≤ length rs)%nat.
Proof. unfold rows_with_status. apply List.filter_length_le. Qed.

Lemma spec_repeat_rate_bounds t :
  (0 ≤ spec_repeat_rate t)%Qc ∧ (spec_repeat_rate t ≤ Qc_of 100)%Qc.
Proof.
  unfold spec_repeat_rate. cbv zeta. case_decide as E.
  - split; [apply Qcle_refl | by vm_compute].
  - apply rate_bounds; [| lia]. split; [lia |].
    rewrite spec_repeaters_size, spec_customers_size.
    apply inj_le, length_filter.
Qed.

Section MetricsClaims.

Variable P : pandas.
Variable parse_float : string → option Qc.
Variable parse_datetime : string → option timestamp.

Local Abbreviation calculate_metrics := (calculate_metrics P parse_float parse_datetime).

(** On a clean table that is not empty [calculate_metrics] returns, and
    both rates lie between 0 and 100. *)
Lemma rates_in_range w t :
  clean_table w = Some t → is_clean t → t ≠ [] →
  ∃ m, (calculate_metrics w).1 = Ok m ∧
       (0 ≤ repeat_customer_rate m)%Qc ∧ (repeat_customer_rate m ≤ Qc_of 100)%Qc ∧
       (0 ≤ cancellation_rate m)%Qc ∧ (cancellation_rate m ≤ Qc_of 100)%Qc.
Proof.
  intros Ht Hclean Hne. apply clean_table_inv in Ht as (l & f & Hl & Hf & <-).
  rewrite (calculate_metrics_value _ _ _ w l f Hl Hf).
  2: { intros r Hr. by apply (clean_amounts_float "completed" (rows f)). }
  unfold py_div. rewrite decide_False.
  2: { unfold len. destruct (rows f); [contradiction | simpl; lia]. }
  eexists. split; [reflexivity |]. cbn [repeat_customer_rate cancellation_rate].
  destruct (spec_repeat_rate_bounds (rows f)) as [H1 H2].
  split; [exact H1 |]. split; [exact H2 |].
  apply rate_bounds.
  - unfold len. split; [lia |]. apply inj_le, rows_with_status_length.
  - unfold len. destruct (rows f); [contradiction | simpl; lia].
Qed.

(** C2. When the clean table is empty, [customer_count] evaluates to 0 and
    [repeat_customer_rate] to 0, but the mean of no amounts is NaN and the
    cancellation rate divides by the number of records:
    [calculate_metrics] raises ZeroDivisionError instead of returning. *)
Theorem calculate_metrics_empty w :
  clean_table w = Some [] →
  (calculate_metrics w).1 = Raise ZeroDivisionError ∧
  nunique (map customer_id ([] : list record)) = 0 ∧
  mean_skipna P (map to_float (map order_amount (rows_with_status "completed" []))) = NaN ∧
  (_calculate_repeat_rate w).1 = Ok 0%Qc.
Proof.
  intros Ht. apply clean_table_inv in Ht as (l & f & Hl & Hf & Hrows).
  split; [| split; [reflexivity | split; [reflexivity |]]].
  - rewrite (calculate_metrics_value _ _ _ w l f Hl Hf).
    + rewrite Hrows. reflexivity.
    + rewrite Hrows. intros r Hr. inversion Hr.
  - rewrite (repeat_rate_run w l f Hl Hf). rewrite Hrows. reflexivity.
Qed.

End MetricsClaims.

Lemma calculate_metrics_empty_witness :
  clean_table empty_world = Some [] ∧
  (calculate_metrics binary64 sample_parse_float sample_parse_datetime empty_world).1
  = Raise ZeroDivisionError.
Proof.
  split; [reflexivity |].
  apply (calculate_metrics_empty binary64 sample_parse_float sample_parse_datetime empty_world).
  reflexivity.
Defined.

(** C7. On the empty clean table the repeat rate is defined (0), the
    cancellation rate is not: [calculate_metrics] raises where
    [_calculate_repeat_rate], which guards its division, returns. *)
Theorem cancellation_rate_empty (P : pandas) :
  clean_table empty_world = Some [] ∧
  (_calculate_repeat_rate empty_world).1 = Ok 0%Qc ∧
  (calculate_metrics P sample_parse_float sample_parse_datetime empty_world).1
  = Raise ZeroDivisionError.
Proof. vm_compute. auto. Qed.

(** *** The repeat rate of the specification *)





(** *** Revenue by group *)

Lemma head_all {A} (n : Z) (l : list A) : len l ≤ n → head n l = l.
Proof.
  unfold head, len. intros H. rewrite decide_True by lia. apply take_ge. lia.
Qed.

Lemma head_nat {A} (n : nat) (l : list A) : head (Z.of_nat n) l = take n l.
Proof. unfold head. rewrite decide_True by lia. by rewrite Nat2Z.id. Qed.

Lemma sorted_keys_perm col : sorted_keys col ≡ₚ unique col.
Proof. apply sort_by_perm. Qed.

Lemma sorted_keys_NoDup col : NoDup (sorted_keys col).
Proof. rewrite sorted_keys_perm. apply unique_NoDup. Qed.

Lemma elem_of_sorted_keys col k : k ∈ sorted_keys col ↔ Some k ∈ col.
Proof. rewrite sorted_keys_perm. apply elem_of_unique. Qed.

Lemma groups_partition key (C : list record) :
  filter (λ r, is_Some (key r)) C ≡ₚ
  concat (map (λ k, group_rows key k C) (sorted_keys (map key C))).
Proof.
  apply partition_by_keys; [apply sorted_keys_NoDup |].
  intros r k Hr E. apply elem_of_sorted_keys. rewrite <- E. apply list_elem_of_fmap. eauto.
Qed.

Lemma filter_keyed {A K} (key : A → option K) (l : list A) :
  (∀ x, x ∈ l → key x ≠ None) → filter (λ x, is_Some (key x)) l = l.
Proof.
  induction l as [| x l IH]; intros H; [reflexivity |].
  rewrite filter_cons. rewrite decide_True.
  - f_equal. apply IH. intros y Hy. apply H. by right.
  - destruct (key x) eqn:E; [eauto |]. exfalso. eapply H; [left | exact E].
Qed.

Lemma sort_values_desc_nil P : lawful P → sort_values_desc P [] = [].
Proof. intros HP. apply Permutation_nil. symmetry. apply (sort_values_desc_perm P HP). Qed.

Lemma head_nil {A} (n : Z) : head n ([] : list A) = [].
Proof. unfold head. case_decide; apply take_nil. Qed.

(** Without a completed record that has a category the ranking of the
    categories is empty. *)
Lemma top_categories_empty P w t n :
  lawful P → clean_table w = Some t → is_clean t →
  (∀ r, r ∈ t → status r = Some "completed" → product_category r = None) →
  (get_top_categories P n w).1 = Ok [].
Proof.
  intros HP Ht Hclean Hcat. apply clean_table_inv in Ht as (l & f & Hl & Hf & <-).
  rewrite (get_top_categories_value P n w l f Hl Hf).
  rewrite groupby_sum_ok.
  2: { intros r Hr. by apply (clean_amounts_float "completed" (rows f)). }
  destruct (sorted_keys (map product_category (rows_with_status "completed" (rows f))))
    as [| k ks] eqn:E.
  - simpl. by rewrite sort_values_desc_nil, head_nil.
  - assert (k ∈ sorted_keys (map product_category (rows_with_status "completed" (rows f))))
      as Hk by (rewrite E; left).
    apply elem_of_sorted_keys, list_elem_of_fmap in Hk as (r & Hk & Hr).
    apply elem_of_rows_with_status in Hr as [Hr Hs]. rewrite (Hcat r Hr Hs) in Hk. discriminate.
Qed.

(** The amounts of clean rows that are whole numbers are positive ones. *)
Lemma clean_units_pos rs :
  (∀ r, r ∈ rs → clean_row r = true) → whole_amounts rs → ∀ r, r ∈ rs → 0 < units r.
Proof.
  intros Hc Hw r Hr. specialize (Hc r Hr). apply clean_row_inv in Hc as (Ha & _).
  rewrite (Hw r Hr) in Ha. simpl in Ha. apply Qc_ltb_lt in Ha. by apply Qc_of_pos.
Qed.

(** Over whole amounts with a total below 2^53 every sum is exact. *)
Section WholeAmounts.

Variable P : pandas.
Hypothesis HP : lawful P.
Variable key : record → option string.
Variable C : list record.
Hypothesis Hwhole : whole_amounts C.
Hypothesis Hpos : ∀ r, r ∈ C → 0 ≤ units r.
Hypothesis Htotal : sum_Z (map units C) < 2 ^ 53.

Lemma whole_floats (L : list record) :
  (∀ r, r ∈ L → r ∈ C) →
  map (λ r, to_float (order_amount r)) L = map whole (map units L).
Proof.
  intros H. rewrite map_map. apply map_ext_in. intros r Hr%list_elem_of_In.
  by rewrite (Hwhole r (H r Hr)).
Qed.

Lemma units_nonneg (L : list record) :
  (∀ r, r ∈ L → r ∈ C) → ∀ z, z ∈ map units L → 0 ≤ z.
Proof. intros H z Hz. apply list_elem_of_fmap in Hz as (r & -> & Hr). auto. Qed.

Lemma group_rows_in k r : r ∈ group_rows key k C → r ∈ C.
Proof. unfold group_rows. intros Hr. by apply list_elem_of_filter in Hr as [_ ?]. Qed.

Lemma group_sum_whole k :
  group_sum P key k C = Qc_of (sum_Z (map units (group_rows key k C))).
Proof.
  unfold group_sum. rewrite whole_floats by apply group_rows_in.
  apply (sum_group_whole P HP).
  destruct (sum_abs_nonneg (map units (group_rows key k C))) as [-> _];
    [apply units_nonneg, group_rows_in |].
  eapply Z.le_lt_trans; [| exact Htotal]. by apply sum_Z_filter_le.
Qed.

Lemma total_whole :
  sum_skipna P (map (λ r, to_float (order_amount r)) C) = Qc_of (sum_Z (map units C)).
Proof.
  rewrite whole_floats by auto. apply (sum_skipna_whole P HP).
  by destruct (sum_abs_nonneg (map units C)) as [-> _]; [apply units_nonneg |].
Qed.

Lemma series_sum_whole (g : list (string * Qc)) :
  (∀ r, r ∈ C → key r ≠ None) →
  g ≡ₚ map (λ k, (k, group_sum P key k C)) (sorted_keys (map key C)) →
  series_sum P g = Qc_of (sum_Z (map units C)).
Proof.
  intros Hkey Hg.
  set (T := λ k, sum_Z (map units (group_rows key k C))).
  assert (∀ k, 0 ≤ T k) as HT
    by (intros k; apply sum_abs_nonneg, units_nonneg, group_rows_in).
  assert (map (λ kv : string * Qc, Fl kv.2) g = map whole (map (λ kv, T kv.1) g)) as E.
  { rewrite map_map. apply map_ext_in. intros kv Hkv%list_elem_of_In.
    rewrite Hg in Hkv. apply list_elem_of_fmap in Hkv as (k & -> & _).
    simpl. unfold whole. by rewrite group_sum_whole. }
  assert (sum_Z (map (λ kv, T kv.1) g) = sum_Z (map units C)) as Etot.
  { rewrite (sum_Z_perm _ _ (Permutation_map (λ kv, T kv.1) Hg)).
    rewrite map_map. cbn [fst]. unfold T.
    rewrite <- (map_map (λ k, map units (group_rows key k C)) sum_Z), <- sum_Z_concat.
    rewrite <- (map_map (λ k, group_rows key k C) (map units)), <- concat_map.
    rewrite <- (sum_Z_perm _ _ (Permutation_map units (groups_partition key C))).
    by rewrite filter_keyed. }
  unfold series_sum. rewrite E. rewrite (sum_skipna_whole P HP); [by rewrite Etot |].
  destruct (sum_abs_nonneg (map (λ kv, T kv.1) g)) as [-> _]; [| by rewrite Etot].
  intros z Hz. apply list_elem_of_fmap in Hz as (kv & -> & _). apply HT.
Qed.

End WholeAmounts.

Section RevenueClaims.

Variable P : pandas.
Variable parse_float : string → option Qc.
Variable parse_datetime : string → option timestamp.

Local Abbreviation calculate_metrics := (calculate_metrics P parse_float parse_datetime).

(** C3 (amended). For every clean table that is not empty and in which
    every completed record has a product category, [total_revenue] and the
    values [get_top_categories n] returns, [n] being at least the number of
    categories, are sums over the same records: [total_revenue] is the sum
    of the amounts of the completed records, every value is the sum of the
    amounts of the completed records of its category, and every completed
    record is in exactly one of these groups.  The sums are float sums,
    taken in different orders: when the amounts are whole numbers with a
    total below 2^53 no addition rounds and [total_revenue] equals the sum
    of the values; otherwise the two need not be equal. *)
Theorem revenue_consistency w t n :
  lawful P →
  clean_table w = Some t → is_clean t → t ≠ [] →
  (∀ r, r ∈ t → status r = Some "completed" → product_category r ≠ None) →
  len (unique (map product_category (rows_with_status "completed" t))) ≤ n →
  let completed := rows_with_status "completed" t in
  ∃ m g, (calculate_metrics w).1 = Ok m ∧ (get_top_categories P n w).1 = Ok g ∧
    total_revenue m = sum_skipna P (map (λ r, to_float (order_amount r)) completed) ∧
    (∀ k v, (k, v) ∈ g →
       v = sum_group P (map (λ r, to_float (order_amount r))
                            (group_rows product_category k completed))) ∧
    completed ≡ₚ concat (map (λ kv, group_rows product_category kv.1 completed) g) ∧
    (whole_amounts completed → sum_Z (map units completed) < 2 ^ 53 →
       total_revenue m = series_sum P g ∧
       total_revenue m = Qc_of (sum_Z (map units completed))).
Proof.
  intros HP Ht Hclean Hne Hcat Hn C. apply clean_table_inv in Ht as (l & f & Hl & Hf & <-).
  rewrite (calculate_metrics_value _ _ _ w l f Hl Hf).
  2: { intros r Hr. by apply (clean_amounts_float "completed" (rows f)). }
  rewrite (get_top_categories_value P n w l f Hl Hf).
  rewrite groupby_sum_ok.
  2: { intros r Hr. by apply (clean_amounts_float "completed" (rows f)). }
  unfold py_div. rewrite decide_False.
  2: { unfold len. destruct (rows f); [contradiction | simpl; lia]. }
  fold C. set (G := map (λ k, (k, group_sum P product_category k C)) (sorted_keys _)).
  pose proof (sort_values_desc_perm P HP G) as Hperm.
  assert (∀ r, r ∈ C → product_category r ≠ None) as Hkey.
  { intros r Hr. apply elem_of_rows_with_status in Hr as [Hr Hs]. by apply Hcat. }
  eexists. eexists. split; [reflexivity |]. split; [reflexivity |].
  cbn [total_revenue]. rewrite head_all.
  2: { unfold len in *. rewrite Hperm. unfold G. by rewrite length_map, sorted_keys_perm. }
  rewrite map_map.
  split; [reflexivity |]. split.
  { intros k v Hkv. rewrite Hperm in Hkv.
    apply list_elem_of_fmap in Hkv as (k' & [= -> ->] & _). reflexivity. }
  split.
  { rewrite (concat_fmap_perm _ _ _ Hperm). unfold G. rewrite map_map. cbn [fst].
    rewrite <- groups_partition. by rewrite filter_keyed. }
  intros Hw Htot.
  assert (∀ r, r ∈ C → 0 ≤ units r) as Hpos.
  { intros r Hr. apply Z.lt_le_incl. revert r Hr. apply clean_units_pos; [| exact Hw].
    intros r Hr. apply elem_of_rows_with_status in Hr as [Hr _]. by apply Hclean. }
  rewrite (total_whole P HP C Hw Hpos Htot).
  by rewrite (series_sum_whole P HP product_category C Hw Hpos Htot _ Hkey Hperm).
Qed.

End RevenueClaims.

Lemma cleaned_world_table rs :
  (∀ r, r ∈ rs → is_text (quantity r) = false) →
  clean_table (cleaned_world rs) =
  Some (cleaned_rows sample_parse_float sample_parse_datetime rs).
Proof.
  intros Hq. unfold cleaned_world.
  destruct (clean_data_total sample_parse_float sample_parse_datetime
              (World [] (Analyzer None None) (Ok rs)) (Frame rs None))
    as (l & w' & Hrun).
  - reflexivity.
  - intros r Hr. rewrite rows_stage_amount in Hr.
    apply elem_of_list_filter in Hr as [Hr _].
    apply list_elem_of_fmap in Hr as (r0 & -> & Hr). simpl in *. by apply Hq.
  - rewrite Hrun. cbn [snd].
    apply clean_data_returns in Hrun as (f & f' & Hf & Hl & Hc & Hrows).
    injection Hf as <-. unfold clean_table. rewrite Hc, Hl. simpl. by rewrite Hrows.
Qed.

Lemma revenue_consistency_witness :
  ∃ m g,
    (calculate_metrics binary64 sample_parse_float sample_parse_datetime
       (cleaned_world sample_rows)).1 = Ok m ∧
    (get_top_categories binary64 5 (cleaned_world sample_rows)).1 = Ok g ∧
    total_revenue m = series_sum binary64 g ∧ total_revenue m = Qc_of 400.
Proof.
  destruct (revenue_consistency binary64 sample_parse_float sample_parse_datetime
              (cleaned_world sample_rows)
              (cleaned_rows sample_parse_float sample_parse_datetime sample_rows) 5)
    as (m & g & Hm & Hg & _ & _ & _ & Hexact).
  - apply binary64_lawful.
  - reflexivity.
  - apply cleaned_rows_clean.
  - discriminate.
  - vm_compute. intros r Hr. repeat (apply elem_of_cons in Hr as [-> | Hr]; [discriminate |]).
    inversion Hr.
  - vm_compute. discriminate.
  - exists m, g. split; [exact Hm |]. split; [exact Hg |]. apply Hexact.
    + vm_compute. intros r Hr.
      repeat (apply elem_of_cons in Hr as [-> | Hr]; [reflexivity |]). inversion Hr.
    + vm_compute. reflexivity.
Defined.

(** C3 as stated fails: a completed record without a category counts in
    [total_revenue] and in no group, whatever the library. *)
Lemma revenue_consistency_counterexample :
  ∃ t,
    clean_table (cleaned_world uncategorised_rows) = Some t ∧ is_clean t ∧
    len (unique (map product_category (rows_with_status "completed" t))) ≤ 5 ∧
    ∀ P, lawful P →
      ∃ m g,
        (calculate_metrics P sample_parse_float sample_parse_datetime
           (cleaned_world uncategorised_rows)).1 = Ok m ∧
        (get_top_categories P 5 (cleaned_world uncategorised_rows)).1 = Ok g ∧
        total_revenue m = Qc_of 100 ∧ series_sum P g = 0%Qc ∧
        total_revenue m ≠ series_sum P g.
Proof.
  exists (cleaned_rows sample_parse_float sample_parse_datetime uncategorised_rows).
  split; [reflexivity |]. split; [apply cleaned_rows_clean |].
  split; [vm_compute; discriminate |].
  intros P HP.
  pose proof (cleaned_rows_clean sample_parse_float sample_parse_datetime uncategorised_rows)
    as Hclean.
  assert (clean_table (cleaned_world uncategorised_rows) =
          Some (cleaned_rows sample_parse_float sample_parse_datetime uncategorised_rows))
    as Ht by reflexivity.
  apply clean_table_inv in Ht as (l & f & Hl & Hf & Hrows).
  pose proof (calculate_metrics_value P sample_parse_float sample_parse_datetime
                _ l f Hl Hf) as Hm.
  rewrite Hrows in Hm. cbv zeta in Hm.
  rewrite Hm by (intros r Hr; by eapply clean_amounts_float).
  replace (py_div _ _) with (Ok 0%Qc) by (vm_compute; reflexivity).
  eexists. exists []. split; [reflexivity |].
  split.
  { apply (top_categories_empty P (cleaned_world uncategorised_rows)
             (cleaned_rows sample_parse_float sample_parse_datetime uncategorised_rows)
             5 HP eq_refl Hclean).
    vm_compute. intros r Hr. repeat (apply elem_of_cons in Hr as [-> | Hr]; [reflexivity |]).
    inversion Hr. }
  cbn [total_revenue].
  replace (map to_float (map order_amount (rows_with_status "completed" _)))
    with (map whole [100]) by (vm_compute; reflexivity).
  rewrite (sum_skipna_whole P HP) by (vm_compute; reflexivity).
  unfold series_sum. rewrite (sum_skipna_nothing P HP) by reflexivity.
  split; [reflexivity |]. split; [reflexivity |].
  intros H. apply (f_equal this) in H. vm_compute in H. discriminate.
Qed.

(** Nor does it hold once every completed record has a category: with the
    amounts 0.1, 0.2 and 0.3 in three categories a library that adds in
    binary64 from left to right finds 0.1 + 0.2 + 0.3 for the revenue and
    0.3 + 0.2 + 0.1 for the categories, which round differently. *)
Lemma revenue_rounding :
  ∃ t m g,
    clean_table (cleaned_world tenth_rows) = Some t ∧ is_clean t ∧ lawful binary64 ∧
    (∀ r, r ∈ t → status r = Some "completed" ∧ product_category r ≠ None) ∧
    (calculate_metrics binary64 sample_parse_float sample_parse_datetime
       (cleaned_world tenth_rows)).1 = Ok m ∧
    (get_top_categories binary64 5 (cleaned_world tenth_rows)).1 = Ok g ∧
    map fst g = ["Sports"; "Garden"; "Books"] ∧
    total_revenue m ≠ series_sum binary64 g.
Proof.
  exists (cleaned_rows sample_parse_float sample_parse_datetime tenth_rows).
  eexists. eexists.
  split; [reflexivity |]. split; [apply cleaned_rows_clean |].
  split; [apply binary64_lawful |].
  split.
  { vm_compute. intros r Hr.
    repeat (apply elem_of_cons in Hr as [-> | Hr]; [split; [reflexivity | discriminate] |]).
    inversion Hr. }
  split; [vm_compute; reflexivity |]. split; [vm_compute; reflexivity |].
  split; [reflexivity |].
  intros H. apply (f_equal this) in H. vm_compute in H. discriminate.
Qed.

(** *** Rankings *)

Lemma string_leb_trans (x y z : string) :
  String.leb x y = true → String.leb y z = true → String.leb x z = true.
Proof.
  intros H1 H2. apply Is_true_true. apply Is_true_true in H1, H2.
  exact (transitivity (R:=String.le) H1 H2).
Qed.

(** [groupby] hands the groups over in ascending order of their key. *)
Lemma sorted_keys_sorted col :
  StronglySorted (λ a b, String.leb a b = true ∧ a ≠ b) (sorted_keys col).
Proof.
  apply StronglySorted_NoDup; [| apply sorted_keys_NoDup].
  unfold sorted_keys.
  eapply (StronglySorted_weaken (sorted_then String.leb (λ _ _, True))).
  { intros a b _ _ [H _]. exact H. }
  apply sort_by_sorted; [apply String.leb_total | apply string_leb_trans |].
  apply always_sorted.
Qed.

Lemma ranked_groups P key t :
  lawful P →
  (∀ r, r ∈ rows_with_status "completed" t → is_text (order_amount r) = false) →
  ∃ L, groupby_sum P key (rows_with_status "completed" t) = Ok L ∧
       ranked P key t (sort_values_desc P L).
Proof.
  intros HP Htext. rewrite (groupby_sum_ok P key _ Htext). eexists. split; [reflexivity |].
  set (C := rows_with_status "completed" t).
  set (G := map (λ k, (k, group_sum P key k C)) (sorted_keys (map key C))).
  assert (map fst G = sorted_keys (map key C)) as HG.
  { unfold G. rewrite map_map. simpl. apply map_id. }
  unfold ranked. fold C. split; [| split].
  - rewrite (sort_values_desc_perm P HP G), HG. apply sorted_keys_NoDup.
  - intros k v. rewrite (sort_values_desc_perm P HP G). unfold G.
    rewrite list_elem_of_fmap. split.
    + intros (k' & [= -> ->] & Hk). split; [by apply elem_of_sorted_keys | reflexivity].
    + intros [Hk ->]. exists k. split; [reflexivity | by apply elem_of_sorted_keys].
  - apply (sort_values_desc_sorted P HP).
Qed.

(** C5 (amended). For every clean table and every [n],
    [get_top_categories n] and [get_top_customers n] return the first [n]
    of the sums per group over the completed records, no revenue before a
    larger one.  The order of groups of equal revenue is the library's:
    the code asks [sort_values] for its default sort, which is not stable,
    and hands it the groups in ascending order of their key. *)
Theorem top_groups_ranked P w t (n : nat) :
  lawful P →
  clean_table w = Some t → is_clean t →
  ∃ Lc Lu,
    (get_top_categories P (Z.of_nat n) w).1 = Ok (take n Lc) ∧ ranked P product_category t Lc ∧
    (get_top_customers P (Z.of_nat n) w).1 = Ok (take n Lu) ∧ ranked P customer_id t Lu.
Proof.
  intros HP Ht Hclean. apply clean_table_inv in Ht as (l & f & Hl & Hf & <-).
  assert (∀ r, r ∈ rows_with_status "completed" (rows f) → is_text (order_amount r) = false)
    as Htext by (intros r Hr; by apply (clean_amounts_float "completed" (rows f))).
  destruct (ranked_groups P product_category (rows f) HP Htext) as (Gc & Hc & Hrc).
  destruct (ranked_groups P customer_id (rows f) HP Htext) as (Gu & Hu & Hru).
  exists (sort_values_desc P Gc), (sort_values_desc P Gu).
  rewrite (get_top_categories_value P _ w l f Hl Hf), Hc.
  rewrite (get_top_customers_value P _ w l f Hl Hf), Hu.
  rewrite !head_nat. auto.
Qed.

Lemma top_groups_ranked_witness :
  ∃ Lc Lu,
    (get_top_categories binary64 1 (cleaned_world sample_rows)).1 = Ok (take 1 Lc) ∧
    ranked binary64 product_category
      (cleaned_rows sample_parse_float sample_parse_datetime sample_rows) Lc ∧
    (get_top_customers binary64 1 (cleaned_world sample_rows)).1 = Ok (take 1 Lu) ∧
    ranked binary64 customer_id
      (cleaned_rows sample_parse_float sample_parse_datetime sample_rows) Lu.
Proof.
  apply (top_groups_ranked binary64 (cleaned_world sample_rows)
           (cleaned_rows sample_parse_float sample_parse_datetime sample_rows) 1).
  - apply binary64_lawful.
  - reflexivity.
  - apply cleaned_rows_clean.
Defined.

(** Two groups with the same amounts, in the order of the specification:
    the one met first comes first. *)
Lemma spec_top_tie P key t k1 k2 :
  List.filter (λ k, bool_decide (Some k ∈ map key (rows_with_status "completed" t)))
              (unique (map key t)) = [k1; k2] →
  map (λ r, to_float (order_amount r)) (group_rows key k1 (rows_with_status "completed" t)) =
  map (λ r, to_float (order_amount r)) (group_rows key k2 (rows_with_status "completed" t)) →
  map fst (spec_top P key 2 t) = [k1; k2].
Proof.
  intros Hk Hv. unfold spec_top. cbv zeta. rewrite Hk. cbn [map]. unfold group_sum.
  rewrite Hv.
  generalize (sum_group P (map (λ r, to_float (order_amount r))
                             (group_rows key k2 (rows_with_status "completed" t)))).
  intros v. unfold sort_stable_desc. cbn -[Qc_leb].
  replace (Qc_leb v v) with true by (symmetry; apply Qc_leb_le, Qcle_refl). reflexivity.
Qed.

(** C5 as stated fails.  With two categories of equal revenue, "Sports"
    met first, a library that sorts stably puts "Books" first; and whatever
    the library does with equal revenues, it is handed the same groups when
    the two records come in the other order, so that its ranking cannot be
    in the order of first encounter for both tables. *)
Lemma top_groups_counterexample :
  ∃ t t', clean_table (cleaned_world tie_rows) = Some t ∧ is_clean t ∧
          clean_table (cleaned_world (rev tie_rows)) = Some t' ∧ is_clean t' ∧
          lawful binary64 ∧
          map fst (spec_top binary64 product_category 1 t) = ["Sports"] ∧
          (get_top_categories binary64 1 (cleaned_world tie_rows)).1
          = Ok [("Books", group_sum binary64 product_category "Books" t)] ∧
          (get_top_categories binary64 1 (cleaned_world tie_rows)).1
          ≠ Ok (spec_top binary64 product_category 1 t) ∧
          (∀ P n, (get_top_categories P n (cleaned_world tie_rows)).1
                  = (get_top_categories P n (cleaned_world (rev tie_rows))).1) ∧
          (∀ P, map fst (spec_top P product_category 2 t) = ["Sports"; "Books"] ∧
                map fst (spec_top P product_category 2 t') = ["Books"; "Sports"]).
Proof.
  exists (cleaned_rows sample_parse_float sample_parse_datetime tie_rows),
         (cleaned_rows sample_parse_float sample_parse_datetime (rev tie_rows)).
  split; [reflexivity |]. split; [apply cleaned_rows_clean |].
  split; [reflexivity |]. split; [apply cleaned_rows_clean |].
  split; [apply binary64_lawful |].
  split; [reflexivity |]. split; [vm_compute; reflexivity |].
  split; [intros H; vm_compute in H; discriminate H |].
  split; [intros P n; vm_compute; reflexivity |].
  intros P. split; apply spec_top_tie; vm_compute; reflexivity.
Qed.

(** The order of equal revenues is not fixed: two lawful libraries rank the
    two categories of [tie_rows] in opposite orders. *)
Lemma tie_order_open :
  lawful binary64 ∧ lawful binary64_reversed ∧
  ∃ v, (get_top_categories binary64 2 (cleaned_world tie_rows)).1
       = Ok [("Books", v); ("Sports", v)] ∧
       (get_top_categories binary64_reversed 2 (cleaned_world tie_rows)).1
       = Ok [("Sports", v); ("Books", v)].
Proof.
  split; [apply binary64_lawful |]. split; [apply binary64_reversed_lawful |].
  eexists. split; vm_compute; reflexivity.
Qed.

(** *** The frame of the Metrics Engine *)

Section EngineClaims.

Variable P : pandas.
Variable parse_float : string → option Qc.
Variable parse_datetime : string → option timestamp.

Local Abbreviation calculate_metrics := (calculate_metrics P parse_float parse_datetime).
Local Abbreviation answer_business_questions :=
  (answer_business_questions P parse_float parse_datetime).
Local Abbreviation get_top_categories := (get_top_categories P).
Local Abbreviation get_top_customers := (get_top_customers P).
Local Abbreviation analyze_seasonal_trends := (analyze_seasonal_trends P).

(** C9. Every operation of the Metrics Engine leaves the clean table as it
    was: after the call [self.clean_df] is the same frame object with the
    same content, whether the call returns or raises; the month column of
    [analyze_seasonal_trends] goes to the filtered copy. *)
Theorem metrics_engine_frame w l f (n k : Z) :
  clean_df (self w) = Some l → heap w !! l = Some f →
  let unchanged (w' : world) := clean_df (self w') = Some l ∧ heap w' !! l = Some f in
  unchanged (calculate_metrics w).2 ∧
  unchanged (get_top_categories n w).2 ∧
  unchanged (get_top_customers k w).2 ∧
  unchanged (analyze_seasonal_trends w).2 ∧
  unchanged (answer_business_questions w).2.
Proof.
  intros Hl Hf unchanged. unfold unchanged.
  split; [apply framed_clean_table; [intros; apply framed_calculate_metrics | done | done] |].
  split; [apply framed_clean_table; [intros; apply framed_get_top_categories | done | done] |].
  split; [apply framed_clean_table; [intros; apply framed_get_top_customers | done | done] |].
  split; [apply framed_clean_table; [intros; apply framed_analyze_seasonal_trends | done | done] |].
  apply framed_clean_table; [intros; apply framed_answer_business_questions | done | done].
Qed.

Lemma analyze_seasonal_trends_ok w l f :
  clean_df (self w) = Some l → heap w !! l = Some f → is_clean (rows f) →
  ∃ trends, (analyze_seasonal_trends w).1 = Ok trends.
Proof.
  intros Hl Hf Hclean. unfold analyze_seasonal_trends.
  erewrite bind_ok by (apply (with_status_run _ _ l f Hl Hf)).
  erewrite bind_ok by (apply column_ok; cbn [heap]; apply lookup_fresh).
  rewrite rows_with_status_frame.
  assert (dt_to_period (map order_date (rows_with_status "completed" (rows f))) =
          Ok (map to_period (map order_date (rows_with_status "completed" (rows f))))) as ->.
  { unfold dt_to_period.
    replace (existsb is_dtext (map order_date (rows_with_status "completed" (rows f))))
      with false; [reflexivity |].
    symmetry. apply existsb_false_iff. intros c Hc.
    apply list_elem_of_fmap in Hc as (r & -> & Hr).
    apply elem_of_rows_with_status in Hr as [Hr _].
    destruct Hclean as [Hrow _]. apply Hrow in Hr. apply clean_row_inv in Hr. tauto. }
  erewrite bind_ok by reflexivity.
  erewrite bind_ok by (apply modify_ok; cbn [heap]; apply lookup_fresh).
  cbn [heap self source]. rewrite insert_fresh.
  erewrite bind_ok by (apply read_ok; cbn [heap]; apply lookup_fresh).
  cbn [rows month]. rewrite rows_with_status_frame.
  unfold groupby_month_sum, lift.
  replace (existsb is_text (map order_amount (rows_with_status "completed" (rows f))))
    with false; [cbn [fst]; eauto |].
  symmetry. apply existsb_false_iff. intros c Hc.
  apply list_elem_of_fmap in Hc as (r & -> & Hr).
  by apply (clean_amounts_float "completed" (rows f)).
Qed.

Lemma top_defined key (n : Z) t r k :
  lawful P →
  (∀ r, r ∈ rows_with_status "completed" t → is_text (order_amount r) = false) →
  r ∈ rows_with_status "completed" t → key r = Some k → 0 < n →
  ∃ g kv rest, groupby_sum P key (rows_with_status "completed" t) = Ok g ∧
               head n (sort_values_desc P g) = kv :: rest.
Proof.
  intros HP Htext Hr Hk Hn. rewrite (groupby_sum_ok P key _ Htext).
  set (G := map _ (sorted_keys _)).
  assert (length (sort_values_desc P G) ≠ 0%nat) as Hlen.
  { rewrite (Permutation_length (sort_values_desc_perm P HP G)). unfold G.
    rewrite length_map.
    assert (k ∈ sorted_keys (map key (rows_with_status "completed" t))) as Hin.
    { apply elem_of_sorted_keys. rewrite <- Hk. apply list_elem_of_fmap. eauto. }
    destruct (sorted_keys (map key (rows_with_status "completed" t))); [inversion Hin |].
    discriminate. }
  exists G. destruct (sort_values_desc P G) as [| kv rest]; [contradiction |].
  unfold head. rewrite decide_True by lia.
  destruct (Z.to_nat n) as [| m] eqn:E; [lia |]. simpl. eauto.
Qed.

(** C10 (amended). For every clean table with at least one completed
    record that has a product category, [answer_business_questions]
    returns its eight answers, and "Most Profitable Category" is the first
    key of [get_top_categories 1]. *)
Theorem answer_business_questions_defined w t :
  lawful P →
  clean_table w = Some t → is_clean t →
  (∃ r, r ∈ t ∧ status r = Some "completed" ∧ product_category r ≠ None) →
  ∃ a top, (answer_business_questions w).1 = Ok a ∧
           (get_top_categories 1 w).1 = Ok top ∧
           index0 top = Ok (q4_most_profitable_category a).
Proof.
  intros HP Ht Hclean (r & Hr & Hs & Hcat).
  apply clean_table_inv in Ht as (l & f & Hl & Hf & <-).
  assert (∀ r, r ∈ rows_with_status "completed" (rows f) → is_text (order_amount r) = false)
    as Htext by (intros r' Hr'; by apply (clean_amounts_float "completed" (rows f))).
  assert (r ∈ rows_with_status "completed" (rows f)) as HrC
    by (by apply elem_of_rows_with_status).
  destruct (product_category r) as [c |] eqn:Hc; [clear Hcat | contradiction].
  (* calculate_metrics *)
  destruct (rates_in_range P parse_float parse_datetime w (rows f)) as (m & Hm & _).
  { unfold clean_table. by rewrite Hl, Hf. }
  { exact Hclean. }
  { intros E. rewrite E in Hr. inversion Hr. }
  destruct (framed_clean_table calculate_metrics w l f) as [Hl1 Hf1];
    [intros; apply framed_calculate_metrics | done | done |].
  destruct (calculate_metrics w) as [r1 w1] eqn:E1. cbn [fst snd] in *. subst r1.
  (* get_top_categories *)
  destruct (top_defined product_category 1 (rows f) r c HP Htext HrC Hc)
    as (g & kv & rest & Hg & Htop); [lia |].
  pose proof (get_top_categories_value P 1 w1 l f Hl1 Hf1) as Hv1.
  pose proof (get_top_categories_value P 1 w l f Hl Hf) as Hv.
  rewrite Hg, Htop in Hv1, Hv.
  destruct (framed_clean_table (get_top_categories 1) w1 l f) as [Hl2 Hf2];
    [intros; apply framed_get_top_categories | done | done |].
  destruct (get_top_categories 1 w1) as [r2 w2] eqn:E2. cbn [fst snd] in *. subst r2.
  (* get_top_customers *)
  pose proof (get_top_customers_value P 10 w2 l f Hl2 Hf2) as Hv3.
  rewrite (groupby_sum_ok P customer_id _ Htext) in Hv3.
  destruct (framed_clean_table (get_top_customers 10) w2 l f) as [Hl3 Hf3];
    [intros; apply framed_get_top_customers | done | done |].
  destruct (get_top_customers 10 w2) as [r3 w3] eqn:E3. cbn [fst snd] in *. subst r3.
  (* analyze_seasonal_trends *)
  destruct (analyze_seasonal_trends_ok w3 l f Hl3 Hf3 Hclean) as (trends & Htr).
  destruct (analyze_seasonal_trends w3) as [r4 w4] eqn:E4. cbn [fst] in Htr. subst r4.
  unfold answer_business_questions.
  erewrite bind_ok by exact E1. erewrite bind_ok by exact E2.
  erewrite bind_ok by reflexivity.
  erewrite bind_ok by exact E3. erewrite bind_ok by exact E4.
  eexists. exists (kv :: rest). split; [reflexivity |]. split; [exact Hv | reflexivity].
Qed.

(** Without a completed record that has a category the report fails: the
    ranking of the categories is empty and has no first index. *)
Lemma answer_business_questions_undefined w t :
  lawful P →
  clean_table w = Some t → is_clean t → t ≠ [] →
  (∀ r, r ∈ t → status r = Some "completed" → product_category r = None) →
  (get_top_categories 1 w).1 = Ok [] ∧
  (answer_business_questions w).1 = Raise IndexError.
Proof.
  intros HP Ht Hclean Hne Hcat.
  split; [by apply (top_categories_empty P w t 1) |].
  destruct (rates_in_range P parse_float parse_datetime w t Ht Hclean Hne) as (m & Hm & _).
  apply clean_table_inv in Ht as (l & f & Hl & Hf & <-).
  destruct (framed_clean_table calculate_metrics w l f) as [Hl1 Hf1];
    [intros; apply framed_calculate_metrics | done | done |].
  destruct (calculate_metrics w) as [r1 w1] eqn:E1. cbn [fst snd] in *. subst r1.
  assert ((get_top_categories 1 w1).1 = Ok []) as Htop.
  { apply (top_categories_empty P w1 (rows f) 1 HP); [| exact Hclean | exact Hcat].
    unfold clean_table. by rewrite Hl1, Hf1. }
  destruct (get_top_categories 1 w1) as [r2 w2] eqn:E2. cbn [fst] in Htop. subst r2.
  unfold answer_business_questions.
  erewrite bind_ok by exact E1. erewrite bind_ok by exact E2.
  erewrite bind_raise by reflexivity. reflexivity.
Qed.

End EngineClaims.

Lemma metrics_engine_frame_witness :
  let w := cleaned_world sample_rows in
  let unchanged (w' : world) := clean_df (self w') = clean_df (self w) ∧
                                heap w' !! 4%nat = heap w !! 4%nat in
  clean_df (self w) = Some 4%nat ∧
  unchanged (calculate_metrics binary64 sample_parse_float sample_parse_datetime w).2 ∧
  unchanged (analyze_seasonal_trends binary64 w).2.
Proof.
  intros w unchanged.
  destruct (metrics_engine_frame binary64 sample_parse_float sample_parse_datetime w 4%nat
              (default (Frame [] None) (heap w !! 4%nat)) 5 10)
    as (H1 & _ & _ & H4 & _); [reflexivity | reflexivity |].
  split; [reflexivity |]. split; [exact H1 | exact H4].
Defined.

Lemma answer_business_questions_defined_witness :
  ∃ a top,
    (answer_business_questions binary64 sample_parse_float sample_parse_datetime
       (cleaned_world sample_rows)).1 = Ok a ∧
    (get_top_categories binary64 1 (cleaned_world sample_rows)).1 = Ok top ∧
    index0 top = Ok (q4_most_profitable_category a).
Proof.
  apply (answer_business_questions_defined binary64 sample_parse_float sample_parse_datetime
           (cleaned_world sample_rows)
           (cleaned_rows sample_parse_float sample_parse_datetime sample_rows)).
  - apply binary64_lawful.
  - reflexivity.
  - apply cleaned_rows_clean.
  - exists (coerce sample_parse_float sample_parse_datetime
              (order "ORD1" "CUST1" "2023-01-15" "Books" 100 (Some "completed"))).
    split; [vm_compute; left | split; [reflexivity | discriminate]].
Defined.

(** C10 as stated fails: the only completed record has no category, the
    ranking is empty and its first index does not exist, whatever the
    library. *)
Lemma answer_business_questions_counterexample :
  ∃ t r, clean_table (cleaned_world uncategorised_rows) = Some t ∧ is_clean t ∧
         r ∈ t ∧ status r = Some "completed" ∧
         ∀ P, lawful P →
           (get_top_categories P 1 (cleaned_world uncategorised_rows)).1 = Ok [] ∧
           (answer_business_questions P sample_parse_float sample_parse_datetime
              (cleaned_world uncategorised_rows)).1 = Raise IndexError.
Proof.
  exists (cleaned_rows sample_parse_float sample_parse_datetime uncategorised_rows).
  eexists. split; [reflexivity |]. split; [apply cleaned_rows_clean |].
  split; [vm_compute; left |]. split; [reflexivity |].
  intros P HP.
  apply (answer_business_questions_undefined P sample_parse_float sample_parse_datetime
           (cleaned_world uncategorised_rows)
           (cleaned_rows sample_parse_float sample_parse_datetime uncategorised_rows)
           HP eq_refl).
  - apply cleaned_rows_clean.
  - discriminate.
  - vm_compute. intros r Hr. repeat (apply elem_of_cons in Hr as [-> | Hr]; [reflexivity |]).
    inversion Hr.
Qed.

(** * Further properties of the analyzer *)

Lemma list_filter_sublist {A} (p : A → bool) (l : list A) :
  List.filter p l `sublist_of` l.
Proof.
  induction l as [| x l IH]; simpl; [constructor |].
  destruct (p x); by constructor.
Qed.

Lemma select_sublist {A} (mask : list bool) (l : list A) :
  select mask l `sublist_of` l.
Proof.
  revert mask. induction l as [| x l IH]; intros [| b mask]; simpl;
    try apply sublist_nil_l.
  destruct b; by constructor.
Qed.

Lemma existsb_true_iff {A} (p : A → bool) (l : list A) :
  existsb p l = true ↔ ∃ x, x ∈ l ∧ p x = true.
Proof.
  rewrite existsb_exists. split; intros (x & Hx & Hp); exists x;
    (split; [by apply list_elem_of_In | exact Hp]).
Qed.

(** The monad laws the proofs use. *)
Lemma bind_assoc {A B C} (m : M A) (k : A → M B) (k' : B → M C) w :
  bind (bind m k) k' w = bind m (λ a, bind (k a) k') w.
Proof. unfold bind. destruct (m w) as [[a | e] w1]; reflexivity. Qed.

Lemma bind_ext {A B} (m : M A) (k k' : A → M B) w :
  (∀ a w1, k a w1 = k' a w1) → bind m k w = bind m k' w.
Proof. intros H. unfold bind. destruct (m w) as [[a | e] w1]; [apply H | reflexivity]. Qed.

Lemma bind_cong_l {A B} (m m' : M A) (k : A → M B) w :
  m w = m' w → bind m k w = bind m' k w.
Proof. unfold bind. by intros ->. Qed.

Section LazyClean.

Variable parse_float : string → option Qc.
Variable parse_datetime : string → option timestamp.

(** Without a clean table [ensure_clean] is [clean_data]. *)
Lemma ensure_clean_lazy {A} (k : unit → M A) w :
  clean_df (self w) = None →
  bind (ensure_clean parse_float parse_datetime) k w =
  bind (clean_data parse_float parse_datetime)
       (λ _, bind (ensure_clean parse_float parse_datetime) k) w.
Proof.
  intros Hclean. unfold ensure_clean at 1.
  rewrite bind_assoc. erewrite bind_ok by reflexivity. cbv beta. rewrite Hclean.
  rewrite bind_assoc. unfold bind at 1 3.
  destruct (clean_data parse_float parse_datetime w) as [[l | e] w1] eqn:E; [| reflexivity].
  apply clean_data_returns in E as (_ & _ & _ & _ & Hc & _).
  erewrite bind_ok by reflexivity.
  symmetry. apply bind_ok. unfold ensure_clean, bind, get_self. by rewrite Hc.
Qed.

End LazyClean.

Section CleanerExtras.

Variable P : pandas.
Variable parse_float : string → option Qc.
Variable parse_datetime : string → option timestamp.

Local Abbreviation clean_data := (clean_data parse_float parse_datetime).
Local Abbreviation coerce := (coerce parse_float parse_datetime).
Local Abbreviation calculate_metrics := (calculate_metrics P parse_float parse_datetime).
Local Abbreviation answer_business_questions :=
  (answer_business_questions P parse_float parse_datetime).

(** X1. [clean_data] works on a copy: every frame that existed before the call,
    the raw one included, is still in the store with the same content
    afterwards, [self.raw_df] still refers to the same frame, and this
    holds whether the call returns or raises. *)
Theorem clean_data_keeps_store w :
  (∀ i f, heap w !! i = Some f → heap (clean_data w).2 !! i = Some f) ∧
  (∀ l, raw_df (self w) = Some l → raw_df (self (clean_data w).2) = Some l) ∧
  source (clean_data w).2 = source w.
Proof.
  destruct (raw_frame w) as [f |] eqn:Hf.
  2: { destruct (clean_data_none parse_float parse_datetime w Hf) as [e ->]. auto. }
  unfold raw_frame in Hf. destruct (raw_df (self w)) as [l |] eqn:Hraw.
  - rewrite (clean_data_run parse_float parse_datetime w l f Hraw Hf).
    destruct (gt_zero _); cbn [snd heap self source raw_df];
      (split; [intros i g Hg; by apply lookup_old | split; [by rewrite ?Hraw | reflexivity]]).
  - destruct (source w) as [rs |] eqn:Hsrc; [| discriminate]. injection Hf as <-.
    rewrite (clean_data_load parse_float parse_datetime w rs Hraw Hsrc).
    erewrite clean_data_run; [| reflexivity | cbn [heap]; apply lookup_fresh].
    destruct (gt_zero _); cbn [snd heap self source raw_df];
      (split; [intros i g Hg; by do 2 apply lookup_old | split; [discriminate | by rewrite Hsrc]]).
Qed.

(** X2. [clean_data] raises only a TypeError, and exactly when a row whose
    coerced amount is positive still holds text in [quantity], which the
    source compares with 0 without coercing it; [self.clean_df] is then left
    as it was. *)
Theorem clean_data_type_error w f :
  raw_frame w = Some f →
  ((∃ e, (clean_data w).1 = Raise e) ↔
   ∃ r, r ∈ rows f ∧
        float_gt0 (to_float (to_numeric parse_float (order_amount r))) = true ∧
        is_text (quantity r) = true) ∧
  (∀ e, (clean_data w).1 = Raise e →
        e = TypeError ∧ clean_df (self (clean_data w).2) = clean_df (self w)).
Proof.
  intros Hf. destruct (clean_data_spec parse_float parse_datetime w f Hf) as (h & _ & raw & ->).
  assert (existsb is_text (map quantity (rows (stage_amount parse_float parse_datetime f))) = true ↔
          ∃ r, r ∈ rows f ∧
               float_gt0 (to_float (to_numeric parse_float (order_amount r))) = true ∧
               is_text (quantity r) = true) as Hex.
  { rewrite existsb_true_iff, rows_stage_amount. split.
    - intros (c & Hc & Ht). apply list_elem_of_fmap in Hc as (r & -> & Hr).
      apply elem_of_list_filter in Hr as [Hr Ha].
      apply list_elem_of_fmap in Hr as (r0 & -> & Hr). eauto.
    - intros (r & Hr & Ha & Ht). exists (quantity r). split; [| exact Ht].
      apply list_elem_of_fmap. exists (coerce r). split; [reflexivity |].
      apply elem_of_list_filter. split; [| exact Ha].
      apply list_elem_of_fmap. eauto. }
  unfold gt_zero in *.
  destruct (existsb is_text (map quantity (rows (stage_amount parse_float parse_datetime f)))).
  - split.
    + split; [intros _; by apply Hex | eauto].
    + intros e [= <-]. auto.
  - split.
    + split; [intros [e [=]] |]. intros H. apply Hex in H. discriminate.
    + intros e [=].
Qed.

(** X3. The clean table is the coerced raw table with rows left out: the rows
    that remain keep their order, and none is added. *)
Theorem clean_table_sublist w l w' :
  clean_data w = (Ok l, w') →
  ∃ f t, raw_frame w = Some f ∧ clean_table w' = Some t ∧
         t `sublist_of` map coerce (rows f) ∧
         (length t ≤ length (rows f))%nat.
Proof.
  intros H. apply clean_data_returns in H as (f & f' & Hf & Hl & Hc & Hrows).
  exists f, (rows f'). split; [exact Hf |].
  split; [unfold clean_table; by rewrite Hc, Hl |].
  assert (rows f' `sublist_of` map coerce (rows f)) as Hsub.
  { rewrite Hrows. unfold cleaned_rows, keep.
    etrans; [apply select_sublist |]. etrans; apply list_filter_sublist. }
  split; [exact Hsub |]. apply sublist_length in Hsub. by rewrite length_map in Hsub.
Qed.

(** X4. No valid order is lost: the order ids of the clean table are exactly
    the order ids of the raw rows whose coerced amount and quantity are
    positive. *)
Theorem clean_table_order_ids w l w' :
  clean_data w = (Ok l, w') →
  ∃ f t, raw_frame w = Some f ∧ clean_table w' = Some t ∧
         ∀ k, k ∈ map order_id t ↔
              ∃ r, r ∈ rows f ∧ order_id r = k ∧
                   float_gt0 (to_float (to_numeric parse_float (order_amount r))) = true ∧
                   float_gt0 (to_float (quantity r)) = true.
Proof.
  intros H. apply clean_data_returns in H as (f & f' & Hf & Hl & Hc & Hrows).
  exists f, (rows f'). split; [exact Hf |].
  split; [unfold clean_table; by rewrite Hc, Hl |].
  intros k. rewrite Hrows. unfold cleaned_rows. split.
  - intros Hk. apply list_elem_of_fmap in Hk as (r' & -> & Hr').
    apply keep_elem in Hr' as [Hr' _].
    apply elem_of_list_filter in Hr' as [Hr' Hq].
    apply elem_of_list_filter in Hr' as [Hr' Ha].
    apply list_elem_of_fmap in Hr' as (r & -> & Hr). eauto.
  - intros (r & Hr & <- & Ha & Hq).
    change (order_id r) with (order_id (coerce r)).
    apply keep_covers; [| apply not_elem_of_nil].
    apply elem_of_list_filter. split; [| exact Hq].
    apply elem_of_list_filter. split; [| exact Ha].
    apply list_elem_of_fmap. eauto.
Qed.

(** X5. The methods initialise lazily.  On an analyzer that has loaded nothing
    [clean_data] loads first, and [calculate_metrics] and
    [answer_business_questions] clean first: each behaves as the explicit
    sequence of calls, with the same outcome and the same final world. *)
Theorem lazy_initialisation w :
  raw_df (self w) = None → clean_df (self w) = None →
  clean_data w = (load_data ;;; clean_data) w ∧
  calculate_metrics w = (load_data ;;; clean_data ;;; calculate_metrics) w ∧
  answer_business_questions w = (load_data ;;; clean_data ;;; answer_business_questions) w.
Proof.
  intros Hraw Hclean.
  assert (clean_data w = (load_data ;;; clean_data) w) as Hload.
  { destruct (source w) as [rs | e] eqn:Hsrc.
    - rewrite (clean_data_load parse_float parse_datetime w rs Hraw Hsrc).
      erewrite bind_ok by (unfold load_data; rewrite Hsrc; reflexivity). reflexivity.
    - erewrite (bind_raise load_data) by (unfold load_data; rewrite Hsrc; reflexivity).
      unfold clean_data. erewrite bind_ok by reflexivity. cbv beta. rewrite Hraw.
      apply bind_raise. unfold load_data. by rewrite Hsrc. }
  assert (∀ (A : Type) (m : M A), (clean_data ;;; m) w = (load_data ;;; clean_data ;;; m) w)
    as Hseq.
  { intros A m. rewrite (bind_cong_l _ _ _ w Hload). apply bind_assoc. }
  split; [exact Hload |]. split.
  - rewrite <- Hseq. unfold calculate_metrics. by apply ensure_clean_lazy.
  - rewrite <- Hseq. unfold answer_business_questions, calculate_metrics.
    rewrite bind_assoc. rewrite (ensure_clean_lazy parse_float parse_datetime _ w Hclean).
    apply bind_ext. intros _ w1. by rewrite bind_assoc.
Qed.

End CleanerExtras.

(** ** Further properties of the Metrics Engine *)

(** X6. Only [calculate_metrics] and [answer_business_questions] clean on
    demand.  Without a clean table the rankings, the trend and the repeat
    rate subscript [None]: they raise TypeError and change nothing. *)
Theorem metrics_need_clean_table (P : pandas) w (n k : Z) :
  clean_df (self w) = None →
  get_top_categories P n w = (Raise TypeError, w) ∧
  get_top_customers P k w = (Raise TypeError, w) ∧
  analyze_seasonal_trends P w = (Raise TypeError, w) ∧
  _calculate_repeat_rate w = (Raise TypeError, w).
Proof.
  intros Hc.
  assert (with_status "completed" w = (Raise TypeError, w)) as Hws.
  { unfold with_status. apply bind_raise. by apply the_clean_df_none. }
  repeat split.
  - unfold get_top_categories. by apply bind_raise.
  - unfold get_top_customers. by apply bind_raise.
  - unfold analyze_seasonal_trends. by apply bind_raise.
  - unfold _calculate_repeat_rate. apply bind_raise. by apply the_clean_df_none.
Qed.

Lemma metrics_need_clean_table_witness :
  clean_df (self sample_world) = None ∧
  get_top_categories binary64 5 sample_world = (Raise TypeError, sample_world).
Proof.
  split; [reflexivity |].
  apply (metrics_need_clean_table binary64 sample_world 5 10). reflexivity.
Defined.

(** The amounts of clean rows are numbers. *)
Lemma clean_amounts_valid (rs : list record) :
  (∀ r, r ∈ rs → clean_row r = true) →
  count_valid (map to_float (map order_amount rs)) = len rs.
Proof.
  induction rs as [| r rs IH]; intros Hrows; [reflexivity |].
  assert (clean_row r = true) as Hr by (apply Hrows; left).
  apply clean_row_inv in Hr as (Ha & _). apply float_gt0_inv in Ha as (q & Hq & _).
  simpl. rewrite Hq. simpl. rewrite IH by (intros r' Hr'; apply Hrows; by right).
  unfold len. simpl length. lia.
Qed.

Section MetricsExtras.

Variable P : pandas.
Variable parse_float : string → option Qc.
Variable parse_datetime : string → option timestamp.

Local Abbreviation calculate_metrics := (calculate_metrics P parse_float parse_datetime).

(** X7. On a clean table that is not empty [calculate_metrics] returns;
    [total_orders] counts the completed records and [customer_count] the
    distinct customers of all records.  With no completed record the
    revenue is 0 and the average is NaN; with one the average is a number,
    and when the completed amounts are whole numbers with a total below
    2^53 the revenue is that total, a positive number. *)
Theorem average_order_value w t :
  lawful P →
  clean_table w = Some t → is_clean t → t ≠ [] →
  let completed := rows_with_status "completed" t in
  ∃ m, (calculate_metrics w).1 = Ok m ∧
       total_orders m = len completed ∧
       customer_count m = Z.of_nat (size (spec_customers t)) ∧
       (completed = [] → total_revenue m = 0%Qc ∧ avg_order_value m = NaN) ∧
       (completed ≠ [] →
          avg_order_value m ≠ NaN ∧
          (whole_amounts completed → sum_Z (map units completed) < 2 ^ 53 →
             total_revenue m = Qc_of (sum_Z (map units completed)) ∧
             (0 < total_revenue m)%Qc)).
Proof.
  intros HP Ht Hclean Hne C. apply clean_table_inv in Ht as (l & f & Hl & Hf & <-).
  rewrite (calculate_metrics_value _ _ _ w l f Hl Hf).
  2: { intros r Hr. by apply (clean_amounts_float "completed" (rows f)). }
  unfold py_div. rewrite decide_False.
  2: { unfold len. destruct (rows f); [contradiction | simpl; lia]. }
  eexists. split; [reflexivity |]. cbn [total_orders customer_count total_revenue avg_order_value].
  split; [reflexivity |].
  split; [unfold nunique, len; by rewrite spec_customers_size |].
  fold C.
  assert (∀ r, r ∈ C → clean_row r = true) as HC.
  { intros r Hr. apply elem_of_rows_with_status in Hr as [Hr _]. by apply Hclean. }
  split.
  - intros ->. split; [by apply (sum_skipna_nothing P HP) | reflexivity].
  - intros Hsome. split.
    + unfold mean_skipna. rewrite (clean_amounts_valid C HC). rewrite decide_False; [discriminate |].
      unfold len. destruct C; [contradiction | simpl; lia].
    + intros Hw Htot.
      assert (∀ r, r ∈ C → 0 < units r) as Hpos by (by apply clean_units_pos).
      rewrite map_map.
      rewrite (total_whole P HP C Hw (λ r Hr, Z.lt_le_incl _ _ (Hpos r Hr)) Htot).
      split; [reflexivity |]. apply Qc_of_pos.
      destruct C as [| r C']; [contradiction |]. simpl.
      assert (0 < units r) by (apply Hpos; left).
      assert (0 ≤ sum_Z (map units C')); [| lia].
      apply sum_abs_nonneg. intros z Hz. apply list_elem_of_fmap in Hz as (r' & -> & Hr').
      apply Z.lt_le_incl, Hpos. by right.
Qed.

End MetricsExtras.

Lemma average_order_value_witness :
  ∃ m, (calculate_metrics binary64 sample_parse_float sample_parse_datetime
          (cleaned_world sample_rows)).1 = Ok m ∧
       total_orders m = 2 ∧ total_revenue m = Qc_of 400 ∧ avg_order_value m ≠ NaN.
Proof.
  destruct (average_order_value binary64 sample_parse_float sample_parse_datetime
              (cleaned_world sample_rows)
              (cleaned_rows sample_parse_float sample_parse_datetime sample_rows))
    as (m & Hm & Ho & _ & _ & Hsome).
  - apply binary64_lawful.
  - reflexivity.
  - apply cleaned_rows_clean.
  - discriminate.
  - destruct Hsome as [Havg Hrev]; [discriminate |].
    destruct Hrev as [Hrev _].
    + vm_compute. intros r Hr.
      repeat (apply elem_of_cons in Hr as [-> | Hr]; [reflexivity |]). inversion Hr.
    + vm_compute. reflexivity.
    + exists m. auto.
Defined.

Lemma head_prefix {A} (n : Z) (l : list A) :
  head n l `prefix_of` l ∧
  length (head n l) =
  if decide (0 ≤ n) then Nat.min (Z.to_nat n) (length l)
  else (length l - Z.to_nat (- n))%nat.
Proof.
  unfold head. case_decide.
  - split; [apply prefix_take | apply length_take].
  - split; [apply prefix_take |]. rewrite length_take. lia.
Qed.

(** X8. For every integer [n], negative ones included, [get_top_categories n]
    and [get_top_customers n] return a prefix of the full ranking (every
    group of the completed records with its sum, no revenue before a
    larger one): its first [n] entries, or all of them when there are
    fewer, for [n >= 0]; all but the last [-n] for [n < 0]. *)
Theorem top_n_prefix P w t (n : Z) :
  lawful P →
  clean_table w = Some t → is_clean t →
  ∃ Lc Lu topc topu,
    ranked P product_category t Lc ∧ (get_top_categories P n w).1 = Ok topc ∧
    ranked P customer_id t Lu ∧ (get_top_customers P n w).1 = Ok topu ∧
    topc `prefix_of` Lc ∧ topu `prefix_of` Lu ∧
    length topc = (if decide (0 ≤ n) then Nat.min (Z.to_nat n) (length Lc)
                   else (length Lc - Z.to_nat (- n))%nat) ∧
    length topu = (if decide (0 ≤ n) then Nat.min (Z.to_nat n) (length Lu)
                   else (length Lu - Z.to_nat (- n))%nat).
Proof.
  intros HP Ht Hclean. apply clean_table_inv in Ht as (l & f & Hl & Hf & <-).
  assert (∀ r, r ∈ rows_with_status "completed" (rows f) → is_text (order_amount r) = false)
    as Htext by (intros r Hr; by apply (clean_amounts_float "completed" (rows f))).
  destruct (ranked_groups P product_category (rows f) HP Htext) as (Gc & Hc & Hrc).
  destruct (ranked_groups P customer_id (rows f) HP Htext) as (Gu & Hu & Hru).
  exists (sort_values_desc P Gc), (sort_values_desc P Gu).
  rewrite (get_top_categories_value P _ w l f Hl Hf), Hc.
  rewrite (get_top_customers_value P _ w l f Hl Hf), Hu.
  eexists. eexists. split; [exact Hrc |]. split; [reflexivity |].
  split; [exact Hru |]. split; [reflexivity |].
  destruct (head_prefix n (sort_values_desc P Gc)) as [H1 H2].
  destruct (head_prefix n (sort_values_desc P Gu)) as [H3 H4]. auto.
Qed.

Lemma top_n_prefix_witness :
  ∃ Lc topc,
    ranked binary64 product_category
      (cleaned_rows sample_parse_float sample_parse_datetime sample_rows) Lc ∧
    (get_top_categories binary64 (-1) (cleaned_world sample_rows)).1 = Ok topc ∧
    topc `prefix_of` Lc ∧ length topc = (length Lc - 1)%nat.
Proof.
  destruct (top_n_prefix binary64 (cleaned_world sample_rows)
              (cleaned_rows sample_parse_float sample_parse_datetime sample_rows) (-1))
    as (Lc & Lu & topc & topu & H1 & H2 & _ & _ & H5 & _ & H7 & _).
  - apply binary64_lawful.
  - reflexivity.
  - apply cleaned_rows_clean.
  - exists Lc, topc. auto.
Defined.

(** ** The report and the monthly trend *)

Lemma trends_value P w l f :
  clean_df (self w) = Some l → heap w !! l = Some f →
  (analyze_seasonal_trends P w).1 =
  match dt_to_period (map order_date (rows_with_status "completed" (rows f))) with
  | Ok ms => groupby_month_sum P ms (rows_with_status "completed" (rows f))
  | Raise e => Raise e
  end.
Proof.
  intros Hl Hf. unfold analyze_seasonal_trends.
  erewrite bind_ok by (apply (with_status_run _ _ l f Hl Hf)).
  erewrite bind_ok by (apply column_ok; cbn [heap]; apply lookup_fresh).
  rewrite rows_with_status_frame.
  destruct (dt_to_period _) as [ms | e].
  - erewrite bind_ok by reflexivity.
    erewrite bind_ok by (apply modify_ok; cbn [heap]; apply lookup_fresh).
    cbn [heap self source]. rewrite insert_fresh.
    erewrite bind_ok by (apply read_ok; cbn [heap]; apply lookup_fresh).
    cbn [rows month]. rewrite rows_with_status_frame. reflexivity.
  - erewrite bind_raise by reflexivity. reflexivity.
Qed.

Section ReportExtras.

Variable P : pandas.
Variable parse_float : string → option Qc.
Variable parse_datetime : string → option timestamp.

Local Abbreviation calculate_metrics := (calculate_metrics P parse_float parse_datetime).
Local Abbreviation answer_business_questions :=
  (answer_business_questions P parse_float parse_datetime).
Local Abbreviation get_top_categories := (get_top_categories P).
Local Abbreviation get_top_customers := (get_top_customers P).
Local Abbreviation analyze_seasonal_trends := (analyze_seasonal_trends P).

Lemma answers_inv w l f a :
  clean_df (self w) = Some l → heap w !! l = Some f →
  (answer_business_questions w).1 = Ok a →
  ∃ m top,
    (calculate_metrics w).1 = Ok m ∧
    (get_top_categories 1 w).1 = Ok top ∧ index0 top = Ok (q4_most_profitable_category a) ∧
    (get_top_customers 10 w).1 = Ok (q5_top_10_customers a) ∧
    (analyze_seasonal_trends w).1 = Ok (q7_monthly_sales_trends a) ∧
    q1_total_revenue a = total_revenue m ∧ q2_average_order_value a = avg_order_value m ∧
    q3_customer_count a = customer_count m ∧
    q6_repeat_customer_rate a = repeat_customer_rate m ∧
    q8_cancellation_rate a = cancellation_rate m.
Proof.
  intros Hl Hf. unfold answer_business_questions.
  destruct (framed_clean_table calculate_metrics w l f) as [Hl1 Hf1];
    [intros; apply framed_calculate_metrics | done | done |].
  unfold bind at 1. destruct (calculate_metrics w) as [[m | e] w1]; [| discriminate].
  cbn [fst snd] in *.
  pose proof (get_top_categories_value P 1 w l f Hl Hf) as Hv.
  rewrite <- (get_top_categories_value P 1 w1 l f Hl1 Hf1) in Hv.
  destruct (framed_clean_table (get_top_categories 1) w1 l f) as [Hl2 Hf2];
    [intros; apply framed_get_top_categories | done | done |].
  unfold bind at 1. destruct (get_top_categories 1 w1) as [[top | e] w2]; [| discriminate].
  cbn [fst snd] in *.
  unfold bind at 1. unfold lift at 1. destruct (index0 top) as [best | e] eqn:Hbest;
    [| discriminate].
  pose proof (get_top_customers_value P 10 w l f Hl Hf) as Hu.
  rewrite <- (get_top_customers_value P 10 w2 l f Hl2 Hf2) in Hu.
  destruct (framed_clean_table (get_top_customers 10) w2 l f) as [Hl3 Hf3];
    [intros; apply framed_get_top_customers | done | done |].
  unfold bind at 1. destruct (get_top_customers 10 w2) as [[cs | e] w3]; [| discriminate].
  cbn [fst snd] in *.
  pose proof (trends_value P w l f Hl Hf) as Htr.
  rewrite <- (trends_value P w3 l f Hl3 Hf3) in Htr.
  unfold bind at 1. destruct (analyze_seasonal_trends w3) as [[tr | e] w4]; [| discriminate].
  cbn [fst snd] in *. intros [= <-]. exists m, top. cbn. auto 10.
Qed.

(** X9. The report is put together from the methods without one call
    disturbing another: when [answer_business_questions] returns, every
    answer is what the method behind it returns on the analyzer as it was
    before the call. *)
Theorem answers_agree w t a :
  clean_table w = Some t →
  (answer_business_questions w).1 = Ok a →
  ∃ m top,
    (calculate_metrics w).1 = Ok m ∧
    (get_top_categories 1 w).1 = Ok top ∧ index0 top = Ok (q4_most_profitable_category a) ∧
    (get_top_customers 10 w).1 = Ok (q5_top_10_customers a) ∧
    (analyze_seasonal_trends w).1 = Ok (q7_monthly_sales_trends a) ∧
    q1_total_revenue a = total_revenue m ∧ q2_average_order_value a = avg_order_value m ∧
    q3_customer_count a = customer_count m ∧
    q6_repeat_customer_rate a = repeat_customer_rate m ∧
    q8_cancellation_rate a = cancellation_rate m.
Proof.
  intros Ht. apply clean_table_inv in Ht as (l & f & Hl & Hf & _). by apply (answers_inv w l f).
Qed.

(** X10. "Most Profitable Category" names a category of a completed record, and
    no category has a larger completed revenue. *)
Theorem most_profitable_category w t a :
  lawful P →
  clean_table w = Some t → is_clean t →
  (answer_business_questions w).1 = Ok a →
  let completed := rows_with_status "completed" t in
  Some (q4_most_profitable_category a) ∈ map product_category completed ∧
  ∀ k, Some k ∈ map product_category completed →
       (group_sum P product_category k completed ≤
        group_sum P product_category (q4_most_profitable_category a) completed)%Qc.
Proof.
  intros HP Ht Hclean Ha C. apply clean_table_inv in Ht as (l & f & Hl & Hf & <-).
  destruct (answers_inv w l f a Hl Hf Ha) as (m & top & _ & Htop & Hbest & _).
  assert (∀ r, r ∈ rows_with_status "completed" (rows f) → is_text (order_amount r) = false)
    as Htext by (intros r Hr; by apply (clean_amounts_float "completed" (rows f))).
  destruct (ranked_groups P product_category (rows f) HP Htext)
    as (G & HG & Hnd & Hin & Hsorted).
  rewrite (get_top_categories_value P 1 w l f Hl Hf), HG in Htop. injection Htop as <-.
  unfold head in Hbest. rewrite decide_True in Hbest by lia. simpl in Hbest.
  destruct (sort_values_desc P G) as [| [k0 v0] L] eqn:E; [discriminate |].
  simpl in Hbest. injection Hbest as <-.
  assert ((k0, v0) ∈ (k0, v0) :: L) as H0 by left.
  apply Hin in H0 as [Hk0 Hv0]. split; [exact Hk0 |].
  intros k Hk. fold C in Hv0. rewrite <- Hv0.
  assert ((k, group_sum P product_category k C) ∈ (k0, v0) :: L) as Hkv
    by (apply Hin; split; [exact Hk | reflexivity]).
  apply elem_of_cons in Hkv as [[= -> <-] | Hkv]; [apply Qcle_refl |].
  apply StronglySorted_cons in Hsorted as [Hall _].
  rewrite Forall_forall in Hall. apply Hall in Hkv. exact Hkv.
Qed.

End ReportExtras.

Lemma answers_agree_witness :
  ∃ a m,
    (answer_business_questions binary64 sample_parse_float sample_parse_datetime
       (cleaned_world sample_rows)).1 = Ok a ∧
    (calculate_metrics binary64 sample_parse_float sample_parse_datetime
       (cleaned_world sample_rows)).1 = Ok m ∧
    q1_total_revenue a = total_revenue m ∧
    (get_top_customers binary64 10 (cleaned_world sample_rows)).1 = Ok (q5_top_10_customers a).
Proof.
  destruct (answer_business_questions binary64 sample_parse_float sample_parse_datetime
              (cleaned_world sample_rows)).1 as [a | e] eqn:E; [| vm_compute in E; discriminate].
  destruct (answers_agree binary64 sample_parse_float sample_parse_datetime
              (cleaned_world sample_rows)
              (cleaned_rows sample_parse_float sample_parse_datetime sample_rows) a)
    as (m & top & H1 & _ & _ & H4 & _ & H6 & _); [reflexivity | exact E |].
  exists a, m. auto.
Defined.

Lemma most_profitable_category_witness :
  ∃ a,
    (answer_business_questions binary64 sample_parse_float sample_parse_datetime
       (cleaned_world sample_rows)).1 = Ok a ∧
    Some (q4_most_profitable_category a) ∈
      map product_category
        (rows_with_status "completed"
           (cleaned_rows sample_parse_float sample_parse_datetime sample_rows)).
Proof.
  destruct (answer_business_questions binary64 sample_parse_float sample_parse_datetime
              (cleaned_world sample_rows)).1 as [a | e] eqn:E; [| vm_compute in E; discriminate].
  exists a. split; [reflexivity |].
  apply (most_profitable_category binary64 sample_parse_float sample_parse_datetime
           (cleaned_world sample_rows)
           (cleaned_rows sample_parse_float sample_parse_datetime sample_rows) a).
  - apply binary64_lawful.
  - reflexivity.
  - apply cleaned_rows_clean.
  - exact E.
Defined.

(** *** The monthly trend *)

Lemma period_leb_total (a b : period) : period_leb a b = true ∨ period_leb b a = true.
Proof.
  unfold period_leb. destruct a as [y1 m1], b as [y2 m2]. simpl.
  destruct (Z.ltb_spec y1 y2), (Z.ltb_spec y2 y1), (Z.eqb_spec y1 y2), (Z.eqb_spec y2 y1),
    (Z.leb_spec m1 m2), (Z.leb_spec m2 m1); simpl; auto; lia.
Qed.

Lemma period_leb_trans (a b c : period) :
  period_leb a b = true → period_leb b c = true → period_leb a c = true.
Proof.
  unfold period_leb. destruct a as [y1 m1], b as [y2 m2], c as [y3 m3]. simpl.
  destruct (Z.ltb_spec y1 y2), (Z.ltb_spec y2 y3), (Z.ltb_spec y1 y3),
    (Z.eqb_spec y1 y2), (Z.eqb_spec y2 y3), (Z.eqb_spec y1 y3),
    (Z.leb_spec m1 m2), (Z.leb_spec m2 m3), (Z.leb_spec m1 m3); simpl; auto; lia.
Qed.

Lemma period_leb_lt (a b : period) :
  period_leb a b = true → a ≠ b → a.1 < b.1 ∨ (a.1 = b.1 ∧ a.2 < b.2).
Proof.
  unfold period_leb. destruct a as [y1 m1], b as [y2 m2]. simpl. intros H Hne.
  destruct (Z.ltb_spec y1 y2); [by left |]. simpl in H.
  apply andb_true_iff in H as [H1 H2]. apply Z.eqb_eq in H1. apply Z.leb_le in H2.
  right. split; [exact H1 |]. destruct (decide (m1 = m2)); [congruence | lia].
Qed.

Lemma zip_fmap_self {A B} (g : A → B) (l : list A) :
  zip (map g l) l = map (λ x, (g x, x)) l.
Proof. induction l as [| x l IH]; simpl; [reflexivity |]. by rewrite IH. Qed.

Lemma filter_fmap_comm {A B} (g : A → B) (P : B → Prop)
    `{!∀ y, Decision (P y)} `{!∀ x, Decision (P (g x))} (l : list A) :
  filter P (map g l) = map g (filter (λ x, P (g x)) l).
Proof.
  induction l as [| x l IH]; [reflexivity |]. simpl. rewrite !filter_cons.
  repeat case_decide; simpl; try contradiction; by rewrite IH.
Qed.

Lemma list_filter_iff_in {A} (P1 P2 : A → Prop)
    `{!∀ x, Decision (P1 x), !∀ x, Decision (P2 x)} (l : list A) :
  (∀ x, x ∈ l → P1 x ↔ P2 x) → filter P1 l = filter P2 l.
Proof.
  induction l as [| a l IH]; intros Hall; [reflexivity |].
  rewrite !filter_cons. assert (P1 a ↔ P2 a) as Ha by (apply Hall; left).
  rewrite IH by (intros x Hx; apply Hall; by right).
  repeat case_decide; tauto.
Qed.

Lemma trend_months (rs : list record) :
  let ms := map (λ r, to_period (order_date r)) rs in
  let present := omap id ms in
  let keys := sort_by period_leb (select (first_mask present) present) in
  NoDup keys ∧
  (∀ p, p ∈ keys ↔ ∃ r, r ∈ rs ∧ to_period (order_date r) = Some p) ∧
  StronglySorted (λ a b, a.1 < b.1 ∨ (a.1 = b.1 ∧ a.2 < b.2)) keys.
Proof.
  intros ms present keys.
  assert (select (first_mask present) present = keep id [] present) as Hkeep
    by (unfold keep, first_mask; by rewrite map_id).
  assert (NoDup (keep id [] present)) as Hnd
    by (rewrite <- (map_id (keep id [] present)); apply keep_NoDup).
  assert (NoDup keys) as Hnd' by (unfold keys; by rewrite sort_by_perm, Hkeep).
  split; [exact Hnd' |]. split.
  - intros p. unfold keys. rewrite sort_by_perm, Hkeep. split.
    + intros H. apply keep_elem in H as [H _]. unfold present in H.
      apply list_elem_of_omap in H as (o & Ho & E). simpl in E. subst o.
      unfold ms in Ho. apply list_elem_of_fmap in Ho as (r & E & Hr). eauto.
    + intros (r & Hr & E).
      pose proof (keep_covers id [] present p) as Hc. rewrite map_id in Hc.
      apply Hc; [| apply not_elem_of_nil].
      unfold present. apply list_elem_of_omap. exists (Some p). split; [| reflexivity].
      unfold ms. apply list_elem_of_fmap. eauto.
  - eapply (StronglySorted_weaken (λ a b, period_leb a b = true ∧ a ≠ b)).
    { intros a b _ _ [H1 H2]. by apply period_leb_lt. }
    apply StronglySorted_NoDup; [| exact Hnd'].
    eapply (StronglySorted_weaken (sorted_then period_leb (λ _ _, True))).
    { intros a b _ _ [H _]. exact H. }
    apply sort_by_sorted; [apply period_leb_total | apply period_leb_trans |].
    generalize (select (first_mask present) present). intros l.
    induction l; constructor; [assumption | by apply Forall_forall].
Qed.

(** X11. The monthly trend over a clean table: one entry per month in which a
    completed record is dated, months ascending, each with the sum of the
    amounts of the completed records of that month; every dated completed
    record is counted in exactly one month, and the completed records
    without a date (NaT) in none. *)
Theorem monthly_trend P w t :
  clean_table w = Some t → is_clean t →
  let completed := rows_with_status "completed" t in
  let of_month p := filter (λ r, to_period (order_date r) = Some p) completed in
  ∃ trend,
    (analyze_seasonal_trends P w).1 = Ok trend ∧
    StronglySorted (λ a b, a.1 < b.1 ∨ (a.1 = b.1 ∧ a.2 < b.2)) (map fst trend) ∧
    (∀ p, p ∈ map fst trend ↔ ∃ r, r ∈ completed ∧ to_period (order_date r) = Some p) ∧
    (∀ p v, (p, v) ∈ trend →
       v = sum_group P (map (λ r, to_float (order_amount r)) (of_month p))) ∧
    filter (λ r, order_date r ≠ NaT) completed ≡ₚ concat (map (λ pv, of_month pv.1) trend).
Proof.
  intros Ht Hclean C of_month. apply clean_table_inv in Ht as (l & f & Hl & Hf & <-).
  rewrite (trends_value P w l f Hl Hf). fold C.
  assert (∀ r, r ∈ C → is_dtext (order_date r) = false) as Hdate.
  { intros r Hr. apply elem_of_rows_with_status in Hr as [Hr _].
    destruct Hclean as [Hrow _]. apply Hrow in Hr. apply clean_row_inv in Hr. tauto. }
  assert (dt_to_period (map order_date C) = Ok (map to_period (map order_date C))) as ->.
  { unfold dt_to_period. replace (existsb is_dtext (map order_date C)) with false; [reflexivity |].
    symmetry. apply existsb_false_iff. intros c Hc.
    apply list_elem_of_fmap in Hc as (r & -> & Hr). by apply Hdate. }
  unfold groupby_month_sum.
  replace (existsb is_text (map order_amount C)) with false.
  2: { symmetry. apply existsb_false_iff. intros c Hc.
       apply list_elem_of_fmap in Hc as (r & -> & Hr).
       by apply (clean_amounts_float "completed" (rows f)). }
  cbv zeta. rewrite !map_map.
  destruct (trend_months C) as (Hnd & Hin & Hsorted). cbv zeta in Hnd, Hin, Hsorted.
  set (keys := sort_by period_leb _) in *.
  assert (∀ p, map (λ q : option period * record, to_float (order_amount q.2))
                 (filter (λ q, q.1 = Some p)
                    (zip (map (λ r, to_period (order_date r)) C) C)) =
               map (λ r, to_float (order_amount r)) (of_month p)) as Hgroup.
  { intros p. rewrite (zip_fmap_self (λ r, to_period (order_date r)) C).
    rewrite (filter_fmap_comm (λ r, (to_period (order_date r), r)) (λ q, q.1 = Some p)).
    by rewrite map_map. }
  eexists. split; [reflexivity |]. rewrite !map_map. cbn [fst snd]. rewrite map_id.
  split; [exact Hsorted |]. split; [exact Hin |]. split.
  - intros p v Hpv. apply list_elem_of_fmap in Hpv as (p' & [= -> ->] & _). by rewrite Hgroup.
  - etrans; [| apply (partition_by_keys (λ r, to_period (order_date r)) keys C Hnd);
                 intros r p Hr E; apply Hin; eauto].
    apply reflexive_eq, list_filter_iff_in. intros r Hr. apply Hdate in Hr.
    destruct (order_date r) as [| d | s]; simpl in *.
    + split; [intros H; contradiction | intros [? [=]]].
    + split; [intros _; eauto | intros _; discriminate].
    + discriminate.
Qed.

Lemma monthly_trend_witness :
  ∃ trend,
    (analyze_seasonal_trends binary64 (cleaned_world sample_rows)).1 = Ok trend ∧
    map fst trend = [(2023, 1); (2023, 2)].
Proof.
  destruct (monthly_trend binary64 (cleaned_world sample_rows)
              (cleaned_rows sample_parse_float sample_parse_datetime sample_rows))
    as (trend & Htrend & _); [reflexivity | apply cleaned_rows_clean |].
  exists trend. split; [exact Htrend |].
  vm_compute in Htrend. injection Htrend as <-. reflexivity.
Defined.

(** X12. The [.dt] accessor needs dates: on a table that was not coerced, a
    completed record whose [order_date] is still text makes
    [analyze_seasonal_trends] raise AttributeError. *)
Theorem trend_needs_dates (P : pandas) w t r :
  clean_table w = Some t →
  r ∈ t → status r = Some "completed" → is_dtext (order_date r) = true →
  (analyze_seasonal_trends P w).1 = Raise AttributeError.
Proof.
  intros Ht Hr Hs Hd. apply clean_table_inv in Ht as (l & f & Hl & Hf & <-).
  rewrite (trends_value P w l f Hl Hf). unfold dt_to_period.
  replace (existsb is_dtext (map order_date (rows_with_status "completed" (rows f))))
    with true; [reflexivity |].
  symmetry. apply existsb_true_iff. exists (order_date r). split; [| exact Hd].
  apply list_elem_of_fmap. exists r. split; [reflexivity |].
  by apply elem_of_rows_with_status.
Qed.

Lemma trend_needs_dates_witness :
  (analyze_seasonal_trends binary64
     (World [Frame sample_rows None] (Analyzer (Some 0%nat) (Some 0%nat)) (Ok sample_rows))).1
  = Raise AttributeError.
Proof.
  apply (trend_needs_dates binary64 _ sample_rows
           (order "ORD1" "CUST1" "2023-01-15" "Books" 100 (Some "completed")));
    [reflexivity | left | reflexivity | reflexivity].
Defined.

(** * Sorting and searching ([algorithms.py]) *)

Lemma partition_perm (p : Z) (arr : list Z) :
  arr ≡ₚ List.filter (λ x, x <? p) arr ++ List.filter (λ x, x =? p) arr
         ++ List.filter (λ x, p <? x) arr.
Proof.
  induction arr as [| x arr IH]; simpl; [reflexivity |].
  destruct (Z.ltb_spec x p), (Z.eqb_spec x p), (Z.ltb_spec p x); try lia; simpl.
  - apply perm_skip, IH.
  - etrans; [| apply Permutation_middle]. apply perm_skip, IH.
  - rewrite app_assoc. etrans; [| apply Permutation_middle].
    rewrite <- app_assoc. apply perm_skip, IH.
Qed.

Lemma quicksort_perm (arr : list Z) : quicksort arr ≡ₚ arr.
Proof.
  funelim (quicksort arr); [reflexivity |].
  rewrite H, H0. symmetry. apply partition_perm.
Qed.

Lemma quicksort_sorted (arr : list Z) : StronglySorted Z.le (quicksort arr).
Proof.
  funelim (quicksort arr).
  - destruct arr as [| x [| y arr]]; simpl in *; [constructor | repeat constructor | lia].
  - set (p := pivot_of arr) in *.
    apply StronglySorted_app. split; [| split; [exact H |]].
    + intros a b Ha Hb. rewrite quicksort_perm in Ha.
      apply elem_of_list_filter in Ha as [_ Ha]. apply Z.ltb_lt in Ha.
      apply elem_of_app in Hb as [Hb | Hb].
      * apply elem_of_list_filter in Hb as [_ Hb]. apply Z.eqb_eq in Hb. lia.
      * rewrite quicksort_perm in Hb. apply elem_of_list_filter in Hb as [_ Hb].
        apply Z.ltb_lt in Hb. lia.
    + apply StronglySorted_app. split; [| split; [| exact H0]].
      * intros a b Ha Hb. apply elem_of_list_filter in Ha as [_ Ha]. apply Z.eqb_eq in Ha.
        rewrite quicksort_perm in Hb. apply elem_of_list_filter in Hb as [_ Hb].
        apply Z.ltb_lt in Hb. lia.
      * generalize arr. intros l. induction l as [| x l IH]; simpl; [constructor |].
        destruct (Z.eqb_spec x p); [| exact IH]. constructor; [exact IH |].
        apply Forall_forall. intros y Hy. apply elem_of_list_filter in Hy as [_ Hy].
        apply Z.eqb_eq in Hy. lia.
Qed.

(** X13. [quicksort] returns its input sorted: the same elements, each as often
    as before, in ascending order. *)
Theorem quicksort_sorts (arr : list Z) :
  quicksort arr ≡ₚ arr ∧ StronglySorted Z.le (quicksort arr).
Proof. split; [apply quicksort_perm | apply quicksort_sorted]. Qed.

(** X14. [quicksort] agrees with every correct sort, the built-in [sorted] that
    [compare_sorting] runs beside it included: any ascending rearrangement
    of the input is the list [quicksort] returns. *)
Theorem quicksort_unique (arr s : list Z) :
  s ≡ₚ arr → StronglySorted Z.le s → quicksort arr = s.
Proof.
  intros Hp Hs. apply (StronglySorted_unique Z.le); [apply quicksort_sorted | exact Hs |].
  by rewrite quicksort_perm.
Qed.

Lemma py_index_in_range (arr : list Z) (i : Z) :
  0 ≤ i < len arr → ∃ v, py_index arr i = Ok v ∧ arr !! Z.to_nat i = Some v.
Proof.
  intros Hi. unfold py_index. rewrite decide_True by exact Hi.
  destruct (arr !! Z.to_nat i) as [v |] eqn:E; [eauto |].
  apply lookup_ge_None in E. unfold len in Hi. lia.
Qed.

Lemma sorted_lookup_le (arr : list Z) (i j : nat) x y :
  StronglySorted Z.le arr → (i ≤ j)%nat → arr !! i = Some x → arr !! j = Some y → x ≤ y.
Proof.
  intros Hs. revert i j. induction Hs as [| a l Hs IH Ha]; intros i j Hij Hi Hj; [done |].
  destruct i as [| i], j as [| j]; simpl in *; try lia.
  - injection Hi as <-. injection Hj as <-. lia.
  - injection Hi as <-. rewrite Forall_forall in Ha. apply Ha.
    eapply list_elem_of_lookup_2, Hj.
  - eapply IH; [| exact Hi | exact Hj]. lia.
Qed.

Lemma binary_search_loop_sound (arr : list Z) (target left_ right_ : Z) :
  0 ≤ left_ → right_ < len arr →
  ∃ i, binary_search_loop arr target left_ right_ = Ok i ∧
       (i = -1 ∨ (left_ ≤ i ≤ right_ ∧ arr !! Z.to_nat i = Some target)).
Proof.
  funelim (binary_search_loop arr target left_ right_); intros Hl Hr.
  - eauto.
  - assert (left_ ≤ (left_ + right_) `div` 2) by (apply Z.div_le_lower_bound; lia).
    assert ((left_ + right_) `div` 2 ≤ right_) by (apply Z.div_le_upper_bound; lia).
    destruct (py_index_in_range arr ((left_ + right_) `div` 2)) as (v' & Hv & Hlook); [lia |].
    rewrite Heq in Hv. injection Hv as <-.
    destruct (decide (v = target)) as [-> | Hne];
      [| destruct (decide (v < target)) as [Hlt | Hge]].
    + eexists. split; [reflexivity |]. right. split; [lia | exact Hlook].
    + destruct (H Hne Hlt) as (i & -> & Hi); [lia | lia |]. exists i. split; [reflexivity |].
      destruct Hi as [-> | [Hi1 Hi2]]; [by left | right; split; [lia | exact Hi2]].
    + destruct (H0 Hne Hge) as (i & -> & Hi); [lia | lia |]. exists i. split; [reflexivity |].
      destruct Hi as [-> | [Hi1 Hi2]]; [by left | right; split; [lia | exact Hi2]].
  - destruct (py_index_in_range arr ((left_ + right_) `div` 2)) as (v' & Hv & _).
    { assert (left_ ≤ (left_ + right_) `div` 2) by (apply Z.div_le_lower_bound; lia).
      assert ((left_ + right_) `div` 2 ≤ right_) by (apply Z.div_le_upper_bound; lia). lia. }
    congruence.
Qed.

(** X15. On every list, sorted or not, [binary_search] returns without an
    IndexError, and what it returns is -1 or an index in range at which the
    list holds the target. *)
Theorem binary_search_sound (arr : list Z) (target : Z) :
  ∃ i, binary_search arr target = Ok i ∧
       (i = -1 ∨ (0 ≤ i < len arr ∧ arr !! Z.to_nat i = Some target)).
Proof.
  unfold binary_search.
  destruct (binary_search_loop_sound arr target 0 (len arr - 1)) as (i & Hi & H); [lia | lia |].
  exists i. split; [exact Hi |]. destruct H as [-> | [H1 H2]]; [by left | right].
  split; [lia | exact H2].
Qed.

Lemma binary_search_loop_complete (arr : list Z) (target left_ right_ : Z) :
  StronglySorted Z.le arr → 0 ≤ left_ → right_ < len arr →
  binary_search_loop arr target left_ right_ = Ok (-1) →
  ∀ j, left_ ≤ j ≤ right_ → arr !! Z.to_nat j ≠ Some target.
Proof.
  intros Hs. funelim (binary_search_loop arr target left_ right_); intros Hl Hr Hres j Hj.
  - lia.
  - assert (left_ ≤ (left_ + right_) `div` 2) by (apply Z.div_le_lower_bound; lia).
    assert ((left_ + right_) `div` 2 ≤ right_) by (apply Z.div_le_upper_bound; lia).
    destruct (py_index_in_range arr ((left_ + right_) `div` 2)) as (v' & Hv & Hlook); [lia |].
    rewrite Heq in Hv. injection Hv as <-.
    destruct (decide (v = target)) as [-> | Hne];
      [| destruct (decide (v < target)) as [Hlt | Hge]].
    + injection Hres as Hres. lia.
    + destruct (decide (j ≤ (left_ + right_) `div` 2)) as [Hjm | Hjm].
      * intros Hjt.
        pose proof (sorted_lookup_le arr (Z.to_nat j) (Z.to_nat ((left_ + right_) `div` 2))
                      target v Hs ltac:(lia) Hjt Hlook). lia.
      * apply (H Hne Hlt Hs); [lia | lia | exact Hres | lia].
    + destruct (decide ((left_ + right_) `div` 2 ≤ j)) as [Hjm | Hjm].
      * intros Hjt.
        pose proof (sorted_lookup_le arr (Z.to_nat ((left_ + right_) `div` 2)) (Z.to_nat j)
                      v target Hs ltac:(lia) Hlook Hjt). lia.
      * apply (H0 Hne Hge Hs); [lia | lia | exact Hres | lia].
  - discriminate.
Qed.

Lemma binary_search_complete_iff (arr : list Z) (target : Z) :
  StronglySorted Z.le arr →
  (binary_search arr target = Ok (-1) ↔ target ∉ arr).
Proof.
  intros Hs. split.
  - intros Hres Hin. apply list_elem_of_lookup in Hin as [j Hj].
    apply (binary_search_loop_complete arr target 0 (len arr - 1) Hs ltac:(lia) ltac:(lia) Hres
             (Z.of_nat j)).
    + apply lookup_lt_Some in Hj. unfold len. lia.
    + by rewrite Nat2Z.id.
  - intros Hnin. unfold binary_search.
    destruct (binary_search_loop_sound arr target 0 (len arr - 1))
      as (i & Hi & [-> | [_ H]]); [lia | lia | exact Hi |].
    exfalso. apply Hnin. eapply list_elem_of_lookup_2, H.
Qed.

(** X16. On an ascending list [binary_search] misses nothing: it returns -1
    exactly when the target is not in the list. *)
Theorem binary_search_complete (arr : list Z) (target : Z) :
  StronglySorted Z.le arr →
  (binary_search arr target = Ok (-1) ↔ target ∉ arr).
Proof. apply binary_search_complete_iff. Qed.

Lemma linear_search_from_spec (arr : list Z) (target i : Z) :
  (linear_search_from i arr target = -1 ∧ target ∉ arr ∨
   ∃ k : nat, linear_search_from i arr target = i + Z.of_nat k ∧
              arr !! k = Some target ∧ ∀ k', (k' < k)%nat → arr !! k' ≠ Some target) .
Proof.
  revert i. induction arr as [| x arr IH]; intros i; simpl.
  - left. split; [reflexivity | apply not_elem_of_nil].
  - destruct (decide (x = target)) as [-> | Hne].
    + right. exists 0%nat. split; [lia |]. split; [reflexivity | lia].
    + destruct (IH (i + 1)) as [[H1 H2] | (k & H1 & H2 & H3)].
      * left. split; [exact H1 |]. by apply not_elem_of_cons.
      * right. exists (S k). split; [lia |]. split; [exact H2 |].
        intros [| k'] Hk'; simpl; [congruence | apply H3; lia].
Qed.

Lemma quicksort_unique_witness : quicksort [3; 1; 2; 3; 0] = [0; 1; 2; 3; 3].
Proof.
  apply quicksort_unique.
  - apply (Permutation_cons_app [3; 1; 2; 3] [] 0). simpl.
    apply (Permutation_cons_app [3] [2; 3] 1). simpl.
    apply (Permutation_cons_app [3] [3] 2). reflexivity.
  - repeat (constructor; [| repeat (constructor; [lia |]); constructor]). constructor.
Defined.

Lemma binary_search_complete_witness : binary_search [0; 1; 2; 3; 3] 7 = Ok (-1).
Proof.
  apply binary_search_complete.
  - repeat (constructor; [| repeat (constructor; [lia |]); constructor]). constructor.
  - intros H. repeat (apply elem_of_cons in H as [H | H]; [lia |]). inversion H.
Defined.

(** X17. [linear_search] returns the index of the first occurrence of the
    target, and -1 exactly when the target is not in the list. *)
Theorem linear_search_first (arr : list Z) (target : Z) :
  (linear_search arr target = -1 ↔ target ∉ arr) ∧
  (linear_search arr target ≠ -1 →
   0 ≤ linear_search arr target < len arr ∧
   arr !! Z.to_nat (linear_search arr target) = Some target ∧
   ∀ j, 0 ≤ j < linear_search arr target → arr !! Z.to_nat j ≠ Some target).
Proof.
  unfold linear_search.
  destruct (linear_search_from_spec arr target 0) as [[H1 H2] | (k & H1 & H2 & H3)].
  - rewrite H1. split; [tauto | contradiction].
  - rewrite H1. split.
    + split; [lia |]. intros Hnin. exfalso. apply Hnin. eapply list_elem_of_lookup_2, H2.
    + intros _. replace (Z.to_nat (0 + Z.of_nat k)) with k by lia.
      split; [apply lookup_lt_Some in H2; unfold len; lia |]. split; [exact H2 |].
      intros j Hj. apply H3. lia.
Qed.

Lemma sorted_lt_NoDup (arr : list Z) : StronglySorted Z.lt arr → NoDup arr.
Proof.
  induction 1 as [| x l Hs IH Hx]; constructor; [| exact IH].
  intros Hin. rewrite Forall_forall in Hx. apply Hx in Hin. lia.
Qed.

(** X18. On a strictly ascending list the two searches return the same index. *)
Theorem searches_agree (arr : list Z) (target : Z) :
  StronglySorted Z.lt arr →
  binary_search arr target = Ok (linear_search arr target).
Proof.
  intros Hs.
  assert (StronglySorted Z.le arr) as Hle
    by (eapply StronglySorted_weaken; [| exact Hs]; intros; lia).
  unfold binary_search, linear_search.
  destruct (binary_search_loop_sound arr target 0 (len arr - 1)) as (i & Hi & Hfound);
    [lia | lia |].
  rewrite Hi. f_equal.
  destruct (linear_search_from_spec arr target 0) as [[H1 H2] | (k & H1 & H2 & H3)].
  - rewrite H1. destruct Hfound as [-> | [_ H]]; [reflexivity |].
    exfalso. apply H2. eapply list_elem_of_lookup_2, H.
  - rewrite H1. destruct Hfound as [-> | [Hr H]].
    + exfalso.
      apply (binary_search_loop_complete arr target 0 (len arr - 1) Hle ltac:(lia) ltac:(lia)
               Hi (Z.of_nat k)).
      * apply lookup_lt_Some in H2. unfold len. lia.
      * by rewrite Nat2Z.id.
    + pose proof (NoDup_lookup arr _ _ target (sorted_lt_NoDup arr Hs) H H2). lia.
Qed.

Lemma searches_agree_witness :
  binary_search [0; 1; 2; 5; 8] 5 = Ok (linear_search [0; 1; 2; 5; 8] 5).
Proof.
  apply searches_agree.
  repeat (constructor; [| repeat (constructor; [lia |]); constructor]). constructor.
Defined.

(** X19. Sorting first makes the binary search a membership test: on the sorted
    data it returns -1 exactly when the target is not in the data, which is
    what [compare_searching] sets against [target in data]. *)
Theorem search_after_sort (data : list Z) (target : Z) :
  binary_search (quicksort data) target = Ok (-1) ↔ target ∉ data.
Proof.
  rewrite (binary_search_complete_iff (quicksort data) target (quicksort_sorted data)).
  by rewrite quicksort_perm.
Qed.

(** * Witnesses of the further properties of the analyzer *)

Lemma clean_data_type_error_witness :
  ∃ e, (clean_data sample_parse_float sample_parse_datetime
          (fresh_world text_quantity_rows)).1 = Raise e ∧ e = TypeError.
Proof.
  destruct (clean_data_type_error sample_parse_float sample_parse_datetime
              (fresh_world text_quantity_rows) (Frame text_quantity_rows None))
    as [[_ Hraise] Herr]; [reflexivity |].
  destruct Hraise as [e He].
  - eexists. split; [left | split; reflexivity].
  - exists e. split; [exact He | apply (Herr e He)].
Defined.

Lemma clean_table_sublist_witness :
  ∃ t, clean_table (cleaned_world sample_rows) = Some t ∧
       t `sublist_of` map (coerce sample_parse_float sample_parse_datetime) sample_rows ∧
       (length t ≤ 5)%nat.
Proof.
  destruct (clean_table_sublist sample_parse_float sample_parse_datetime
              (fresh_world sample_rows) 4%nat (cleaned_world sample_rows))
    as (f & t & Hf & Ht & Hsub & Hlen); [vm_compute; reflexivity |].
  injection Hf as <-. exists t. auto.
Defined.

Lemma clean_table_order_ids_witness :
  ∃ t, clean_table (cleaned_world sample_rows) = Some t ∧
       Some "ORD4" ∈ map order_id t ∧ Some "ORD2" ∉ map order_id t.
Proof.
  destruct (clean_table_order_ids sample_parse_float sample_parse_datetime
              (fresh_world sample_rows) 4%nat (cleaned_world sample_rows))
    as (f & t & Hf & Ht & Hids); [vm_compute; reflexivity |].
  injection Hf as <-. exists t. split; [exact Ht |]. split.
  - apply Hids. eexists. split; [do 4 right; left |]. repeat split.
  - intros H. apply Hids in H as (r & Hr & Hid & Ha & _).
    cbn [rows] in Hr. unfold sample_rows in Hr.
    repeat (apply elem_of_cons in Hr as [-> | Hr]; [try discriminate |]).
    inversion Hr.
Defined.

Lemma lazy_initialisation_witness :
  answer_business_questions binary64 sample_parse_float sample_parse_datetime
    (fresh_world sample_rows) =
  (load_data ;;; clean_data sample_parse_float sample_parse_datetime ;;;
   answer_business_questions binary64 sample_parse_float sample_parse_datetime)
    (fresh_world sample_rows).
Proof.
  apply (lazy_initialisation binary64 sample_parse_float sample_parse_datetime
           (fresh_world sample_rows)); reflexivity.
Defined.

(** * The entity classes ([models.py]) *)

Module ModelsFacts.

Import Models.

Lemma prefix_app (n b : string) : String.prefix n (n +:+ b) = true.
Proof.
  induction n as [| a n IH].
  - change (EmptyString +:+ b) with b. by destruct b.
  - change (String a n +:+ b) with (String a (n +:+ b)). simpl.
    destruct (Ascii.ascii_dec a a); [exact IH | contradiction].
Qed.

Lemma contains_app_l (n a b : string) : contains n b = true → contains n (a +:+ b) = true.
Proof.
  intros H. induction a as [| x a IH]; [exact H |].
  change (String x a +:+ b) with (String x (a +:+ b)). simpl. rewrite IH. apply orb_true_r.
Qed.

Lemma contains_middle (n a b : string) : contains n (a +:+ n +:+ b) = true.
Proof.
  apply contains_app_l. pose proof (prefix_app n b) as H.
  destruct (n +:+ b); simpl; simpl in H; by rewrite H.
Qed.

Lemma truthy_str (s : string) : truthy (PStr s) = true ↔ s ≠ EmptyString.
Proof.
  simpl. rewrite negb_true_iff. destruct (String.eqb_spec s EmptyString); split; congruence.
Qed.

Section Ledger.

Variable customer_ref : Type.
Variable str_float : float → string.
Variable float_of_string : string → option float.



End Ledger.

Section Factory.

Variable customer_ref : Type.
Variable str_float : float → string.
Variable float_of_string : string → option float.

(** X21. [Order] does not check the amount.  A completed order with a negative
    amount is built, and [add_order] then raises after it has recorded the
    order: the customer holds one order more and the same lifetime value. *)
Theorem add_order_negative (a : Qc) (oid d : string) (r : customer_ref) (its : list string)
    (c : Customer customer_ref) :
  (a < 0)%Qc →
  ∃ o, new_Order customer_ref oid d r its (Fl a) "completed" = Built o ∧
       ∃ c', add_order customer_ref c o = (ValueError "Amount cannot be negative", c') ∧
             orders _ c' = orders _ c ++ [o] ∧
             lifetime_value _ c' = lifetime_value _ c ∧
             length (orders _ c') = S (length (orders _ c)).
Proof.
  intros Ha. eexists. split; [reflexivity |].
  unfold add_order, update_lifetime_value. cbn [status amount String.eqb].
  replace (String.eqb "completed" "completed") with true by reflexivity.
  replace (float_lt0 (Fl a)) with true by (symmetry; by apply Qc_ltb_lt).
  eexists. split; [reflexivity |]. cbn [orders lifetime_value].
  split; [reflexivity |]. split; [reflexivity |]. rewrite length_app. simpl. lia.
Qed.

(** X22. [create_customer_from_row] fails only on the id: it returns a customer
    exactly when the row holds a non-empty text [customer_id]; the name and
    the email it makes up always pass their checks. *)
Theorem create_customer_from_row_spec (row : gmap string pyval) :
  match row !! "customer_id" with
  | Some (PStr s) =>
      if decide (s = EmptyString)
      then create_customer_from_row str_float customer_ref row
           = ValueError "ID must be a non-empty string"
      else create_customer_from_row str_float customer_ref row
           = Built (MkCustomer customer_ref (MkEntity s ("Customer_" +:+ s))
                               ("customer_" +:+ s +:+ "@example.com") (Fl 0%Qc) [])
  | _ => create_customer_from_row str_float customer_ref row
         = ValueError "ID must be a non-empty string"
  end.
Proof.
  unfold create_customer_from_row, get, new_Customer, new_Entity, _validate_id, _validate_name.
  destruct (row !! "customer_id") as [[s | x] |]; cbn [str is_str].
  - assert (contains "@" ("customer_" +:+ s +:+ "@example.com") = true) as ->
      by (apply contains_app_l, (contains_middle "@" s "example.com")).
    unfold truthy. destruct (decide (s = EmptyString)) as [-> | Hs]; [reflexivity |].
    destruct (String.eqb_spec s EmptyString) as [? | _]; [contradiction |]. reflexivity.
  - destruct x; reflexivity.
  - reflexivity.
Qed.

(** X23. A product built by [create_product_from_row] has the row's non-empty
    text [product_name] as id and as name, and a price that is not
    negative; without a [product_name] the factory raises, so the default
    name 'Unknown' never names a product. *)
Theorem create_product_from_row_spec (row : gmap string pyval) p :
  create_product_from_row float_of_string row = Built p →
  ∃ s, row !! "product_name" = Some (PStr s) ∧ s ≠ EmptyString ∧
       id (product_entity p) = s ∧ name (product_entity p) = s ∧
       float_lt0 (base_price p) = false ∧
       category p = get row "product_category" (PStr "Uncategorized").
Proof.
  unfold create_product_from_row.
  destruct (to_float_value float_of_string _) as [price | m]; [| discriminate].
  unfold new_Product, new_Entity, _validate_id, _validate_name, get.
  destruct (row !! "product_name") as [[s | x] |]; simpl.
  - destruct (String.eqb_spec s EmptyString) as [-> | Hs]; simpl; [discriminate |].
    destruct (float_lt0 price) eqn:Hp; [discriminate |].
    intros [= <-]. exists s. simpl. auto 10.
  - destruct x; discriminate.
  - discriminate.
Qed.

End Factory.


Lemma add_order_negative_witness :
  ∃ o c', new_Order unit "ORD9" "2023-03-01" tt [] (Fl (Qc_of (-5))) "completed" = Built o ∧
          add_order unit sample_customer o = (ValueError "Amount cannot be negative", c') ∧
          length (orders _ c') = 1%nat.
Proof.
  destruct (add_order_negative unit (Qc_of (-5)) "ORD9" "2023-03-01" tt [] sample_customer)
    as (o & Ho & c' & Hc & _ & _ & Hlen); [by vm_compute |].
  exists o, c'. auto.
Defined.

Lemma create_product_from_row_spec_witness :
  ∃ p s, create_product_from_row (λ _, None) sample_row = Built p ∧
         id (product_entity p) = s ∧ name (product_entity p) = s.
Proof.
  destruct (create_product_from_row (λ _, None) sample_row) as [p | m] eqn:E;
    [| vm_compute in E; discriminate].
  destruct (create_product_from_row_spec (λ _, None) sample_row p E)
    as (s & _ & _ & H1 & H2 & _).
  exists p, s. auto.
Defined.

End ModelsFacts.
